(** * Camo Stencil Studio: the raster-to-stencil pipeline of [camo_studio.py]

    A shallow embedding of the processing and export code of
    [camo_studio.py] (colour assignment, mask clean-up, orphan detection,
    2D path export, stencil bridging and 3D mesh export), followed by the
    properties of the specification that are settled on it.

    Conventions.
    - A numpy [uint8] image or mask is a list of rows of [Z] values in
      [0..255]; a colour is a [(b, g, r)] triple.
    - Calls into OpenCV, shapely and trimesh are calls through interfaces
      (type classes); every definition of the pipeline is stated for any
      implementation of them, and the concrete instances at the end of the
      definitions are used to run the code on explicit inputs.
    - Python exceptions are values of [exn]; a computation that can raise
      returns [result]; code that also prints or writes files runs in the
      monad [Py] over the [world] it changes. *)

From Stdlib Require Import String.
From Stdlib Require Import List ZArith QArith Lia Bool Arith Sorted Permutation.
Import ListNotations.
Open Scope Z_scope.

(* ================================================================== *)
(** * Part I. Definitions *)
(* ================================================================== *)

(** ** Python exceptions *)

Inductive exn : Type :=
| AttributeError (msg : string)
| ValueError (msg : string)
| IndexError (msg : string)
| GEOSException (msg : string)
| OSError (msg : string).

Inductive result (A : Type) : Type :=
| Ok (a : A)
| Raise (e : exn).

Arguments Ok {A} a.
Arguments Raise {A} e.

Definition exn_message (e : exn) : string :=
  match e with
  | AttributeError m | ValueError m | IndexError m
  | GEOSException m | OSError m => m
  end.

(** ** Rasters *)

Definition color : Type := (Z * Z * Z)%type.
Definition mask : Type := list (list Z).

(** [a.reshape((h, w))] of a flat array. *)
Fixpoint reshape {A : Type} (h w : nat) (flat : list A) : list (list A) :=
  match h with
  | O => []
  | S h' => firstn w flat :: reshape h' w (skipn w flat)
  end.

(** [a[y][x]], [None] out of range. *)
Definition at2 {A : Type} (g : list (list A)) (y x : nat) : option A :=
  match nth_error g y with
  | Some row => nth_error row x
  | None => None
  end.

Definition map2 {A B C : Type} (f : A -> B -> C) (a : list A) (b : list B)
  : list C :=
  map (fun p => f (fst p) (snd p)) (combine a b).

Definition cv_bitwise_or (a b : mask) : mask := map2 (map2 Z.lor) a b.
Definition cv_bitwise_not (a : mask) : mask := map (map (fun v => Z.lxor v 255)) a.
Definition cv_inRange (labels : list (list nat)) (lo hi : nat) : mask :=
  map (map (fun l => if ((lo <=? l) && (l <=? hi))%nat then 255 else 0)) labels.
Definition cv_countNonZero (m : mask) : nat :=
  length (filter (fun v => negb (v =? 0)) (concat m)).
Definition np_zeros (h w : nat) : mask := repeat (repeat 0 w) h.

(** ** ColorAssigner, manual mode ([process_thread], step 1) *)

Module ColorAssigner.

(** One entry of [np.sum((data - center) ** 2, axis=1)].  The operands
    are [float32] copies of 8-bit channels, so every intermediate value
    is an integer below [2^24] and the [float32] arithmetic is exact. *)
Definition sqdist (p c : color) : Z :=
  let '(p0, p1, p2) := p in
  let '(c0, c1, c2) := c in
  (p0 - c0) ^ 2 + (p1 - c1) ^ 2 + (p2 - c2) ^ 2.

(** [np.argmin]: the index of the first occurrence of the minimum. *)
Fixpoint argmin_from (i best : nat) (bestv : Z) (l : list Z) : nat :=
  match l with
  | [] => best
  | x :: t =>
      if x <? bestv then argmin_from (S i) i x t
      else argmin_from (S i) best bestv t
  end.

Definition argmin (l : list Z) : nat :=
  match l with
  | [] => O
  | x :: t => argmin_from 1 0 x t
  end.

(** Row [k] of the [distances] matrix: column [i] holds the distance of
    pixel [k] to [centers[i]]. *)
Definition distances_row (centers : list color) (p : color) : list Z :=
  map (sqdist p) centers.

(** [labels_reshaped] of the branch [len(picked_colors) > 0]. *)
Definition labels_manual (img : list (list color)) (h w : nat)
           (picked_colors : list color) : list (list nat) :=
  let data := concat img in
  reshape h w (map (fun p => argmin (distances_row picked_colors p)) data).

(** What the specification asks of the label of a pixel [p]: index [i]
    names a reference colour at minimal distance, and no earlier
    reference colour is as close. *)
Definition nearest_lowest (centers : list color) (p : color) (i : nat)
  : Prop :=
  exists ci, nth_error centers i = Some ci /\
    (forall j cj, nth_error centers j = Some cj ->
                  sqdist p ci <= sqdist p cj) /\
    (forall j cj, (j < i)%nat -> nth_error centers j = Some cj ->
                  sqdist p ci < sqdist p cj).

End ColorAssigner.

(** ** OrphanDetector, colour search ([process_thread], step 4) *)

Module OrphanColor.

(** [uint8] arithmetic: [c - candidate] and [(...) ** 2] are computed on
    [np.uint8] arrays and wrap modulo 256; [np.sum] accumulates in a
    64-bit integer and does not wrap. *)
Definition u8_sub (a b : Z) : Z := (a - b) mod 256.
Definition u8_sqr (a : Z) : Z := (a * a) mod 256.

Definition dist_u8 (c candidate : color) : Z :=
  let '(c0, c1, c2) := c in
  let '(k0, k1, k2) := candidate in
  u8_sqr (u8_sub c0 k0) + u8_sqr (u8_sub c1 k1) + u8_sqr (u8_sub c2 k2).

(** The squared Euclidean distance the specification talks about. *)
Definition sqdist (c k : color) : Z := ColorAssigner.sqdist c k.

Definition threshold (n_centers : nat) : Z :=
  if (n_centers <? 10)%nat then 2000 else 500.

Definition default_green : color := (0, 255, 0).

Fixpoint list_min (x : Z) (l : list Z) : Z :=
  match l with
  | [] => x
  | y :: t => list_min (Z.min x y) t
  end.

(** [not dists or min(dists) > threshold] *)
Definition accepts (final_centers : list color) (candidate : color) : bool :=
  match map (fun c => dist_u8 c candidate) final_centers with
  | [] => true
  | d :: ds => threshold (length final_centers) <? list_min d ds
  end.

(** The [while attempts < 50] loop; [rng k] is the [k]-th value drawn
    from [np.random.randint(0, 256, 3)], [left = 50 - attempts]. *)
Fixpoint search (rng : nat -> color) (final_centers : list color)
         (left attempts : nat) (rand_c : color) : color :=
  match left with
  | O => rand_c
  | S left' =>
      let attempts := S attempts in
      let candidate := rng attempts in
      if accepts final_centers candidate then candidate
      else search rng final_centers left' attempts rand_c
  end.

Definition pick (rng : nat -> color) (final_centers : list color) : color :=
  search rng final_centers 50 0 default_green.

End OrphanColor.

(** ** OpenCV: the image-processing calls of the pipeline *)

Inductive MorphOp : Type := MORPH_OPEN | MORPH_CLOSE.

(** The part of the result of [cv2.connectedComponentsWithStats] the code
    reads: the number of labels, the label image and the column
    [stats[:, cv2.CC_STAT_AREA]]. *)
Record cc_result : Type := mk_cc {
  cc_n : nat;
  cc_labels : list (list nat);
  cc_area : list Z
}.

Class OpenCV : Type := {
  (** [cv2.connectedComponentsWithStats(mask, connectivity=8)] *)
  connectedComponentsWithStats : mask -> cc_result;
  (** [cv2.morphologyEx(src, op, kernel)] *)
  morphologyEx : mask -> MorphOp -> mask -> mask
}.

(** *** What a connected-components labelling is *)

Definition pixel : Type := (nat * nat)%type.

Definition value_at (m : mask) (p : pixel) : option Z := at2 m (fst p) (snd p).

Definition foreground (m : mask) (p : pixel) : Prop :=
  exists v, value_at m p = Some v /\ v <> 0.

Definition near (a b : nat) : Prop := (a <= S b /\ b <= S a)%nat.

Definition adj8 (p q : pixel) : Prop :=
  near (fst p) (fst q) /\ near (snd p) (snd q).

(** A chain of foreground pixels, each 8-adjacent to the next. *)
Inductive connected8 (m : mask) : pixel -> pixel -> Prop :=
| conn_here (p : pixel) : foreground m p -> connected8 m p p
| conn_step (p q r : pixel) :
    connected8 m p q -> adj8 q r -> foreground m r -> connected8 m p r.

(** The coordinates of a grid, in raster order. *)
Definition all_pixels {A : Type} (g : list (list A)) : list pixel :=
  flat_map (fun y => map (fun x => (y, x)) (seq 0 (length (nth y g []))))
           (seq 0 (length g)).

Definition has_label (labels : list (list nat)) (l : nat) (p : pixel) : bool :=
  match at2 labels (fst p) (snd p) with
  | Some l' => Nat.eqb l' l
  | None => false
  end.

Definition pixels_labelled (labels : list (list nat)) (l : nat) : list pixel :=
  filter (has_label labels l) (all_pixels labels).

(** [r] is an 8-connected labelling of [m] with its areas: the label image
    has the shape of [m], label 0 is the background, two foreground pixels
    share a label exactly when a chain joins them, and [cc_area] counts
    the pixels of each label. *)
Record cc_correct (m : mask) (r : cc_result) : Prop := {
  cc_shape : map (@length Z) m = map (@length nat) (cc_labels r);
  cc_range : forall p l, at2 (cc_labels r) (fst p) (snd p) = Some l ->
                         (l < cc_n r)%nat;
  cc_background : forall p l v,
      at2 (cc_labels r) (fst p) (snd p) = Some l -> value_at m p = Some v ->
      (l = O <-> v = 0);
  cc_same : forall p q lp lq,
      foreground m p -> foreground m q ->
      at2 (cc_labels r) (fst p) (snd p) = Some lp ->
      at2 (cc_labels r) (fst q) (snd q) = Some lq ->
      (lp = lq <-> connected8 m p q);
  cc_area_len : length (cc_area r) = cc_n r;
  cc_area_count : forall l, (l < cc_n r)%nat ->
      nth l (cc_area r) 0 = Z.of_nat (length (pixels_labelled (cc_labels r) l))
}.

(** The component of [p] in [m] has at least [a] pixels. *)
Definition component_area_at_least (m : mask) (p : pixel) (a : Z) : Prop :=
  exists ps, NoDup ps /\ Forall (connected8 m p) ps /\ a <= Z.of_nat (length ps).

Definition binary (m : mask) : Prop :=
  Forall (Forall (fun v => v = 0 \/ v = 255)) m.

(** ** MaskBuilder *)

Section MaskBuilder.
Context {cv : OpenCV}.

(** [valid_labels[0] = False] *)
Definition clear_first (valid : list bool) : list bool :=
  match valid with
  | [] => []
  | _ :: t => false :: t
  end.

(** [lut = np.zeros(n); lut[valid_labels] = 255] *)
Definition make_lut (n : nat) (valid : list bool) : list Z :=
  map (fun i => if nth i valid false then 255 else 0) (seq 0 n).

Definition filter_small_blobs (m : mask) (min_size : Z) : mask :=
  if min_size <=? 0 then m
  else
    let r := connectedComponentsWithStats m in
    let valid_labels := map (fun a => min_size <=? a) (cc_area r) in
    let valid_labels := clear_first valid_labels in
    let lut := make_lut (cc_n r) valid_labels in
    map (map (fun l => nth l lut 0)) (cc_labels r).

(** Lines 808-813 (and 823-827 in auto mode): the clean-up of one layer
    mask.  [kernel] is [None] when the denoise strength is 0. *)
Definition clean_layer_mask (kernel : option mask) (min_blob : Z)
           (combined_mask : mask) : mask :=
  let combined_mask :=
    match kernel with
    | Some k =>
        let combined_mask := morphologyEx combined_mask MORPH_CLOSE k in
        morphologyEx combined_mask MORPH_OPEN k
    | None => combined_mask
    end in
  filter_small_blobs combined_mask min_blob.

(** Lines 836-842: the orphan mask. *)
Definition clean_orphan_mask (kernel : option mask) (min_blob : Z)
           (total_coverage_mask : mask) : mask :=
  let orphans := cv_bitwise_not total_coverage_mask in
  let orphans :=
    match kernel with
    | Some k =>
        let orphans := morphologyEx orphans MORPH_OPEN k in
        morphologyEx orphans MORPH_CLOSE k
    | None => orphans
    end in
  filter_small_blobs orphans min_blob.

(** [final_centers] is a Python list in manual mode and the numpy array
    [raw_centers] in auto mode; only the list has [append]. *)
Inductive centers_t : Type :=
| PyList (items : list color)
| NdArray (rows : list color).

Definition centers_items (c : centers_t) : list color :=
  match c with PyList l | NdArray l => l end.

Definition centers_append (c : centers_t) (x : color) : result centers_t :=
  match c with
  | PyList l => Ok (PyList (l ++ [x]))
  | NdArray _ => Raise (AttributeError "numpy.ndarray object has no attribute append")
  end.

(** Lines 835-863: step 4 of [process_thread]. *)
Definition orphan_step (rng : nat -> color) (orphaned_blobs : bool)
           (kernel : option mask) (min_blob : Z)
           (total_coverage_mask : mask)
           (final_masks : list mask) (final_centers : centers_t)
  : result (list mask * centers_t) :=
  if orphaned_blobs then
    let orphans_final := clean_orphan_mask kernel min_blob total_coverage_mask in
    if (0 <? cv_countNonZero orphans_final)%nat then
      let rand_c := OrphanColor.pick rng (centers_items final_centers) in
      let final_masks := final_masks ++ [orphans_final] in
      match centers_append final_centers rand_c with
      | Ok final_centers => Ok (final_masks, final_centers)
      | Raise e => Raise e
      end
    else Ok (final_masks, final_centers)
  else Ok (final_masks, final_centers).

End MaskBuilder.

(** ** A reference implementation of the OpenCV calls

    Written after the OpenCV documentation; it is used to run the
    pipeline on explicit rasters.  The properties of Part II are stated
    for any implementation of the interface. *)

Module Reference.

Fixpoint mapi_from {A B : Type} (i : nat) (f : nat -> A -> B) (l : list A)
  : list B :=
  match l with
  | [] => []
  | a :: t => f i a :: mapi_from (S i) f t
  end.

Definition map_pixels {A B : Type} (f : pixel -> A -> B) (g : list (list A))
  : list (list B) :=
  mapi_from 0 (fun y row => mapi_from 0 (fun x a => f (y, x) a) row) g.

(** *** Morphology: [erode] takes the minimum and [dilate] the maximum
    over the nonzero entries of the kernel, anchored at its centre;
    pixels outside the image do not take part. *)

Definition kernel_offsets (k : mask) : list (Z * Z) :=
  let ay := Z.of_nat (length k / 2) in
  let ax := Z.of_nat (length (hd [] k) / 2) in
  flat_map (fun p =>
              match value_at k p with
              | Some v =>
                  if v =? 0 then []
                  else [(Z.of_nat (fst p) - ay, Z.of_nat (snd p) - ax)]
              | None => []
              end)
           (all_pixels k).

Definition sample (src : mask) (y x : Z) : option Z :=
  if (y <? 0) || (x <? 0) then None
  else at2 src (Z.to_nat y) (Z.to_nat x).

Definition neighbourhood (src : mask) (offs : list (Z * Z)) (p : pixel)
  : list Z :=
  flat_map (fun o =>
              match sample src (Z.of_nat (fst p) + fst o)
                           (Z.of_nat (snd p) + snd o) with
              | Some v => [v]
              | None => []
              end)
           offs.

Definition erode (src k : mask) : mask :=
  map_pixels (fun p _ => fold_right Z.min 255
                                    (neighbourhood src (kernel_offsets k) p))
             src.

Definition dilate (src k : mask) : mask :=
  map_pixels (fun p _ => fold_right Z.max 0
                                    (neighbourhood src (kernel_offsets k) p))
             src.

Definition morphology (src : mask) (op : MorphOp) (k : mask) : mask :=
  match op with
  | MORPH_OPEN => dilate (erode src k) k
  | MORPH_CLOSE => erode (dilate src k) k
  end.

(** *** Connected components, 8-connectivity: the component of a pixel
    is grown from it round by round; components are numbered from 1 in
    the raster order of their first pixels. *)

Definition pixel_eqb (p q : pixel) : bool :=
  (Nat.eqb (fst p) (fst q) && Nat.eqb (snd p) (snd q))%bool.

Definition fgb (m : mask) (p : pixel) : bool :=
  match value_at m p with
  | Some v => negb (v =? 0)
  | None => false
  end.

Definition nearb (a b : nat) : bool := ((a <=? S b) && (b <=? S a))%nat.

Definition adj8b (p q : pixel) : bool :=
  (nearb (fst p) (fst q) && nearb (snd p) (snd q))%bool.

Definition grow (m : mask) (s : list pixel) : list pixel :=
  filter (fun q => fgb m q && existsb (adj8b q) s)%bool (all_pixels m).

Fixpoint grow_n (n : nat) (m : mask) (s : list pixel) : list pixel :=
  match n with
  | O => s
  | S n' => grow_n n' m (grow m s)
  end.

Definition component_of (m : mask) (p : pixel) : list pixel :=
  grow_n (length (all_pixels m)) m [p].

Definition is_leader (m : mask) (p : pixel) : bool :=
  (fgb m p && match component_of m p with
              | q :: _ => pixel_eqb p q
              | [] => false
              end)%bool.

Definition leaders (m : mask) : list pixel :=
  filter (is_leader m) (all_pixels m).

Fixpoint index_of (p : pixel) (l : list pixel) : nat :=
  match l with
  | [] => O
  | q :: t => if pixel_eqb p q then O else S (index_of p t)
  end.

Definition label_of (m : mask) (p : pixel) : nat :=
  if fgb m p then
    match component_of m p with
    | q :: _ => S (index_of q (leaders m))
    | [] => O
    end
  else O.

Definition connected_components (m : mask) : cc_result :=
  let labels := map_pixels (fun p _ => label_of m p) m in
  let n := S (length (leaders m)) in
  mk_cc n labels
        (map (fun l => Z.of_nat (length (pixels_labelled labels l)))
             (seq 0 n)).

Definition cv : OpenCV := {|
  connectedComponentsWithStats := connected_components;
  morphologyEx := morphology
|}.

(** [cv2.getStructuringElement(cv2.MORPH_ELLIPSE, (3, 3))] *)
Definition ellipse3 : mask := [[0; 1; 0]; [1; 1; 1]; [0; 1; 0]].

End Reference.

(** ** The clean-up of the specification, for comparison

    "Close then open with an elliptical kernel", then the area filter:
    the operations of a list are applied from left to right. *)

Section CleanupBySequence.
Context {cv : OpenCV}.

Definition morph_sequence (ops : list MorphOp) (k : mask) (m : mask) : mask :=
  fold_left (fun acc op => morphologyEx acc op k) ops m.

Definition cleanup_with (ops : list MorphOp) (kernel : option mask)
           (min_blob : Z) (m : mask) : mask :=
  filter_small_blobs
    (match kernel with
     | Some k => morph_sequence ops k m
     | None => m
     end) min_blob.

End CleanupBySequence.

(** ** Explicit rasters used to run the code *)

Module Samples.

(** One isolated pixel and one blob of two pixels. *)
Definition two_blobs : mask := [[255; 0; 255; 255]].

(** Coverage leaving a ring of eight uncovered pixels around a covered
    centre. *)
Definition ring_coverage : mask :=
  [[255; 255; 255; 255; 255];
   [255;   0;   0;   0; 255];
   [255;   0; 255;   0; 255];
   [255;   0;   0;   0; 255];
   [255; 255; 255; 255; 255]].

End Samples.

(** ** Effects of the export threads

    [print] lines, files handed to the writers and message boxes are
    recorded in the [world]; a computation ends with a value, with an
    exception, or not at all. *)

Inductive outcome (A : Type) : Type :=
| Returns (a : A)
| Raises (e : exn)
| Diverges.

Arguments Returns {A} a.
Arguments Raises {A} e.
Arguments Diverges {A}.

(** The values substituted into the file-name template: the 1-based
    layer index, the colour, and the [_stencil] suffix. *)
Record file_name : Type := mk_file_name {
  fn_index : nat;
  fn_color : color;
  fn_stencil : bool
}.

Section Effects.
Variable artifact : Type.

Record world : Type := mk_world {
  stdout : list string;
  written : list (file_name * artifact);
  dialogs : list (string * string)
}.

Definition Py (A : Type) : Type := world -> outcome A * world.

Definition ret {A : Type} (a : A) : Py A := fun w => (Returns a, w).

Definition bind {A B : Type} (m : Py A) (k : A -> Py B) : Py B :=
  fun w =>
    match m w with
    | (Returns a, w') => k a w'
    | (Raises e, w') => (Raises e, w')
    | (Diverges, w') => (Diverges, w')
    end.

Definition lift {A : Type} (r : result A) : Py A :=
  fun w =>
    match r with
    | Ok a => (Returns a, w)
    | Raise e => (Raises e, w)
    end.

(** [try: body / except Exception as e: handler e] *)
Definition try_except {A : Type} (body : Py A) (handler : exn -> Py A) : Py A :=
  fun w =>
    match body w with
    | (Raises e, w') => handler e w'
    | other => other
    end.

Definition print (line : string) : Py unit :=
  fun w => (Returns tt, mk_world (stdout w ++ [line]) (written w) (dialogs w)).

Definition write_file (name : file_name) (a : artifact) : Py unit :=
  fun w => (Returns tt, mk_world (stdout w) (written w ++ [(name, a)]) (dialogs w)).

Definition messagebox (kind text : string) : Py unit :=
  fun w => (Returns tt, mk_world (stdout w) (written w) (dialogs w ++ [(kind, text)])).

Definition empty_world : world := mk_world [] [] [].

End Effects.

Arguments ret {artifact A} a.
Arguments bind {artifact A B} m k.
Arguments lift {artifact A} r.
Arguments try_except {artifact A} body handler.
Arguments print {artifact} line.
Arguments write_file {artifact} name a.
Arguments messagebox {artifact} kind text.
Arguments empty_world {artifact}.
Arguments stdout {artifact} w.
Arguments written {artifact} w.
Arguments dialogs {artifact} w.

Declare Scope py_scope.
Delimit Scope py_scope with py.
Notation "x <- m ;; k" := (bind m (fun x => k))
  (at level 61, m at next level, right associativity) : py_scope.
Notation "m ;;; k" := (bind m (fun _ => k))
  (at level 61, right associativity) : py_scope.

(** [l[i]] for a Python list and an integer index, negative indices
    counting from the end. *)
Definition py_index {A : Type} (l : list A) (i : Z) : result A :=
  let n := Z.of_nat (length l) in
  let k := if i <? 0 then i + n else i in
  if (k <? 0) || (n <=? k) then Raise (IndexError "index out of range")
  else match nth_error l (Z.to_nat k) with
       | Some a => Ok a
       | None => Raise (IndexError "index out of range")
       end.

(** ** Contours (OpenCV) *)

Inductive RetrievalMode : Type := RETR_EXTERNAL | RETR_CCOMP.

Definition contour : Type := list (Z * Z).

(** A row [[next, previous, first_child, parent]] of the hierarchy. *)
Definition hier_row : Type := (Z * Z * Z * Z)%type.
Definition h_next (r : hier_row) : Z := let '(n, _, _, _) := r in n.
Definition h_first_child (r : hier_row) : Z := let '(_, _, c, _) := r in c.
Definition h_parent (r : hier_row) : Z := let '(_, _, _, p) := r in p.

(** ** Numbers of the 3D export: Python floats behind an interface *)

Class Float64 (F : Type) : Type := {
  of_int : Z -> F;
  fadd : F -> F -> F;
  fsub : F -> F -> F;
  fmul : F -> F -> F;
  fdiv : F -> F -> F;
  fneg : F -> F;
  (** [a > b] *)
  fgtb : F -> F -> bool
}.

Section Geometry.
Context {F : Type} {fl : Float64 F}.

Definition point : Type := (F * F)%type.
Definition ring : Type := list point.

(** shapely geometries: a [Polygon] has an exterior ring and interior
    rings (its holes); a [MultiPolygon] is a collection of polygons. *)
Record polygon : Type := mk_polygon {
  exterior : ring;
  interiors : list ring
}.

Inductive geometry : Type :=
| Polygon (p : polygon)
| MultiPolygon (geoms : list polygon)
| LineString (coords : list point).

(** [g.exterior] and [g.interiors]: attributes of polygons only. *)
Definition get_exterior (g : geometry) : result ring :=
  match g with
  | Polygon p => Ok (exterior p)
  | MultiPolygon _ => Raise (AttributeError "MultiPolygon object has no attribute exterior")
  | LineString _ => Raise (AttributeError "LineString object has no attribute exterior")
  end.

Definition get_interiors (g : geometry) : result (list ring) :=
  match g with
  | Polygon p => Ok (interiors p)
  | MultiPolygon _ => Raise (AttributeError "MultiPolygon object has no attribute interiors")
  | LineString _ => Raise (AttributeError "LineString object has no attribute interiors")
  end.

(** [isinstance(g, MultiPolygon)]: the pieces to handle one by one. *)
Definition pieces (g : geometry) : list geometry :=
  match g with
  | MultiPolygon geoms => map Polygon geoms
  | other => [other]
  end.

Definition holes_of (g : geometry) : list ring :=
  match g with
  | Polygon p => interiors p
  | _ => []
  end.

(** trimesh: a mesh is vertex and face arrays; [a + b] concatenates,
    shifting the face indices of [b]. *)
Record Trimesh : Type := mk_mesh {
  vertices : list (F * F * F);
  faces : list (nat * nat * nat)
}.

Definition Trimesh_new : Trimesh := mk_mesh [] [].

Definition mesh_is_empty (m : Trimesh) : bool :=
  match vertices m, faces m with
  | [], [] => true
  | _, _ => false
  end.

Definition shift_face (k : nat) (f : nat * nat * nat) : nat * nat * nat :=
  let '(a, b, c) := f in ((a + k)%nat, (b + k)%nat, (c + k)%nat).

Definition mesh_add (a b : Trimesh) : Trimesh :=
  mk_mesh (vertices a ++ vertices b)
          (faces a ++ map (shift_face (length (vertices a))) (faces b)).

(** The shapely and trimesh calls of [camo_studio.py]. *)
Class Shapely : Type := {
  is_valid : geometry -> bool;
  is_empty : geometry -> bool;
  (** [g.buffer(d)] *)
  buffer : geometry -> F -> result geometry;
  (** [a.difference(b)] *)
  difference : geometry -> geometry -> result geometry;
  (** [nearest_points(a, b)] on two rings *)
  nearest_points : ring -> ring -> result (point * point);
  unary_union : list geometry -> result geometry;
  (** [trimesh.creation.extrude_polygon(p, height=h)] *)
  extrude_polygon : geometry -> F -> result Trimesh
}.

(** The writers behind [scene_mesh.export(path)] and [dwg.save()]:
    whether the file is accepted. *)
Class Sinks : Type := {
  mesh_export : Trimesh -> file_name -> result unit;
  svg_save : file_name -> result unit
}.

(** The contour calls of OpenCV. *)
Class Contours : Type := {
  (** [cv2.findContours(mask, mode, cv2.CHAIN_APPROX_SIMPLE)];
      [hierarchy] is [None] when there is no contour, else the array
      [hierarchy[0]] *)
  findContours : mask -> RetrievalMode -> list contour * option (list hier_row);
  (** [cv2.arcLength(c, True)] *)
  arcLength : contour -> F;
  (** [cv2.approxPolyDP(c, epsilon, True)] *)
  approxPolyDP : contour -> F -> contour
}.

End Geometry.

Arguments polygon F : clear implicits.
Arguments geometry F : clear implicits.
Arguments Trimesh F : clear implicits.
Arguments Shapely F : clear implicits.
Arguments Contours F : clear implicits.
Arguments Sinks F : clear implicits.
Arguments point F : clear implicits.
Arguments ring F : clear implicits.

(** ** File names and colours *)

Definition hex_digit (n : Z) : string :=
  String.substring (Z.to_nat n) 1 "0123456789abcdef".

(** ['{:02x}'.format(v)] for a channel value *)
Definition hex2 (v : Z) : string :=
  (hex_digit (v / 16) ++ hex_digit (v mod 16))%string.

Definition bgr_to_hex (bgr : color) : string :=
  let '(b, g, r) := bgr in
  ("#" ++ hex2 r ++ hex2 g ++ hex2 b)%string.

Definition enumerate {A : Type} (l : list A) : list (nat * A) :=
  combine (seq 0 (length l)) l.

(** ** The export threads *)

Section ExportThreads.
Context {F : Type} {fl : Float64 F}.
Context {sh : Shapely F} {ct : Contours F} {sk : Sinks F}.

(** One path of the drawing: the points of ["M x,y L x,y ... Z "] and
    the [fill] attribute. *)
Record svg_path : Type := mk_path {
  path_points : contour;
  path_fill : string
}.

Inductive artifact : Type :=
| SvgDrawing (width height : Z) (paths : list svg_path)
| StlMesh (m : Trimesh F).

Local Open Scope py_scope.

(** *** [export_2d_thread] *)

(** Lines 938-949: the paths added for the contours of one layer.  A
    contour kept by [len(approx) < 3: continue] has at least three
    points, so [pts] is a non-empty list of [[x, y]] pairs and the path
    is ["M x0,y0 L x1,y1 ... Z "]. *)
Definition paths_of_contours (smooth : F) (hex_c : string)
           (contours : list contour) : list svg_path :=
  flat_map (fun c =>
              let epsilon := fmul smooth (arcLength c) in
              let approx := approxPolyDP c epsilon in
              if (length approx <? 3)%nat then []
              else [mk_path approx hex_c])
           contours.

Definition export_2d_layer (smooth : F) (width height : Z)
           (masks : list mask) (i : nat) (bgr : color)
  : Py artifact unit :=
  let hex_c := bgr_to_hex bgr in
  let name := mk_file_name (S i) bgr false in
  m <- lift (py_index masks (Z.of_nat i)) ;;
  let contours := fst (findContours m RETR_EXTERNAL) in
  let dwg := SvgDrawing width height (paths_of_contours smooth hex_c contours) in
  lift (svg_save name) ;;;
  write_file name dwg.

Fixpoint for_each {A : Type} (body : A -> Py artifact unit) (l : list A)
  : Py artifact unit :=
  match l with
  | [] => ret tt
  | a :: rest => body a ;;; for_each body rest
  end.

Definition export_2d_thread (smooth : F) (width height : Z)
           (centers : list color) (masks : list mask) : Py artifact unit :=
  try_except
    (for_each (fun ic => export_2d_layer smooth width height masks
                                         (fst ic) (snd ic))
              (enumerate centers) ;;;
     messagebox "Success" "2D Export Complete")
    (fun e => print (exn_message e) ;;;
              messagebox "Error" (exn_message e)).

(** *** [apply_stencil_bridges] *)

Definition bridge_message (e : exn) : string :=
  ("Bridge failed on one island: " ++ exn_message e)%string.

(** One round of [for interior in poly.interiors].  In the [try]
    block [temp_poly] is assigned before it is regularised, so a
    failing [buffer(0)] leaves the cut polygon in place. *)
Definition bridge_hole (bridge_width : F) (temp_poly : geometry F)
           (interior : ring F) : Py artifact (geometry F) :=
  ext <- lift (get_exterior temp_poly) ;;
  pq <- lift (nearest_points ext interior) ;;
  let bridge_line := LineString [fst pq; snd pq] in
  bridge_shape <- lift (buffer bridge_line (fdiv bridge_width (of_int 2))) ;;
  match difference temp_poly bridge_shape with
  | Raise e => print (bridge_message e) ;;; ret temp_poly
  | Ok cut =>
      if is_valid cut then ret cut
      else match buffer cut (of_int 0) with
           | Ok regular => ret regular
           | Raise e => print (bridge_message e) ;;; ret cut
           end
  end.

Fixpoint bridge_holes (bridge_width : F) (temp_poly : geometry F)
         (holes : list (ring F)) : Py artifact (geometry F) :=
  match holes with
  | [] => ret temp_poly
  | interior :: rest =>
      temp_poly <- bridge_hole bridge_width temp_poly interior ;;
      bridge_holes bridge_width temp_poly rest
  end.

(** The body of [for poly in polys]: the polygons it appends. *)
Definition bridge_polygon (bridge_width : F) (poly : geometry F)
  : Py artifact (list (geometry F)) :=
  poly <- (if is_valid poly then ret poly
           else lift (buffer poly (of_int 0))) ;;
  holes <- lift (get_interiors poly) ;;
  match holes with
  | [] => ret [poly]
  | _ :: _ =>
      temp_poly <- bridge_holes bridge_width poly holes ;;
      ret (pieces temp_poly)
  end.

Fixpoint bridge_loop (bridge_width : F) (polys : list (geometry F))
         (bridged_polys : list (geometry F))
  : Py artifact (list (geometry F)) :=
  match polys with
  | [] => ret bridged_polys
  | poly :: rest =>
      added <- bridge_polygon bridge_width poly ;;
      bridge_loop bridge_width rest (bridged_polys ++ added)
  end.

Definition apply_stencil_bridges (polys : list (geometry F))
           (bridge_width : F) : Py artifact (list (geometry F)) :=
  bridge_loop bridge_width polys [].

(** *** [export_3d_thread]: contours to polygons *)

(** [pts * scale], then [pts[:, 1] = target_h - pts[:, 1]] *)
Definition scale_flip (scale target_h : F) (pts : contour) : ring F :=
  map (fun xy => (fmul (of_int (fst xy)) scale,
                  fsub target_h (fmul (of_int (snd xy)) scale)))
      pts.

(** The [while current_child_idx != -1] loop over the sibling chain.
    A chain that does not end revisits an index within
    [2 * len(contours)] rounds, so running out of [fuel] means that
    the Python loop does not terminate. *)
Fixpoint collect_holes (fuel : nat) (contours : list contour)
         (hierarchy : list hier_row) (smooth scale target_h : F)
         (current_child_idx : Z) (holes : list (ring F))
  : Py artifact (list (ring F)) :=
  if current_child_idx =? -1 then ret holes
  else
    match fuel with
    | O => fun w => (Diverges, w)
    | S fuel' =>
        child_c <- lift (py_index contours current_child_idx) ;;
        let eps_child := fmul smooth (arcLength child_c) in
        let approx_child := approxPolyDP child_c eps_child in
        let holes :=
          if (3 <=? length approx_child)%nat
          then holes ++ [scale_flip scale target_h approx_child]
          else holes in
        row <- lift (py_index hierarchy current_child_idx) ;;
        collect_holes fuel' contours hierarchy smooth scale target_h
                      (h_next row) holes
    end.

Fixpoint trace_polygons (todo : list (nat * contour))
         (contours : list contour) (hierarchy : list hier_row)
         (smooth scale target_h : F) (shapely_polys : list (geometry F))
  : Py artifact (list (geometry F)) :=
  match todo with
  | [] => ret shapely_polys
  | (j, c) :: rest =>
      row <- lift (py_index hierarchy (Z.of_nat j)) ;;
      if h_parent row =? -1 then
        let epsilon := fmul smooth (arcLength c) in
        let approx := approxPolyDP c epsilon in
        if (length approx <? 3)%nat then
          trace_polygons rest contours hierarchy smooth scale target_h
                         shapely_polys
        else
          let outer_pts := scale_flip scale target_h approx in
          holes <- collect_holes (S (2 * length contours)) contours hierarchy
                                 smooth scale target_h (h_first_child row) [] ;;
          let shapely_polys :=
            match buffer (Polygon (mk_polygon outer_pts holes)) (of_int 0) with
            | Ok clean_poly =>
                if is_empty clean_poly then shapely_polys
                else shapely_polys ++ [clean_poly]
            | Raise _ => shapely_polys
            end in
          trace_polygons rest contours hierarchy smooth scale target_h
                         shapely_polys
      else
        trace_polygons rest contours hierarchy smooth scale target_h
                       shapely_polys
  end.

Definition polygons_of_mask (m : mask) (smooth scale target_h : F)
  : Py artifact (list (geometry F)) :=
  let '(contours, hierarchy) := findContours m RETR_CCOMP in
  match hierarchy with
  | None => ret []
  | Some hierarchy =>
      trace_polygons (enumerate contours) contours hierarchy
                     smooth scale target_h []
  end.

(** *** [export_3d_thread]: polygons to a mesh *)

(** [for p in polys_to_extrude] *)
Fixpoint extrude_all (ps : list (geometry F)) (extrusion : F)
         (scene_mesh : Trimesh F) : Py artifact (Trimesh F) :=
  match ps with
  | [] => ret scene_mesh
  | p :: rest =>
      p <- (if is_valid p then ret p else lift (buffer p (of_int 0))) ;;
      if is_empty p then extrude_all rest extrusion scene_mesh
      else
        mesh_part <- lift (extrude_polygon p extrusion) ;;
        extrude_all rest extrusion (mesh_add scene_mesh mesh_part)
  end.

Definition rectangle (min_x min_y max_x max_y : F) : ring F :=
  [(min_x, min_y); (max_x, min_y); (max_x, max_y); (min_x, max_y)].

Definition plate_poly (target_w target_h border_w : F) : geometry F :=
  Polygon (mk_polygon
             (rectangle (fneg border_w) (fneg border_w)
                        (fadd target_w border_w) (fadd target_h border_w))
             []).

Definition border_poly (target_w target_h border_w : F) : geometry F :=
  Polygon (mk_polygon
             (rectangle (fneg border_w) (fneg border_w)
                        (fadd target_w border_w) (fadd target_h border_w))
             [rectangle (of_int 0) (of_int 0) target_w target_h]).

Definition diff_message (e : exn) : string :=
  ("Boolean diff failed: " ++ exn_message e)%string.

(** Lines 1075-1081 *)
Definition stencil_shape (plate : geometry F)
           (shapely_polys : list (geometry F)) : Py artifact (geometry F) :=
  match shapely_polys with
  | [] => ret plate
  | _ :: _ =>
      match unary_union shapely_polys with
      | Raise e => print (diff_message e) ;;; ret plate
      | Ok blobs =>
          match difference plate blobs with
          | Raise e => print (diff_message e) ;;; ret plate
          | Ok final_shape => ret final_shape
          end
      end
  end.

(** Lines 1068-1116: [scene_mesh] of one layer. *)
Definition build_scene_mesh (is_stencil : bool)
           (target_w target_h border_w extrusion : F)
           (shapely_polys : list (geometry F)) : Py artifact (Trimesh F) :=
  if is_stencil then
    final_shape <- stencil_shape (plate_poly target_w target_h border_w)
                                 shapely_polys ;;
    extrude_all (pieces final_shape) extrusion Trimesh_new
  else
    scene_mesh <-
      match shapely_polys with
      | [] => ret Trimesh_new
      | _ :: _ =>
          combined_poly <- lift (unary_union shapely_polys) ;;
          extrude_all (pieces combined_poly) extrusion Trimesh_new
      end ;;
    if fgtb border_w (of_int 0) then
      border_mesh <- lift (extrude_polygon
                             (border_poly target_w target_h border_w)
                             extrusion) ;;
      ret (mesh_add scene_mesh border_mesh)
    else ret scene_mesh.

(** The settings read at the top of [export_3d_thread]. *)
Record export_config : Type := mk_config {
  smooth : F;
  target_w : F;
  extrusion : F;
  border_w : F;
  is_stencil : bool;
  bridge_w : F
}.

(** Lines 1028-1065: the polygon set of a layer, bridged in stencil
    mode when the bridge width is positive. *)
Definition layer_polygons (cfg : export_config) (orig_w orig_h : Z)
           (m : mask) : Py artifact (list (geometry F)) :=
  let scale := fdiv (target_w cfg) (of_int orig_w) in
  let target_h := fmul (of_int orig_h) scale in
  shapely_polys <- polygons_of_mask m (smooth cfg) scale target_h ;;
  if is_stencil cfg then
    if fgtb (bridge_w cfg) (of_int 0)
    then apply_stencil_bridges shapely_polys (bridge_w cfg)
    else ret shapely_polys
  else ret shapely_polys.

(** The mesh of layer [i]. *)
Definition layer_mesh (cfg : export_config) (orig_w orig_h : Z)
           (masks : list mask) (i : nat) : Py artifact (Trimesh F) :=
  let scale := fdiv (target_w cfg) (of_int orig_w) in
  let target_h := fmul (of_int orig_h) scale in
  m <- lift (py_index masks (Z.of_nat i)) ;;
  shapely_polys <- layer_polygons cfg orig_w orig_h m ;;
  build_scene_mesh (is_stencil cfg) (target_w cfg) target_h (border_w cfg)
                   (extrusion cfg) shapely_polys.

(** The body of [for i in range(len(centers))]. *)
Definition export_3d_layer (cfg : export_config) (orig_w orig_h : Z)
           (masks : list mask) (i : nat) (bgr : color) : Py artifact unit :=
  let name := mk_file_name (S i) bgr (is_stencil cfg) in
  scene_mesh <- layer_mesh cfg orig_w orig_h masks i ;;
  if mesh_is_empty scene_mesh then ret tt
  else lift (mesh_export scene_mesh name) ;;;
       write_file name (StlMesh scene_mesh).

Definition export_3d_thread (cfg : export_config) (orig_w orig_h : Z)
           (centers : list color) (masks : list mask) : Py artifact unit :=
  try_except
    (for_each (fun ic => export_3d_layer cfg orig_w orig_h masks
                                         (fst ic) (snd ic))
              (enumerate centers) ;;;
     messagebox "Success" "Exported 3D models")
    (fun e => print (exn_message e) ;;;
              messagebox "Export Error" (exn_message e)).

(** *** Notions used to state what the exports do *)

Definition add_log (log : list string) (st : world artifact) : world artifact :=
  mk_world _ (stdout st ++ log) (written st) (dialogs st).

(** The hole rings of the pieces of [g]. *)
Definition holes_in (g : geometry F) : list (ring F) :=
  flat_map holes_of (pieces g).

(** What the geometry library made of one cut: cutting the connector of
    the hole [h] took the working geometry [before] to [after] without
    adding a hole and without leaving [h]; every hole of [after] is a
    hole of [before] and is not [h].  [same] tells when two rings are
    the same hole (the library may return a ring with its points in
    another order). *)
Definition opens (same : ring F -> ring F -> Prop)
           (before after : geometry F) (h : ring F) : Prop :=
  forall r, In r (holes_in after) ->
            ~ same r h /\ exists r', In r' (holes_in before) /\ same r r'.

(** A run of [for interior in poly.interiors] in which no round fails:
    round by round [bridge_hole] returns the next working geometry of
    [cuts] and prints nothing, and the library's cut [opens] the hole
    of that round. *)
Fixpoint clean_cuts (same : ring F -> ring F -> Prop) (bridge_width : F)
         (st : world artifact) (temp_poly : geometry F)
         (holes : list (ring F)) (cuts : list (geometry F)) : Prop :=
  match holes, cuts with
  | [], [] => True
  | interior :: holes', cut :: cuts' =>
      bridge_hole bridge_width temp_poly interior st = (Returns cut, st) /\
      opens same temp_poly cut interior /\
      clean_cuts same bridge_width st cut holes' cuts'
  | _, _ => False
  end.

(** The files of the layers from index [k] on, given the mesh and the
    printed lines of each layer: empty meshes are not written. *)
Fixpoint files_of (stencil : bool) (k : nat) (centers : list color)
         (runs : list (Trimesh F * list string))
  : list (file_name * artifact) :=
  match centers, runs with
  | bgr :: centers', r :: runs' =>
      (if mesh_is_empty (fst r) then []
       else [(mk_file_name (S k) bgr stencil, StlMesh (fst r))])
      ++ files_of stencil (S k) centers' runs'
  | _, _ => []
  end.

End ExportThreads.

(** ** Stand-ins for the geometry libraries, to run the export code

    Numbers are exact rationals.  The [plain] kernel is a place-holder
    geometry in which every call succeeds: a connector is the polygon of
    its two end points, subtracting a connector fuses the first hole of a
    polygon into its exterior, subtracting anything else punches it as
    holes.  The other kernels differ from it in one call that raises. *)

Module Kernels.

#[export] Instance float_Q : Float64 Q := {|
  of_int := inject_Z;
  fadd := Qplus;
  fsub := Qminus;
  fmul := Qmult;
  fdiv := Qdiv;
  fneg := Qopp;
  fgtb := fun a b => negb (Qle_bool a b)
|}.

Definition is_nil {A : Type} (l : list A) : bool :=
  match l with [] => true | _ => false end.

Definition emptyb (g : geometry Q) : bool :=
  match g with
  | Polygon p => is_nil (exterior p)
  | MultiPolygon geoms => is_nil geoms
  | LineString coords => is_nil coords
  end.

Definition polygons_in (g : geometry Q) : list (polygon Q) :=
  match g with
  | Polygon p => [p]
  | MultiPolygon geoms => geoms
  | LineString _ => []
  end.

Definition plain_buffer (g : geometry Q) (d : Q) : result (geometry Q) :=
  match g with
  | LineString coords => Ok (Polygon (mk_polygon coords []))
  | other => Ok other
  end.

Definition is_connector (g : geometry Q) : bool :=
  match g with
  | Polygon p => (Nat.eqb (length (exterior p)) 2 && is_nil (interiors p))%bool
  | _ => false
  end.

Definition plain_difference (a b : geometry Q) : result (geometry Q) :=
  match a with
  | Polygon p =>
      if is_connector b then
        match interiors p with
        | [] => Ok a
        | h :: rest => Ok (Polygon (mk_polygon (exterior p ++ h) rest))
        end
      else
        Ok (Polygon (mk_polygon (exterior p)
                                (interiors p ++ map exterior (polygons_in b))))
  | other => Ok other
  end.

Definition plain_nearest (a b : ring Q) : result (point Q * point Q) :=
  Ok (hd (0%Q, 0%Q) a, hd (0%Q, 0%Q) b).

Definition plain_union (gs : list (geometry Q)) : result (geometry Q) :=
  match gs with
  | [g] => Ok g
  | _ => Ok (MultiPolygon (flat_map polygons_in gs))
  end.

(** A prism over the rings of the polygon (bottom copies of the
    vertices, then top copies), with a fan of triangles on each side. *)
Definition plain_extrude (g : geometry Q) (h : Q) : result (Trimesh Q) :=
  match g with
  | Polygon p =>
      let pts := exterior p ++ concat (interiors p) in
      let n := length pts in
      if (length (exterior p) <? 3)%nat
      then Raise (ValueError "degenerate polygon")
      else Ok (mk_mesh (map (fun xy => (fst xy, snd xy, 0%Q)) pts ++
                        map (fun xy => (fst xy, snd xy, h)) pts)
                       (map (fun i => (O, i, S i)) (seq 1 (n - 2)) ++
                        map (fun i => (n, n + i, n + S i)%nat) (seq 1 (n - 2))))
  | _ => Raise (ValueError "not a polygon")
  end.

Definition plain : Shapely Q := {|
  is_valid := fun _ => true;
  is_empty := emptyb;
  buffer := plain_buffer;
  difference := plain_difference;
  nearest_points := plain_nearest;
  unary_union := plain_union;
  extrude_polygon := plain_extrude
|}.

(** The boolean difference raises. *)
Definition difference_raises : Shapely Q := {|
  is_valid := fun _ => true;
  is_empty := emptyb;
  buffer := plain_buffer;
  difference := fun _ _ => Raise (GEOSException "TopologyException");
  nearest_points := plain_nearest;
  unary_union := plain_union;
  extrude_polygon := plain_extrude
|}.

(** The nearest-point search raises. *)
Definition nearest_raises : Shapely Q := {|
  is_valid := fun _ => true;
  is_empty := emptyb;
  buffer := plain_buffer;
  difference := plain_difference;
  nearest_points := fun _ _ => Raise (ValueError "The first input geometry is empty");
  unary_union := plain_union;
  extrude_polygon := plain_extrude
|}.

(** The triangulation behind the extrusion raises on polygons with
    holes. *)
Definition extrude_raises : Shapely Q := {|
  is_valid := fun _ => true;
  is_empty := emptyb;
  buffer := plain_buffer;
  difference := plain_difference;
  nearest_points := plain_nearest;
  unary_union := plain_union;
  extrude_polygon := fun g h =>
    if is_nil (holes_of g) then plain_extrude g h
    else Raise (ValueError "triangulation failed")
|}.

Definition sinks : Sinks Q := {|
  mesh_export := fun _ _ => Ok tt;
  svg_save := fun _ => Ok tt
|}.

(** *** Rasters and their contours *)

(** A 3x3 ring of set pixels around one clear pixel. *)
Definition ring_mask : mask :=
  [[0;   0;   0;   0; 0];
   [0; 255; 255; 255; 0];
   [0; 255;   0; 255; 0];
   [0; 255; 255; 255; 0];
   [0;   0;   0;   0; 0]].

(** A full 3x3 square. *)
Definition square_mask : mask :=
  [[0;   0;   0;   0; 0];
   [0; 255; 255; 255; 0];
   [0; 255; 255; 255; 0];
   [0; 255; 255; 255; 0];
   [0;   0;   0;   0; 0]].

Definition blank_mask : mask := np_zeros 5 5.

Definition outer_square : contour := [(1, 1); (1, 3); (3, 3); (3, 1)].
Definition inner_hole : contour := [(2, 1); (1, 2); (2, 3); (3, 2)].

Fixpoint list_eqb {A : Type} (eqb : A -> A -> bool) (a b : list A) : bool :=
  match a, b with
  | [], [] => true
  | x :: a', y :: b' => (eqb x y && list_eqb eqb a' b')%bool
  | _, _ => false
  end.

Definition mask_eqb : mask -> mask -> bool := list_eqb (list_eqb Z.eqb).

(** What [cv2.findContours] returns on the three rasters above; other
    rasters are not traced. *)
Definition find_contours (m : mask) (mode : RetrievalMode)
  : list contour * option (list hier_row) :=
  if mask_eqb m ring_mask then
    match mode with
    | RETR_EXTERNAL => ([outer_square], Some [(-1, -1, -1, -1)])
    | RETR_CCOMP =>
        ([outer_square; inner_hole],
         Some [(-1, -1, 1, -1); (-1, -1, -1, 0)])
    end
  else if mask_eqb m square_mask then
    ([outer_square], Some [(-1, -1, -1, -1)])
  else ([], None).

Fixpoint chain_length (first prev : Z * Z) (rest : contour) : Z :=
  match rest with
  | [] => Z.abs (fst first - fst prev) + Z.abs (snd first - snd prev)
  | p :: rest' =>
      Z.abs (fst p - fst prev) + Z.abs (snd p - snd prev)
      + chain_length first p rest'
  end.

(** No simplification: [approxPolyDP] returns the contour. *)
Definition contours : Contours Q := {|
  findContours := find_contours;
  arcLength := fun c => match c with
                        | [] => 0%Q
                        | p :: rest => inject_Z (chain_length p p rest)
                        end;
  approxPolyDP := fun c _ => c
|}.

(** Stencil export, 10 units wide, 2 high, border 1, bridges 2 wide. *)
Definition stencil_cfg : export_config (F := Q) :=
  mk_config (1 # 10000)%Q 10%Q 2%Q 1%Q true 2%Q.

(** Relief export without a border. *)
Definition relief_cfg : export_config (F := Q) :=
  mk_config (1 # 10000)%Q 10%Q 2%Q 0%Q false 2%Q.

Definition ring_polygon : polygon Q :=
  mk_polygon [(2, 8); (2, 4); (6, 4); (6, 8)]%Q
             [[(4, 8); (2, 6); (4, 4); (6, 6)]%Q].

End Kernels.

(** Meshes the [plain] kernel gives for the rasters above. *)
Module Solids.
Import Kernels.

(** The square of [square_mask], 10 units wide, extruded to height 2. *)
Definition square_solid : Trimesh Q :=
  Eval vm_compute in
    match plain_extrude
            (Polygon (mk_polygon
                        (scale_flip (10 / 5)%Q (5 * (10 / 5))%Q outer_square)
                        []))
            2%Q with
    | Ok m => m
    | Raise _ => Trimesh_new
    end.

(** The plate of [stencil_cfg] for a 5x5 raster. *)
Definition plate_solid : Trimesh Q :=
  Eval vm_compute in
    match plain_extrude (plate_poly 10%Q (5 * (10 / 5))%Q 1%Q) 2%Q with
    | Ok m => m
    | Raise _ => Trimesh_new
    end.

End Solids.

(** A kernel in which cutting a connector splits the polygon in two
    pieces. *)
Module SplitKernel.
Import Kernels.

Definition split_difference (a b : geometry Q) : result (geometry Q) :=
  match a with
  | Polygon p =>
      if is_connector b
      then Ok (MultiPolygon [mk_polygon (exterior p) [];
                             mk_polygon (concat (interiors p)) []])
      else plain_difference a b
  | other => Ok other
  end.

Definition splitting : Shapely Q := {|
  is_valid := fun _ => true;
  is_empty := emptyb;
  buffer := plain_buffer;
  difference := split_difference;
  nearest_points := plain_nearest;
  unary_union := plain_union;
  extrude_polygon := plain_extrude
|}.

(** A square with two holes. *)
Definition two_hole_polygon : polygon Q :=
  mk_polygon [(0, 0); (9, 0); (9, 9); (0, 9)]%Q
             [[(1, 1); (2, 1); (2, 2)]%Q; [(5, 5); (6, 5); (6, 6)]%Q].

End SplitKernel.

(** ** What the 2D export writes for one layer *)

Section Drawings.
Context {F : Type} {fl : Float64 F} {ct : Contours F}.

Definition drawing_of (smooth : F) (width height : Z) (masks : list mask)
           (ic : nat * color) : file_name * artifact (F := F) :=
  (mk_file_name (S (fst ic)) (snd ic) false,
   SvgDrawing width height
     (paths_of_contours smooth (bgr_to_hex (snd ic))
        (fst (findContours (nth (fst ic) masks []) RETR_EXTERNAL)))).

End Drawings.

(** ** The palette and its layer numbers

    The palette of [CamoStudioApp]: the picked colours with, position by
    position, the value of the layer [IntVar] and of the selection
    [BooleanVar].  Every [IntVar] and [BooleanVar] of the lists is an
    object of its own, so the lists of their values are the state; the
    widgets redrawn by [update_pick_ui] and the status line are not part
    of it. *)

Module Palette.

Record palette : Type := mk_palette {
  picked_colors : list color;
  layer_vars : list Z;
  select_vars : list bool;
  last_select_index : Z
}.

(** How a handler ends: normally, or with an exception ([IndexError] or
    [KeyError]) that leaves the palette as it was at that point. *)
Inductive ran : Type :=
| Done (p : palette)
| Raised (p : palette).

(** *** [compact_layer_ids] *)

(** [sorted(list(set(...)))]: the distinct values in increasing order. *)
Fixpoint insert_new (x : Z) (l : list Z) : list Z :=
  match l with
  | [] => [x]
  | y :: t =>
      if x <? y then x :: l
      else if x =? y then l
      else y :: insert_new x t
  end.

Definition sorted_set (l : list Z) : list Z := fold_right insert_new [] l.

(** [{old: new + 1 for new, old in enumerate(current_ids)}] *)
Definition id_map_of (current_ids : list Z) : list (Z * Z) :=
  map (fun no => (snd no, Z.of_nat (fst no) + 1)) (enumerate current_ids).

(** [d[k]]; [None] stands for [KeyError]. *)
Fixpoint dict_get (d : list (Z * Z)) (k : Z) : option Z :=
  match d with
  | [] => None
  | (k', v) :: t => if k' =? k then Some v else dict_get t k
  end.

(** [for var in self.layer_vars: var.set(id_map[var.get()])] *)
Fixpoint set_all (id_map : list (Z * Z)) (vars : list Z) : option (list Z) :=
  match vars with
  | [] => Some []
  | v :: t =>
      match dict_get id_map v with
      | None => None
      | Some n =>
          match set_all id_map t with
          | None => None
          | Some t' => Some (n :: t')
          end
      end
  end.

Definition compact_layer_ids (layer_vars : list Z) : option (list Z) :=
  let current_ids := sorted_set layer_vars in
  let id_map := id_map_of current_ids in
  set_all id_map layer_vars.

(** *** [remove_color] *)

(** [del l[i]] for [i >= 0]; [None] stands for [IndexError]. *)
Definition del_at {A : Type} (l : list A) (i : nat) : option (list A) :=
  if (i <? length l)%nat then Some (firstn i l ++ skipn (S i) l) else None.

Definition remove_color (p : palette) (index : Z) : ran :=
  if (0 <=? index) && (index <? Z.of_nat (length (picked_colors p))) then
    let i := Z.to_nat index in
    let colors := firstn i (picked_colors p) ++ skipn (S i) (picked_colors p) in
    match del_at (layer_vars p) i with
    | None =>
        Raised (mk_palette colors (layer_vars p) (select_vars p)
                           (last_select_index p))
    | Some layers =>
        match del_at (select_vars p) i with
        | None =>
            Raised (mk_palette colors layers (select_vars p)
                               (last_select_index p))
        | Some selects =>
            match compact_layer_ids layers with
            | None => Raised (mk_palette colors layers selects
                                         (last_select_index p))
            | Some layers' =>
                Done (mk_palette colors layers' selects (last_select_index p))
            end
        end
    end
  else Done p.

(** *** [apply_bulk_layer] *)

(** The loop [for i, var in enumerate(self.select_vars)], the two lists
    walked side by side: the layer values and selection values after it,
    [changed], and whether it ran to its end ([layer_vars[i]] raises
    when the layer list is too short for a selected position). *)
Fixpoint bulk_loop (target : Z) (layers : list Z) (selects : list bool)
  : list Z * list bool * bool * bool :=
  match selects with
  | [] => (layers, [], false, true)
  | s :: selects' =>
      if s then
        match layers with
        | [] => ([], s :: selects', false, false)
        | _ :: layers' =>
            let '(ls, ss, _, ok) := bulk_loop target layers' selects' in
            (target :: ls, false :: ss, true, ok)
        end
      else
        let '(ls, ss, changed, ok) := bulk_loop target (tl layers) selects' in
        (match layers with [] => [] | l :: _ => l :: ls end,
         s :: ss, changed, ok)
  end.

Definition apply_bulk_layer (target : Z) (p : palette) : ran :=
  let '(layers, selects, changed, ok) :=
    bulk_loop target (layer_vars p) (select_vars p) in
  let p' := mk_palette (picked_colors p) layers selects (last_select_index p) in
  if ok then
    if changed then
      match compact_layer_ids layers with
      | None => Raised p'
      | Some layers' =>
          Done (mk_palette (picked_colors p) layers' selects
                           (last_select_index p))
      end
    else Done p'
  else Raised p'.

(** The three lists go position by position. *)
Definition aligned (p : palette) : Prop :=
  length (layer_vars p) = length (picked_colors p) /\
  length (select_vars p) = length (picked_colors p).

(** The layer numbers [1, 2, ..., k]. *)
Definition first_ids (k : nat) : list Z :=
  map (fun i => Z.of_nat i + 1) (seq 0 k).

End Palette.

(** ** Ordering the palette ([reorder_palette_by_similarity],
    [on_canvas_click]) and range selection ([handle_click_selection]) *)

Module PaletteOrder.
Import Palette.

(** [sum(color)] *)
Definition color_sum (c : color) : Z :=
  let '(b, g, r) := c in b + g + r.

Fixpoint list_max (x : Z) (l : list Z) : Z :=
  match l with
  | [] => x
  | y :: t => list_max (Z.max x y) t
  end.

(** [while len(self.layer_vars) < len(self.picked_colors)]: [n] rounds,
    each appending [max(existing_ids) + 1], or 1 to an empty list. *)
Fixpoint grow_layers (n : nat) (layer_vars : list Z) : list Z :=
  match n with
  | O => layer_vars
  | S n' =>
      let next_id :=
        match layer_vars with
        | [] => 1
        | x :: t => list_max x t + 1
        end in
      grow_layers n' (layer_vars ++ [next_id])
  end.

(** An entry of [groups[lid]]: the colour and the value of its
    selection variable (its old layer variable is not read again). *)
Definition item : Type := (color * bool)%type.

(** [groups[lid].append(item)] on a dictionary kept in insertion order. *)
Fixpoint group_add (lid : Z) (it : item) (groups : list (Z * list item))
  : list (Z * list item) :=
  match groups with
  | [] => [(lid, [it])]
  | (k, items) :: t =>
      if k =? lid then (k, items ++ [it]) :: t
      else (k, items) :: group_add lid it t
  end.

(** One round of [for i, color in enumerate(self.picked_colors)], on the
    colour with its layer value and its selection value. *)
Definition group_step (groups : list (Z * list item))
           (cls : color * (Z * bool)) : list (Z * list item) :=
  group_add (fst (snd cls)) (fst cls, snd (snd cls)) groups.

Definition build_groups (colors : list color) (layers : list Z)
           (selects : list bool) : list (Z * list item) :=
  fold_left group_step (combine colors (combine layers selects)) [].

(** [np.mean([sum(x['color']) for x in items])]: the float64 quotient
    of two exact integers, taken here as the exact quotient (the two
    order alike for palettes of fewer than [2^20] colours). *)
Definition brightness (items : list item) : Q :=
  inject_Z (fold_right (fun it acc => color_sum (fst it) + acc) 0 items)
  / inject_Z (Z.of_nat (length items)).

(** [l.sort(key=..., reverse=True)]: descending, entries with equal keys
    staying in their order.  [below x y] says that the key of [x] is
    less than the key of [y]. *)
Fixpoint insert_desc {A : Type} (below : A -> A -> bool) (x : A) (l : list A)
  : list A :=
  match l with
  | [] => [x]
  | y :: t => if below x y then y :: insert_desc below x t else x :: l
  end.

Definition sort_desc {A : Type} (below : A -> A -> bool) (l : list A) : list A :=
  fold_right (insert_desc below) [] l.

Definition group_metric : Type := (Z * (Q * list item))%type.

Definition darker (g1 g2 : group_metric) : bool :=
  negb (Qle_bool (fst (snd g2)) (fst (snd g1))).

Definition dimmer (i1 i2 : item) : bool :=
  color_sum (fst i1) <? color_sum (fst i2).

(** The loop [for g in group_metrics] filling the three new lists. *)
Fixpoint assemble (current_layer_num : Z) (group_metrics : list group_metric)
  : list color * list Z * list bool :=
  match group_metrics with
  | [] => ([], [], [])
  | g :: rest =>
      let items := sort_desc dimmer (snd (snd g)) in
      let '(cs, ls, ss) := assemble (current_layer_num + 1) rest in
      (map fst items ++ cs,
       map (fun _ => current_layer_num) items ++ ls,
       map snd items ++ ss)
  end.

Definition reorder_palette_by_similarity (p : palette) : palette :=
  match picked_colors p with
  | [] => p
  | _ :: _ =>
      let n := length (picked_colors p) in
      let layers := grow_layers (n - length (layer_vars p)) (layer_vars p) in
      let selects := select_vars p ++ repeat false (n - length (select_vars p)) in
      let groups := build_groups (picked_colors p) layers selects in
      let group_metrics :=
        map (fun g => (fst g, (brightness (snd g), snd g))) groups in
      let group_metrics := sort_desc darker group_metrics in
      let '(new_colors, new_layer_vars, new_select_vars) :=
        assemble 1 group_metrics in
      mk_palette new_colors new_layer_vars new_select_vars
                 (last_select_index p)
  end.

Definition color_eqb (a b : color) : bool :=
  let '(a0, a1, a2) := a in
  let '(b0, b1, b2) := b in
  (a0 =? b0) && (a1 =? b1) && (a2 =? b2).

(** [on_canvas_click], once the clicked pixel [bgr_tuple] is read. *)
Definition add_color (p : palette) (bgr_tuple : color) : palette :=
  if existsb (color_eqb bgr_tuple) (picked_colors p) then p
  else
    reorder_palette_by_similarity
      (mk_palette (picked_colors p ++ [bgr_tuple]) (layer_vars p)
                  (select_vars p) (last_select_index p)).

End PaletteOrder.

(** ** MaskBuilder, manual mode ([process_thread], steps 2 and 3) *)

Module LayerMerge.

(** The two ways the merge can raise: [raw_masks[idx]] out of range and
    a missing key of [layer_map]. *)
Inductive raised : Type := RaisedIndexError | RaisedKeyError.

(** [layer_map[lid].append(idx)], adding the key when it is new; the
    dictionary keeps its keys in insertion order. *)
Fixpoint map_add (lid : Z) (idx : nat) (layer_map : list (Z * list nat))
  : list (Z * list nat) :=
  match layer_map with
  | [] => [(lid, [idx])]
  | (k, indices) :: t =>
      if k =? lid then (k, indices ++ [idx]) :: t
      else (k, indices) :: map_add lid idx t
  end.

Definition map_step (layer_map : list (Z * list nat)) (il : nat * Z)
  : list (Z * list nat) :=
  map_add (snd il) (fst il) layer_map.

(** [for idx, lid in enumerate(layer_ids)] *)
Definition build_layer_map (layer_ids : list Z) : list (Z * list nat) :=
  fold_left map_step (enumerate layer_ids) [].

Fixpoint map_get (layer_map : list (Z * list nat)) (lid : Z)
  : option (list nat) :=
  match layer_map with
  | [] => None
  | (k, indices) :: t => if k =? lid then Some indices else map_get t lid
  end.

(** Step 2: [raw_masks[i] = cv2.inRange(labels_reshaped, i, i)]. *)
Definition raw_masks_of (labels : list (list nat)) (num_raw_colors : nat)
  : list mask :=
  map (fun i => cv_inRange labels i i) (seq 0 num_raw_colors).

Definition color_add (a b : color) : color :=
  let '(a0, a1, a2) := a in
  let '(b0, b1, b2) := b in
  (a0 + b0, a1 + b1, a2 + b2).

(** [(avg_color / len(indices)).astype(np.uint8)]: the channels are sums
    of 8-bit values, exact in [float32], and the conversion truncates
    the quotient (exactly, for fewer than [2^15] colours in a layer). *)
Definition color_div (a : color) (n : Z) : color :=
  let '(a0, a1, a2) := a in (a0 / n, a1 / n, a2 / n).

(** [for idx in indices]: the mask and the colour sum of one layer. *)
Fixpoint combine_indices (raw_masks : list mask) (raw_centers : list color)
         (indices : list nat) (combined_mask : mask) (avg_color : color)
  : (mask * color) + raised :=
  match indices with
  | [] => inl (combined_mask, avg_color)
  | idx :: rest =>
      match nth_error raw_masks idx, nth_error raw_centers idx with
      | Some m, Some c =>
          combine_indices raw_masks raw_centers rest
                          (cv_bitwise_or combined_mask m) (color_add avg_color c)
      | _, _ => inr RaisedIndexError
      end
  end.

Section Merge.
Context {cv : OpenCV}.

(** [for lid in sorted_layer_ids], lines 797-818. *)
Fixpoint merge_loop (lids : list Z) (layer_map : list (Z * list nat))
         (raw_masks : list mask) (raw_centers : list color) (h w : nat)
         (kernel : option mask) (min_blob : Z)
         (final_masks : list mask) (final_centers : list color)
         (total_coverage_mask : mask)
  : (list mask * list color * mask) + raised :=
  match lids with
  | [] => inl (final_masks, final_centers, total_coverage_mask)
  | lid :: rest =>
      match map_get layer_map lid with
      | None => inr RaisedKeyError
      | Some indices =>
          match combine_indices raw_masks raw_centers indices
                                (np_zeros h w) (0, 0, 0) with
          | inr e => inr e
          | inl (combined_mask, avg_color) =>
              let avg_color := color_div avg_color (Z.of_nat (length indices)) in
              let filtered := clean_layer_mask kernel min_blob combined_mask in
              merge_loop rest layer_map raw_masks raw_centers h w kernel min_blob
                         (final_masks ++ [filtered])
                         (final_centers ++ [avg_color])
                         (cv_bitwise_or total_coverage_mask filtered)
          end
      end
  end.

(** Steps 2 and 3 of [process_thread] for a manual palette: the layer
    masks, the layer colours and [total_coverage_mask]. *)
Definition merge_layers (labels : list (list nat)) (h w : nat)
           (picked_colors : list color) (layer_ids : list Z)
           (kernel : option mask) (min_blob : Z)
  : (list mask * list color * mask) + raised :=
  let raw_masks := raw_masks_of labels (length picked_colors) in
  let layer_map := build_layer_map layer_ids in
  let sorted_layer_ids := Palette.sorted_set (map fst layer_map) in
  merge_loop sorted_layer_ids layer_map raw_masks picked_colors h w
             kernel min_blob [] [] (np_zeros h w).

End Merge.

(** The grid is [h] rows of [w] entries. *)
Definition grid_shape {A : Type} (g : list (list A)) (h w : nat) : Prop :=
  length g = h /\ Forall (fun row => length row = w) g.

End LayerMerge.

(** ** Selecting rows of the palette ([handle_click_selection]) *)

Module Selection.
Import Palette.

(** [l[i].set(True)] for a Python list and an integer index, negative
    indices counting from the end; [None] stands for [IndexError]. *)
Definition set_true (l : list bool) (i : Z) : option (list bool) :=
  let n := Z.of_nat (length l) in
  let k := if i <? 0 then i + n else i in
  if (k <? 0) || (n <=? k) then None
  else Some (firstn (Z.to_nat k) l ++ true :: skipn (S (Z.to_nat k)) l).

(** [for i in range(start, end + 1)]: [count] rounds from [i] on; the
    list after the loop and whether the loop ran to its end. *)
Fixpoint select_from (selects : list bool) (i : Z) (count : nat)
  : list bool * bool :=
  match count with
  | O => (selects, true)
  | S count' =>
      match set_true selects i with
      | None => (selects, false)
      | Some selects' => select_from selects' (i + 1) count'
      end
  end.

(** [event and (event.state & 0x0001)]; the event is [None] or carries
    its [state]. *)
Definition shift_held (event : option Z) : bool :=
  match event with
  | Some state => negb (Z.land state 1 =? 0)
  | None => false
  end.

Definition handle_click_selection (p : palette) (index : Z)
           (event : option Z) : ran :=
  if shift_held event then
    if negb (last_select_index p =? -1) then
      let start := Z.min (last_select_index p) index in
      let end_ := Z.max (last_select_index p) index in
      let '(selects, ok) :=
        select_from (select_vars p) start (Z.to_nat (end_ + 1 - start)) in
      let p' := mk_palette (picked_colors p) (layer_vars p) selects
                           (last_select_index p) in
      if ok then Done p' else Raised p'
    else Done p
  else Done (mk_palette (picked_colors p) (layer_vars p) (select_vars p) index).

End Selection.

(** ** The palette of a project file ([save_project_json],
    [load_project_json]) *)

Module Project.
Import Palette.

(** Lines 439 and 445-446: [data["colors"]] and [data["layers"]].  The
    colours are written as lists of integers and read back with
    [tuple(c)]; integers and lists pass through JSON unchanged. *)
Definition saved_colors (p : palette) : list color := picked_colors p.
Definition saved_layers (p : palette) : list Z := layer_vars p.

(** Lines 507-510: [for i in range(len(self.picked_colors))]. *)
Fixpoint restore_loop (indices : list nat) (saved_layers : list Z)
         (layer_vars : list Z) (select_vars : list bool)
  : list Z * list bool :=
  match indices with
  | [] => (layer_vars, select_vars)
  | i :: rest =>
      let lid :=
        if (i <? length saved_layers)%nat then nth i saved_layers 1 else 1 in
      restore_loop rest saved_layers (layer_vars ++ [lid])
                   (select_vars ++ [false])
  end.

(** Step 4 of [load_project_json], lines 501-510; [last_select_index]
    is not touched. *)
Definition restore_palette (colors : list color) (saved_layers : list Z)
           (p : palette) : palette :=
  let '(layer_vars, select_vars) :=
    restore_loop (seq 0 (length colors)) saved_layers [] [] in
  mk_palette colors layer_vars select_vars (last_select_index p).

End Project.

(** ** Previews ([_generate_previews]) and the auto mode of the merge *)

Module Preview.

Definition image : Type := list (list color).

Definition white : color := (255, 255, 255).

(** [np.ones((h, w, 3), dtype=np.uint8) * 255] *)
Definition np_white (h w : nat) : image := repeat (repeat white w) h.

(** [mask.shape == (h, w)] *)
Definition has_shape (m : mask) (h w : nat) : bool :=
  (length m =? h)%nat && forallb (fun row => (length row =? w)%nat) m.

(** [img[mask == 255] = c] on an image of [h] rows and [w] columns;
    [None] stands for the [IndexError] of a boolean index of another
    shape. *)
Definition assign_where (h w : nat) (img : image) (m : mask) (c : color)
  : option image :=
  if has_shape m h w then
    Some (map2 (map2 (fun px v => if v =? 255 then c else px)) img m)
  else None.

(** [cv2.cvtColor(img, cv2.COLOR_BGR2RGB)] *)
Definition cvtColor_BGR2RGB (img : image) : image :=
  map (map (fun c : color => let '(b, g, r) := c in (r, g, b))) img.

(** The first loop, lines 880-881; [None] stands for [IndexError]. *)
Fixpoint paint_all (h w : nat) (centers : list color)
         (masks : list (nat * mask)) (combined : image) : option image :=
  match masks with
  | [] => Some combined
  | (i, m) :: rest =>
      match nth_error centers i with
      | None => None
      | Some c =>
          match assign_where h w combined m c with
          | None => None
          | Some combined => paint_all h w centers rest combined
          end
      end
  end.

(** The second loop, lines 883-886: the previews [0], [1], ... *)
Fixpoint paint_each (h w : nat) (centers : list color)
         (masks : list (nat * mask)) : option (list image) :=
  match masks with
  | [] => Some []
  | (i, m) :: rest =>
      match nth_error centers i with
      | None => None
      | Some c =>
          match assign_where h w (np_white h w) m c with
          | None => None
          | Some layer =>
              match paint_each h w centers rest with
              | None => None
              | Some previews => Some (cvtColor_BGR2RGB layer :: previews)
              end
          end
      end
  end.

(** [preview_images["All"]] and [preview_images[0]], ... *)
Definition generate_previews (centers : list color) (masks : list mask)
           (w h : nat) : option (image * list image) :=
  match paint_all h w centers (enumerate masks) (np_white h w) with
  | None => None
  | Some combined =>
      match paint_each h w centers (enumerate masks) with
      | None => None
      | Some previews => Some (cvtColor_BGR2RGB combined, previews)
      end
  end.

End Preview.

Module AutoMerge.
Import LayerMerge.

Section Auto.
Context {cv : OpenCV}.

(** [for i, mask in enumerate(raw_masks)], lines 822-831. *)
Fixpoint auto_loop (raw_masks : list mask) (kernel : option mask)
         (min_blob : Z) (final_masks : list mask)
         (total_coverage_mask : mask) : list mask * mask :=
  match raw_masks with
  | [] => (final_masks, total_coverage_mask)
  | mask :: rest =>
      let filtered := clean_layer_mask kernel min_blob mask in
      auto_loop rest kernel min_blob (final_masks ++ [filtered])
                (cv_bitwise_or total_coverage_mask filtered)
  end.

(** Steps 2 and 3 of [process_thread] without a palette: the label
    grid and the centres come from [cv2.kmeans]; [final_centers] is the
    array [raw_centers] itself (line 832). *)
Definition merge_auto (labels : list (list nat)) (h w : nat)
           (raw_centers : list color) (kernel : option mask) (min_blob : Z)
  : list mask * centers_t * mask :=
  let raw_masks := raw_masks_of labels (length raw_centers) in
  let '(final_masks, total_coverage_mask) :=
    auto_loop raw_masks kernel min_blob [] (np_zeros h w) in
  (final_masks, NdArray raw_centers, total_coverage_mask).

End Auto.

End AutoMerge.


(* ================================================================== *)
(** * Part II. Properties *)
(* ================================================================== *)

Module RasterFacts.

Lemma at2_map {A B : Type} (f : A -> B) (g : list (list A)) (y x : nat) :
  at2 (map (map f) g) y x = option_map f (at2 g y x).
Proof.
  unfold at2. rewrite nth_error_map.
  destruct (nth_error g y) as [row|]; cbn; [apply nth_error_map | reflexivity].
Qed.

End RasterFacts.

Module ColorAssignerFacts.
Import ColorAssigner.
Import RasterFacts.

Lemma argmin_from_spec (l : list Z) : forall i best bestv,
    (argmin_from i best bestv l = best /\ Forall (fun x => bestv <= x) l) \/
    (exists k x, argmin_from i best bestv l = (i + k)%nat /\
                 nth_error l k = Some x /\ x < bestv /\
                 Forall (fun y => x < y) (firstn k l) /\
                 Forall (fun y => x <= y) (skipn k l)).
Proof.
  induction l as [|x t IH]; intros i best bestv; cbn [argmin_from].
  - left; split; [reflexivity | constructor].
  - destruct (Z.ltb_spec x bestv) as [Hx | Hx].
    + destruct (IH (S i) i x)
        as [[Hr Hall] | (k & y & Hr & Hn & Hy & Hpre & Hsuf)].
      * right. exists O, x. rewrite Hr, Nat.add_0_r.
        repeat split; auto. cbn. constructor; [lia | exact Hall].
      * right. exists (S k), y. rewrite Hr.
        repeat split; auto; try lia.
        cbn. constructor; [lia | exact Hpre].
    + destruct (IH (S i) best bestv)
        as [[Hr Hall] | (k & y & Hr & Hn & Hy & Hpre & Hsuf)].
      * left. split; [exact Hr | constructor; [lia | exact Hall]].
      * right. exists (S k), y. rewrite Hr.
        repeat split; auto; try lia.
        cbn. constructor; [lia | exact Hpre].
Qed.

Lemma argmin_spec (l : list Z) :
  l <> [] ->
  exists x, nth_error l (argmin l) = Some x /\
            Forall (fun y => x <= y) l /\
            Forall (fun y => x < y) (firstn (argmin l) l).
Proof.
  destruct l as [|a t]; [congruence | intros _].
  unfold argmin.
  destruct (argmin_from_spec t 1 0 a)
    as [[Hr Hall] | (k & y & Hr & Hn & Hy & Hpre & Hsuf)]; rewrite Hr.
  - exists a. cbn. split; [reflexivity | split]; constructor;
      solve [lia | exact Hall].
  - exists y. cbn [Nat.add nth_error firstn].
    split; [exact Hn | split].
    + constructor; [lia |].
      rewrite <- (firstn_skipn k t). apply Forall_app. split.
      * eapply Forall_impl; [| exact Hpre]. cbn; intros; lia.
      * exact Hsuf.
    + constructor; [lia | exact Hpre].
Qed.

Lemma reshape_map_concat {A B : Type} (f : A -> B) (w : nat)
      (img : list (list A)) :
  Forall (fun r => length r = w) img ->
  reshape (length img) w (map f (concat img)) = map (map f) img.
Proof.
  induction 1 as [|r img Hr _ IH]; cbn [length reshape concat map].
  - reflexivity.
  - assert (Hl : length (map f r) = w) by (rewrite length_map; exact Hr).
    rewrite map_app. f_equal.
    + rewrite firstn_app, Hl, Nat.sub_diag, firstn_O, app_nil_r.
      apply firstn_all2. lia.
    + rewrite skipn_app, Hl, Nat.sub_diag, skipn_O.
      rewrite skipn_all2 by lia. exact IH.
Qed.

Lemma Forall_at {A : Type} (P : A -> Prop) (l : list A) (k : nat) (a : A) :
  Forall P l -> nth_error l k = Some a -> P a.
Proof.
  intros H Hk. rewrite Forall_forall in H. apply H.
  eapply nth_error_In; exact Hk.
Qed.

Lemma nearest_lowest_argmin (centers : list color) (p : color) :
  centers <> [] ->
  nearest_lowest centers p (argmin (distances_row centers p)).
Proof.
  intros Hne.
  assert (Hd : distances_row centers p <> []).
  { unfold distances_row. destruct centers; cbn; congruence. }
  destruct (argmin_spec _ Hd) as (x & Hx & Hmin & Hfirst).
  set (i := argmin (distances_row centers p)) in *.
  unfold distances_row in Hx. rewrite nth_error_map in Hx.
  destruct (nth_error centers i) as [ci|] eqn:Hci; [| discriminate].
  cbn in Hx. injection Hx as Hx. subst x.
  exists ci. repeat split; auto.
  - intros j cj Hj. refine (Forall_at _ _ j _ Hmin _).
    unfold distances_row. rewrite nth_error_map, Hj. reflexivity.
  - intros j cj Hlt Hj. refine (Forall_at _ _ j _ Hfirst _).
    rewrite nth_error_firstn.
    destruct (Nat.ltb_spec j i); [| lia].
    unfold distances_row. rewrite nth_error_map, Hj. reflexivity.
Qed.

Lemma nearest_lowest_unique (centers : list color) (p : color) (i j : nat) :
  nearest_lowest centers p i -> nearest_lowest centers p j -> i = j.
Proof.
  intros (ci & Hi & Hmi & Hli) (cj & Hj & Hmj & Hlj).
  destruct (Nat.lt_trichotomy i j) as [H | [H | H]]; [| exact H |].
  - specialize (Hlj _ _ H Hi). specialize (Hmi _ _ Hj). lia.
  - specialize (Hli _ _ H Hj). specialize (Hmj _ _ Hi). lia.
Qed.

(** C7. In manual mode every pixel of the label grid holds the index of
    the reference colour at minimal squared Euclidean distance, the
    lowest such index on ties; that index is the only one fitting the
    description, so the grid is a function of palette and image. *)
Theorem manual_labels_nearest_lowest_index
        (img : list (list color)) (w : nat) (picked_colors : list color)
        (y x : nat) (p : color) :
  picked_colors <> [] ->
  Forall (fun row => length row = w) img ->
  at2 img y x = Some p ->
  exists i,
    at2 (labels_manual img (length img) w picked_colors) y x = Some i /\
    nearest_lowest picked_colors p i /\
    (forall i', nearest_lowest picked_colors p i' -> i' = i).
Proof.
  intros Hne Hrect Hp.
  exists (argmin (distances_row picked_colors p)).
  unfold labels_manual. rewrite (reshape_map_concat _ _ _ Hrect), at2_map, Hp.
  split; [reflexivity | split].
  - apply nearest_lowest_argmin; exact Hne.
  - intros i' Hi'. eapply nearest_lowest_unique; [exact Hi' |].
    apply nearest_lowest_argmin; exact Hne.
Qed.

Lemma manual_labels_nearest_lowest_index_witness :
  exists i,
    at2 (labels_manual [[(0, 0, 255); (250, 5, 0)]] 1 2
                       [(0, 0, 250); (255, 0, 0); (0, 0, 250)]) 0 1 = Some i /\
    nearest_lowest [(0, 0, 250); (255, 0, 0); (0, 0, 250)] (250, 5, 0) i /\
    (forall i', nearest_lowest [(0, 0, 250); (255, 0, 0); (0, 0, 250)]
                               (250, 5, 0) i' -> i' = i).
Proof.
  apply (manual_labels_nearest_lowest_index
           [[(0, 0, 255); (250, 5, 0)]] 2
           [(0, 0, 250); (255, 0, 0); (0, 0, 250)] 0 1 (250, 5, 0)).
  - discriminate.
  - repeat constructor.
  - reflexivity.
Defined.

End ColorAssignerFacts.

Module OrphanColorFacts.
Import OrphanColor.

Lemma u8_sqr_le (a b : Z) : u8_sqr (u8_sub a b) <= (a - b) ^ 2.
Proof.
  unfold u8_sqr, u8_sub.
  rewrite <- Z.mul_mod by lia.
  replace ((a - b) ^ 2) with ((a - b) * (a - b)) by ring.
  apply Z.mod_le; [apply Z.square_nonneg | lia].
Qed.

Lemma dist_u8_le (c k : color) : dist_u8 c k <= sqdist c k.
Proof.
  destruct c as [[c0 c1] c2], k as [[k0 k1] k2].
  unfold dist_u8, sqdist, ColorAssigner.sqdist.
  pose proof (u8_sqr_le c0 k0). pose proof (u8_sqr_le c1 k1).
  pose proof (u8_sqr_le c2 k2). lia.
Qed.

Lemma list_min_le (l : list Z) : forall x,
    list_min x l <= x /\ Forall (fun y => list_min x l <= y) l.
Proof.
  induction l as [|y t IH]; intros x; cbn.
  - split; [lia | constructor].
  - destruct (IH (Z.min x y)) as [H1 H2]. split; [lia |].
    constructor; [lia | exact H2].
Qed.

Lemma accepts_far (cs : list color) (k : color) :
  accepts cs k = true ->
  forall c, In c cs -> threshold (length cs) < sqdist c k.
Proof.
  unfold accepts. intros H c Hc.
  destruct (map (fun c => dist_u8 c k) cs) as [|d ds] eqn:E.
  - destruct cs; [contradiction | discriminate].
  - apply Z.ltb_lt in H.
    destruct (list_min_le ds d) as [H1 H2].
    assert (Hin : In (dist_u8 c k) (d :: ds)).
    { rewrite <- E. apply in_map_iff. exists c. split; auto. }
    pose proof (dist_u8_le c k).
    destruct Hin as [Heq | Hin]; [lia |].
    rewrite Forall_forall in H2. specialize (H2 _ Hin). lia.
Qed.

Lemma search_spec (rng : nat -> color) (cs : list color) (rand_c : color) :
  forall left attempts,
    accepts cs (search rng cs left attempts rand_c) = true \/
    (search rng cs left attempts rand_c = rand_c /\
     forall k, (attempts < k <= attempts + left)%nat ->
               accepts cs (rng k) = false).
Proof.
  induction left as [|left IH]; intros attempts; cbn [search].
  - right. split; [reflexivity | intros; lia].
  - destruct (accepts cs (rng (S attempts))) eqn:E.
    + left. exact E.
    + destruct (IH (S attempts)) as [H | [H1 H2]]; [left; exact H |].
      right. split; [exact H1 |]. intros k Hk.
      destruct (Nat.eq_dec k (S attempts)) as [-> | Hne]; [exact E |].
      apply H2. lia.
Qed.


End OrphanColorFacts.

Module BlobFacts.
Import RasterFacts.

Lemma same_shape_at2 {A B : Type} (a : list (list A)) (b : list (list B))
      (y x : nat) :
  map (@length A) a = map (@length B) b ->
  (at2 a y x = None <-> at2 b y x = None).
Proof.
  intros H. unfold at2.
  assert (Hy : nth_error (map (@length A) a) y = nth_error (map (@length B) b) y)
    by (rewrite H; reflexivity).
  rewrite !nth_error_map in Hy.
  destruct (nth_error a y) as [ra|], (nth_error b y) as [rb|];
    cbn in Hy; try discriminate; [| tauto].
  injection Hy as Hy. rewrite !nth_error_None, Hy. tauto.
Qed.

Lemma in_all_pixels {A : Type} (g : list (list A)) (p : pixel) :
  In p (all_pixels g) <-> at2 g (fst p) (snd p) <> None.
Proof.
  unfold all_pixels, at2. rewrite in_flat_map. split.
  - intros (y & Hy & Hp). apply in_map_iff in Hp.
    destruct Hp as (x & <- & Hx). cbn [fst snd].
    apply in_seq in Hy. apply in_seq in Hx.
    destruct (nth_error g y) as [row|] eqn:E.
    + rewrite (nth_error_nth _ _ [] E) in Hx.
      apply nth_error_Some. lia.
    + apply nth_error_None in E. lia.
  - destruct p as [y x]. cbn [fst snd]. intros H.
    destruct (nth_error g y) as [row|] eqn:E; [| congruence].
    exists y. split.
    + apply in_seq. assert (y < length g)%nat; [| lia].
      apply nth_error_Some. congruence.
    + apply in_map_iff. exists x. split; [reflexivity |].
      apply in_seq. rewrite (nth_error_nth _ _ [] E).
      apply nth_error_Some in H. lia.
Qed.

Lemma NoDup_row (y : nat) (xs : list nat) :
  NoDup xs -> NoDup (map (fun x => (y, x)) xs).
Proof.
  induction 1 as [|x xs Hx _ IH]; cbn; constructor; [| exact IH].
  intros Hin. apply in_map_iff in Hin. destruct Hin as (x' & E & Hin).
  injection E as ->. contradiction.
Qed.

Lemma NoDup_rows {A : Type} (g : list (list A)) (ys : list nat) :
  NoDup ys ->
  NoDup (flat_map (fun y => map (fun x => (y, x))
                                (seq 0 (length (nth y g [])))) ys).
Proof.
  induction 1 as [|y ys Hy _ IH]; cbn [flat_map]; [constructor |].
  apply NoDup_app; [| exact IH |].
  - apply NoDup_row, seq_NoDup.
  - intros [y' x'] Hin Hin'. apply in_map_iff in Hin.
    destruct Hin as (x & E & _). injection E as <- <-.
    apply in_flat_map in Hin'. destruct Hin' as (y2 & Hy2 & Hin').
    apply in_map_iff in Hin'. destruct Hin' as (x2 & E & _).
    injection E as <- <-. contradiction.
Qed.

Lemma NoDup_all_pixels {A : Type} (g : list (list A)) : NoDup (all_pixels g).
Proof. apply NoDup_rows, seq_NoDup. Qed.

Lemma connected8_foreground (m : mask) (p q : pixel) :
  connected8 m p q -> foreground m p /\ foreground m q.
Proof. induction 1; tauto. Qed.

(** A chain of [m] whose pixels are all foreground in [m'] is a chain
    of [m']. *)
Lemma connected8_transfer (m m' : mask) (p q : pixel) :
  connected8 m p q ->
  (forall r, connected8 m p r -> foreground m' r) ->
  connected8 m' p q.
Proof.
  intros H Hall. induction H as [p Hp | p q r Hpq IH Hadj Hr].
  - apply conn_here. apply Hall. apply conn_here. exact Hp.
  - apply conn_step with q; [apply IH; exact Hall | exact Hadj |].
    apply Hall. apply conn_step with q; assumption.
Qed.

Lemma nth_make_lut (n : nat) (valid : list bool) (l : nat) :
  nth l (make_lut n valid) 0 =
  if ((l <? n)%nat && nth l valid false)%bool then 255 else 0.
Proof.
  unfold make_lut. destruct (Nat.ltb_spec l n) as [Hl | Hl]; cbn [andb].
  - apply nth_error_nth. rewrite nth_error_map, nth_error_seq.
    destruct (Nat.ltb_spec l n); [reflexivity | lia].
  - apply nth_overflow. rewrite length_map, length_seq. exact Hl.
Qed.

Lemma nth_clear_first (valid : list bool) (l : nat) :
  nth l (clear_first valid) false =
  if Nat.eqb l 0 then false else nth l valid false.
Proof. destruct valid, l; reflexivity. Qed.

Lemma nth_valid (min_size : Z) (areas : list Z) (l : nat) :
  nth l (map (fun a => min_size <=? a) areas) false = true ->
  min_size <= nth l areas 0.
Proof.
  revert l. induction areas as [|a t IH]; intros [|l]; cbn; try discriminate.
  - apply Z.leb_le.
  - apply IH.
Qed.

Section Filter.
Context {cv : OpenCV}.
Variables (m : mask) (min_size : Z).
Hypothesis Hpos : 0 < min_size.

Local Abbreviation r := (connectedComponentsWithStats m).
Local Abbreviation lut :=
  (make_lut (cc_n r)
            (clear_first (map (fun a => min_size <=? a) (cc_area r)))).

Lemma filter_unfold :
  filter_small_blobs m min_size = map (map (fun l => nth l lut 0)) (cc_labels r).
Proof.
  unfold filter_small_blobs.
  destruct (Z.leb_spec min_size 0); [lia | reflexivity].
Qed.

Lemma lut_cases (l : nat) :
  (nth l lut 0 = 255 /\ l <> O /\ (l < cc_n r)%nat /\
   min_size <= nth l (cc_area r) 0) \/ nth l lut 0 = 0.
Proof.
  rewrite nth_make_lut, nth_clear_first.
  destruct (Nat.ltb_spec l (cc_n r)); cbn [andb]; [| right; reflexivity].
  destruct (Nat.eqb_spec l 0); [right; reflexivity |].
  destruct (nth l (map _ (cc_area r)) false) eqn:E; [| right; reflexivity].
  left. repeat split; auto. apply nth_valid. exact E.
Qed.

Lemma filter_value (p : pixel) :
  value_at (filter_small_blobs m min_size) p =
  option_map (fun l => nth l lut 0) (at2 (cc_labels r) (fst p) (snd p)).
Proof. unfold value_at. rewrite filter_unfold. apply at2_map. Qed.

End Filter.

Section Kept.
Context {cv : OpenCV}.
Variables (m : mask) (min_size : Z).
Hypothesis Hpos : 0 < min_size.
Hypothesis Hcc : cc_correct m (connectedComponentsWithStats m).

Local Abbreviation r := (connectedComponentsWithStats m).
Local Abbreviation out := (filter_small_blobs m min_size).

(** A foreground pixel of the output carries a label that is not the
    background, whose area reaches the threshold. *)
Lemma out_foreground_label (p : pixel) :
  foreground out p ->
  exists l, at2 (cc_labels r) (fst p) (snd p) = Some l /\ l <> O /\
            (l < cc_n r)%nat /\ min_size <= nth l (cc_area r) 0 /\
            value_at out p = Some 255.
Proof.
  intros (v & Hv & Hnz).
  rewrite (filter_value m min_size Hpos) in *.
  destruct (at2 (cc_labels r) (fst p) (snd p)) as [l|]; [| discriminate].
  cbn in Hv. injection Hv as Hv. exists l.
  destruct (lut_cases m min_size l) as [(E & H1 & H2 & H3) | E];
    [| congruence].
  cbn. rewrite E. repeat split; auto.
Qed.

Lemma labelled_foreground (p : pixel) (l : nat) :
  at2 (cc_labels r) (fst p) (snd p) = Some l -> l <> O -> foreground m p.
Proof.
  intros Hl Hnz. unfold foreground, value_at.
  destruct (at2 m (fst p) (snd p)) as [v|] eqn:Ev.
  - exists v. split; [reflexivity |].
    intros ->. apply Hnz.
    apply (cc_background _ _ Hcc p l 0 Hl Ev). reflexivity.
  - apply (same_shape_at2 _ _ (fst p) (snd p) (cc_shape _ _ Hcc)) in Ev.
    congruence.
Qed.

Lemma foreground_labelled (p : pixel) :
  foreground m p -> exists l, at2 (cc_labels r) (fst p) (snd p) = Some l.
Proof.
  intros (v & Hv & _). unfold value_at in Hv.
  destruct (at2 (cc_labels r) (fst p) (snd p)) as [l|] eqn:El;
    [exists l; reflexivity |].
  apply (same_shape_at2 _ _ (fst p) (snd p) (cc_shape _ _ Hcc)) in El.
  congruence.
Qed.

(** Every pixel that shares the label of a kept pixel is kept. *)
Lemma same_label_kept (p q : pixel) (l : nat) :
  foreground out p ->
  at2 (cc_labels r) (fst p) (snd p) = Some l ->
  at2 (cc_labels r) (fst q) (snd q) = Some l ->
  foreground out q.
Proof.
  intros Hp Hlp Hlq.
  destruct (out_foreground_label p Hp) as (l' & Hl' & _ & _ & _ & Hv).
  assert (l' = l) by congruence. subst l'.
  exists 255. split; [| lia].
  rewrite (filter_value m min_size Hpos) in *.
  rewrite Hlp in Hv. rewrite Hlq. exact Hv.
Qed.

Lemma kept_component (p : pixel) :
  foreground out p -> component_area_at_least out p min_size.
Proof.
  intros Hp.
  destruct (out_foreground_label p Hp) as (l & Hl & Hnz & Hn & Harea & _).
  exists (pixels_labelled (cc_labels r) l). repeat split.
  - apply NoDup_filter, NoDup_all_pixels.
  - apply Forall_forall. intros q Hq.
    apply filter_In in Hq. destruct Hq as [_ Hq].
    unfold has_label in Hq.
    destruct (at2 (cc_labels r) (fst q) (snd q)) as [lq|] eqn:Elq;
      [| discriminate].
    apply Nat.eqb_eq in Hq. subst lq.
    pose proof (labelled_foreground p l Hl Hnz) as Fp.
    pose proof (labelled_foreground q l Elq Hnz) as Fq.
    apply connected8_transfer with m.
    + apply (cc_same _ _ Hcc p q l l Fp Fq Hl Elq). reflexivity.
    + intros x Hx.
      destruct (connected8_foreground _ _ _ Hx) as [_ Fx].
      destruct (foreground_labelled x Fx) as (lx & Elx).
      assert (l = lx) by (apply (cc_same _ _ Hcc p x l lx Fp Fx Hl Elx); exact Hx).
      subst lx. exact (same_label_kept p x l Hp Hl Elx).
  - rewrite <- (cc_area_count _ _ Hcc l Hn). exact Harea.
Qed.

End Kept.

(** C8. For every threshold [>= 0], every 8-connected component of the
    output of the area filter has at least [min_size] pixels: no
    surviving component is smaller than the threshold. *)
Theorem filter_small_blobs_no_small_component
        {cv : OpenCV} (m : mask) (min_size : Z) (p : pixel) :
  0 <= min_size ->
  cc_correct m (connectedComponentsWithStats m) ->
  foreground (filter_small_blobs m min_size) p ->
  component_area_at_least (filter_small_blobs m min_size) p min_size.
Proof.
  intros Hmin Hcc Hp.
  destruct (Z.eq_dec min_size 0) as [-> | Hne].
  - exists [p]. repeat split.
    + constructor; [intros [] | constructor].
    + constructor; [apply conn_here; exact Hp | constructor].
    + cbn. lia.
  - apply kept_component; [lia | exact Hcc | exact Hp].
Qed.

(** C10. The area filter never adds pixels and keeps a binary mask
    binary: a nonzero output pixel is a nonzero input pixel, every
    output value is 0 or 255, and for [min_size <= 0] the mask is
    returned as it is. *)
Theorem filter_small_blobs_shrinks_binary
        {cv : OpenCV} (m : mask) (min_size : Z) :
  binary m ->
  cc_correct m (connectedComponentsWithStats m) ->
  (forall p, foreground (filter_small_blobs m min_size) p -> foreground m p) /\
  binary (filter_small_blobs m min_size) /\
  (min_size <= 0 -> filter_small_blobs m min_size = m).
Proof.
  intros Hbin Hcc.
  destruct (Z.leb_spec min_size 0) as [Hle | Hgt].
  - assert (E : filter_small_blobs m min_size = m).
    { unfold filter_small_blobs. destruct (Z.leb_spec min_size 0); [reflexivity | lia]. }
    rewrite E. auto.
  - repeat split.
    + intros p Hp.
      destruct (out_foreground_label m min_size Hgt p Hp) as (l & Hl & Hnz & _).
      exact (labelled_foreground m Hcc p l Hl Hnz).
    + rewrite (filter_unfold m min_size Hgt). unfold binary.
      apply Forall_map. apply Forall_forall. intros row _.
      apply Forall_map. apply Forall_forall. intros l _.
      destruct (lut_cases m min_size l) as [(E & _) | E]; auto.
    + lia.
Qed.

End BlobFacts.

Module CleanupFacts.

(** C5, as stated, fails: with the 3x3 elliptical kernel and a ring of
    uncovered pixels, the orphan clean-up differs from the layer
    clean-up of the same mask. *)
Lemma orphan_cleanup_is_not_layer_cleanup :
  clean_orphan_mask (cv := Reference.cv) (Some Reference.ellipse3) 0
                    Samples.ring_coverage
  <> clean_layer_mask (cv := Reference.cv) (Some Reference.ellipse3) 0
                      (cv_bitwise_not Samples.ring_coverage).
Proof. vm_compute. discriminate. Qed.

(** C5, amended.  Layer masks are closed then opened; the orphan mask
    (the complement of the coverage) is opened then closed, with the
    same kernel and the same area filter; without a kernel both
    clean-ups are the area filter alone and agree. *)
Theorem orphan_cleanup_reverses_layer_cleanup
        {cv : OpenCV} (kernel : option mask) (min_blob : Z)
        (layer_mask coverage : mask) :
  clean_layer_mask kernel min_blob layer_mask
    = cleanup_with [MORPH_CLOSE; MORPH_OPEN] kernel min_blob layer_mask /\
  clean_orphan_mask kernel min_blob coverage
    = cleanup_with (rev [MORPH_CLOSE; MORPH_OPEN]) kernel min_blob
                   (cv_bitwise_not coverage) /\
  clean_orphan_mask None min_blob coverage
    = clean_layer_mask None min_blob (cv_bitwise_not coverage).
Proof.
  unfold clean_layer_mask, clean_orphan_mask, cleanup_with, morph_sequence.
  destruct kernel; cbn; repeat split; reflexivity.
Qed.

End CleanupFacts.

Module BlobWitness.
Import Samples BlobFacts.

Ltac pixel_cases p :=
  let y := fresh "y" in
  let x := fresh "x" in
  destruct p as [y x];
  destruct y as [|y];
  [ destruct x as [|[|[|[|x]]]] | destruct y ].

Lemma two_blobs_foreground (p : pixel) :
  foreground two_blobs p ->
  p = (0, 0)%nat \/ p = (0, 2)%nat \/ p = (0, 3)%nat.
Proof.
  intros (v & Hv & Hnz).
  pixel_cases p; cbn in Hv; try discriminate; auto.
  - injection Hv as <-. congruence.
  - destruct x; cbn in Hv; discriminate.
Qed.

Lemma two_blobs_left (p q : pixel) :
  connected8 two_blobs p q -> p = (0, 0)%nat -> q = (0, 0)%nat.
Proof.
  induction 1 as [|p q r _ IH Hadj Hr]; auto.
  intros Ep. specialize (IH Ep). subst p q.
  destruct Hadj as [_ [H1 H2]].
  destruct (two_blobs_foreground _ Hr) as [-> | [-> | ->]];
    cbn in H1, H2; auto; lia.
Qed.

Lemma two_blobs_right (p q : pixel) :
  connected8 two_blobs p q -> p <> (0, 0)%nat -> q <> (0, 0)%nat.
Proof.
  induction 1 as [|p q r Hpq IH Hadj Hr]; auto.
  intros Hp. specialize (IH Hp).
  destruct Hadj as [_ [H1 H2]].
  destruct (connected8_foreground _ _ _ Hpq) as [_ Hq].
  destruct (two_blobs_foreground _ Hr) as [-> | [-> | ->]]; try discriminate.
  destruct (two_blobs_foreground _ Hq) as [-> | [-> | ->]];
    cbn in H1, H2; try lia; congruence.
Qed.

Lemma two_blobs_fg2 : foreground two_blobs (0, 2)%nat.
Proof. exists 255. split; [reflexivity | lia]. Qed.

Lemma two_blobs_fg3 : foreground two_blobs (0, 3)%nat.
Proof. exists 255. split; [reflexivity | lia]. Qed.

Lemma two_blobs_pair (p q : pixel) :
  p = (0, 2)%nat \/ p = (0, 3)%nat ->
  q = (0, 2)%nat \/ q = (0, 3)%nat ->
  connected8 two_blobs p q.
Proof.
  assert (A : adj8 (0, 2)%nat (0, 3)%nat) by (unfold adj8, near; cbn; lia).
  assert (B : adj8 (0, 3)%nat (0, 2)%nat) by (unfold adj8, near; cbn; lia).
  intros [-> | ->] [-> | ->].
  - apply conn_here, two_blobs_fg2.
  - eapply conn_step; [apply conn_here, two_blobs_fg2 | exact A | apply two_blobs_fg3].
  - eapply conn_step; [apply conn_here, two_blobs_fg3 | exact B | apply two_blobs_fg2].
  - apply conn_here, two_blobs_fg3.
Qed.

Lemma two_blobs_labelling :
  cc_correct two_blobs (connectedComponentsWithStats (OpenCV := Reference.cv) two_blobs).
Proof.
  change (cc_correct two_blobs
            (mk_cc 3 [[1; 0; 2; 2]]%nat [1; 1; 2])).
  constructor; cbn [cc_n cc_labels cc_area].
  - reflexivity.
  - intros p l H. pixel_cases p; cbn in H; try discriminate;
      try (injection H as <-; lia). destruct x; cbn in H; discriminate.
  - intros p l v Hl Hv. unfold value_at in Hv.
    pixel_cases p; cbn in Hl, Hv; try discriminate;
      try (injection Hl as <-; injection Hv as <-; split; intros; lia || congruence).
    destruct x; cbn in Hl; discriminate.
  - intros p q lp lq Hp Hq Hlp Hlq.
    destruct (two_blobs_foreground _ Hp) as [-> | Ep].
    + destruct (two_blobs_foreground _ Hq) as [-> | Eq].
      * cbn in Hlp, Hlq. split; [intros _; apply conn_here; exact Hp | congruence].
      * split.
        -- destruct Eq as [-> | ->]; cbn in Hlp, Hlq; congruence.
        -- intros C. apply two_blobs_left in C; [| reflexivity].
           destruct Eq as [-> | ->]; discriminate.
    + destruct (two_blobs_foreground _ Hq) as [-> | Eq].
      * split.
        -- destruct Ep as [-> | ->]; cbn in Hlp, Hlq; congruence.
        -- intros C. apply two_blobs_right in C; [congruence |].
           destruct Ep as [-> | ->]; discriminate.
      * split; [intros _; apply two_blobs_pair; assumption |].
        intros _. destruct Ep as [-> | ->], Eq as [-> | ->];
          cbn in Hlp, Hlq; congruence.
  - reflexivity.
  - intros l Hl. destruct l as [|[|[|l]]]; [reflexivity .. | lia].
Qed.

Lemma filter_small_blobs_no_small_component_witness :
  component_area_at_least
    (filter_small_blobs (cv := Reference.cv) two_blobs 2) (0, 2)%nat 2.
Proof.
  apply (filter_small_blobs_no_small_component (cv := Reference.cv)
           two_blobs 2 (0, 2)%nat).
  - lia.
  - exact two_blobs_labelling.
  - exists 255. split; [reflexivity | lia].
Defined.

Lemma filter_small_blobs_shrinks_binary_witness :
  (forall p, foreground (filter_small_blobs (cv := Reference.cv) two_blobs 2) p ->
             foreground two_blobs p) /\
  binary (filter_small_blobs (cv := Reference.cv) two_blobs 2) /\
  (2 <= 0 -> filter_small_blobs (cv := Reference.cv) two_blobs 2 = two_blobs).
Proof.
  apply (filter_small_blobs_shrinks_binary (cv := Reference.cv) two_blobs 2).
  - unfold binary, two_blobs.
    repeat first [apply Forall_nil | apply Forall_cons]; auto.
  - exact two_blobs_labelling.
Defined.


End BlobWitness.

Module BridgeFacts.
Import Kernels.

Section Bridger.
Context {F : Type} {fl : Float64 F} {sh : Shapely F}.
Variable bridge_width : F.

Local Abbreviation st_t := (world (artifact (F := F))).

Variable same : ring F -> ring F -> Prop.
Hypothesis same_refl : forall r, same r r.
Hypothesis same_trans : forall a b c, same a b -> same b c -> same a c.

Lemma last_step {A : Type} (l : list A) :
  forall a d, last (a :: l) d = last l a.
Proof.
  induction l as [|b l IH]; intros a d; [reflexivity |].
  change (last (b :: l) d = last (b :: l) a). rewrite !IH. reflexivity.
Qed.

Lemma bridge_holes_clean (st : st_t) :
  forall (holes : list (ring F)) (cuts : list (geometry F)) (g : geometry F),
    clean_cuts same bridge_width st g holes cuts ->
    bridge_holes bridge_width g holes st = (Returns (last cuts g), st).
Proof.
  induction holes as [|h rest IH]; intros [|cut cuts] g H;
    cbn [clean_cuts] in H; try contradiction.
  - reflexivity.
  - destruct H as (Hstep & _ & Hrest).
    cbn [bridge_holes]. unfold bind at 1. rewrite Hstep.
    rewrite (IH cuts cut Hrest), last_step. reflexivity.
Qed.

(** Every hole of [g] is one of [holes]. *)
Local Abbreviation among :=
  (fun (g : geometry F) (holes : list (ring F)) =>
     forall r, In r (holes_in g) -> exists h, In h holes /\ same r h).

Lemma cuts_use_up_holes (st : st_t) :
  forall (holes : list (ring F)) (cuts : list (geometry F)) (g : geometry F),
    among g holes ->
    clean_cuts same bridge_width st g holes cuts ->
    among (last cuts g) [].
Proof.
  induction holes as [|h rest IH]; intros [|cut cuts] g Hin H;
    cbn [clean_cuts] in H; try contradiction.
  - exact Hin.
  - destruct H as (_ & Hopen & Hrest). rewrite last_step.
    apply (IH cuts cut); [| exact Hrest].
    intros r Hr. destruct (Hopen r Hr) as (Hnot & r' & Hr' & Hsame).
    destruct (Hin r' Hr') as (h0 & [<- | Hh0] & Hs0).
    + exfalso. apply Hnot. exact (same_trans _ _ _ Hsame Hs0).
    + exists h0. split; [exact Hh0 | exact (same_trans _ _ _ Hsame Hs0)].
Qed.

Lemma pieces_no_holes (g : geometry F) :
  among g [] -> Forall (fun q => holes_of q = []) (pieces g).
Proof.
  intros H. apply Forall_forall. intros q Hq.
  destruct (holes_of q) as [|r t] eqn:E; [reflexivity |]. exfalso.
  destruct (H r) as (h & [] & _).
  unfold holes_in. apply in_flat_map. exists q.
  split; [exact Hq | rewrite E; left; reflexivity].
Qed.

Lemma polygon_holes_among (p : polygon F) :
  among (Polygon p) (interiors p).
Proof.
  intros r Hr. unfold holes_in in Hr. cbn in Hr. rewrite app_nil_r in Hr.
  exists r. split; [exact Hr | apply same_refl].
Qed.

End Bridger.

(** C1, as stated, fails for the nearest-point search: when it raises
    for the hole of the first layer, the export ends with an error
    dialog and the second layer, which exports well on its own, is
    never written. *)
Lemma nearest_point_failure_aborts_export :
  let run masks centers :=
    snd (export_3d_thread (sh := Kernels.nearest_raises)
           (ct := Kernels.contours) (sk := Kernels.sinks)
           Kernels.stencil_cfg 5 5 centers masks empty_world) in
  written (run [Kernels.ring_mask; Kernels.square_mask]
               [(0, 0, 255); (255, 0, 0)]) = [] /\
  map fst (dialogs (run [Kernels.ring_mask; Kernels.square_mask]
                        [(0, 0, 255); (255, 0, 0)])) = ["Export Error"%string] /\
  map (fun f => fn_index (fst f))
      (written (run [Kernels.square_mask] [(255, 0, 0)])) = [1%nat].
Proof. vm_compute. repeat split; reflexivity. Qed.

(** C1, amended.  When the boolean difference raises for a hole, the
    failure is printed, the working polygon keeps that hole, and the
    bridger goes on with the remaining holes exactly as it would have
    from the unchanged polygon; whatever follows (the other polygons
    and layers) runs as usual. *)
Theorem difference_failure_leaves_hole_and_continues
        {F : Type} {fl : Float64 F} {sh : Shapely F}
        (bridge_width : F) (temp_poly : geometry F)
        (interior : ring F) (rest : list (ring F))
        (ext : ring F) (pq : point F * point F) (bridge_shape : geometry F)
        (e : exn) (st : world (artifact (F := F))) :
  get_exterior temp_poly = Ok ext ->
  nearest_points ext interior = Ok pq ->
  buffer (LineString [fst pq; snd pq])
         (fdiv bridge_width (of_int 2)) = Ok bridge_shape ->
  difference temp_poly bridge_shape = Raise e ->
  bridge_holes bridge_width temp_poly (interior :: rest) st
  = bridge_holes bridge_width temp_poly rest (add_log [bridge_message e] st).
Proof.
  intros He Hn Hb Hd. cbn [bridge_holes].
  unfold bind at 1. unfold bridge_hole, bind, lift.
  rewrite He, Hn, Hb, Hd. reflexivity.
Qed.

Lemma difference_failure_leaves_hole_and_continues_witness :
  bridge_holes (sh := Kernels.difference_raises) 2%Q
               (Polygon Kernels.ring_polygon)
               (interiors Kernels.ring_polygon) empty_world
  = bridge_holes (sh := Kernels.difference_raises) 2%Q
                 (Polygon Kernels.ring_polygon) []
                 (add_log [bridge_message (GEOSException "TopologyException")]
                          empty_world).
Proof.
  apply (difference_failure_leaves_hole_and_continues
           (sh := Kernels.difference_raises) 2%Q
           (Polygon Kernels.ring_polygon)
           [(4, 8); (2, 6); (4, 4); (6, 6)]%Q []
           (exterior Kernels.ring_polygon)
           ((2, 8)%Q, (4, 8)%Q)
           (Polygon (mk_polygon [(2, 8); (4, 8)]%Q []))
           (GEOSException "TopologyException") empty_world);
    reflexivity.
Defined.




End BridgeFacts.

Module ExportFacts.
Import Kernels.

Section Meshes.
Context {F : Type} {fl : Float64 F}.

Lemma mesh_add_new (m : Trimesh F) : mesh_add Trimesh_new m = m.
Proof.
  destruct m as [vs fs]. unfold mesh_add, Trimesh_new. cbn. f_equal.
  induction fs as [|[[a b] c] fs IH]; cbn; [reflexivity |].
  rewrite !Nat.add_0_r, IH. reflexivity.
Qed.

End Meshes.

Section Layers.
Context {F : Type} {fl : Float64 F}.
Context {sh : Shapely F} {ct : Contours F} {sk : Sinks F}.
Variables (cfg : export_config (F := F)) (orig_w orig_h : Z).
Variable masks : list mask.

Local Abbreviation st_t := (world (artifact (F := F))).
Local Abbreviation body :=
  (fun ic : nat * color =>
     export_3d_layer cfg orig_w orig_h masks (fst ic) (snd ic)).

Hypothesis Hsink : forall m name, mesh_export m name = Ok tt.

(** One layer whose mesh is computed without an exception: the file
    is written unless the mesh is empty, and only the lines of the
    mesh computation are printed. *)
Lemma export_3d_layer_returns (i : nat) (bgr : color)
      (r : Trimesh F * list string) (st : st_t) :
  layer_mesh cfg orig_w orig_h masks i st = (Returns (fst r), add_log (snd r) st) ->
  export_3d_layer cfg orig_w orig_h masks i bgr st
  = (Returns tt,
     mk_world _ (stdout st ++ snd r)
              (written st ++ files_of (is_stencil cfg) i [bgr] [r])
              (dialogs st)).
Proof.
  intros H. unfold export_3d_layer, bind at 1. rewrite H.
  cbn [files_of]. destruct (mesh_is_empty (fst r)).
  - unfold ret, add_log. cbn. rewrite ?app_nil_r. reflexivity.
  - unfold bind, lift. rewrite Hsink. unfold write_file, add_log. cbn.
    rewrite ?app_nil_r. reflexivity.
Qed.

Lemma for_each_layers_return :
  forall (centers : list color) (runs : list (Trimesh F * list string))
         (k : nat) (st : st_t),
    length runs = length centers ->
    (forall j r, nth_error runs j = Some r ->
                 forall st', layer_mesh cfg orig_w orig_h masks (k + j) st'
                             = (Returns (fst r), add_log (snd r) st')) ->
    for_each body (combine (seq k (length centers)) centers) st
    = (Returns tt,
       mk_world _ (stdout st ++ concat (map snd runs))
                (written st ++ files_of (is_stencil cfg) k centers runs)
                (dialogs st)).
Proof.
  induction centers as [|bgr centers IH]; intros runs k st Hlen H.
  - destruct runs; [| discriminate]. cbn. rewrite !app_nil_r.
    destruct st; reflexivity.
  - destruct runs as [|r runs]; [discriminate |].
    cbn [length seq combine for_each]. unfold bind at 1.
    cbn [fst snd].
    rewrite (export_3d_layer_returns k bgr r st).
    + rewrite (IH runs (S k)).
      * cbn [stdout written dialogs files_of map concat].
        rewrite <- !app_assoc. reflexivity.
      * cbn in Hlen. lia.
      * intros j r' Hj st'. replace (S k + j)%nat with (k + S j)%nat by lia.
        apply H. exact Hj.
    + specialize (H O r eq_refl st). rewrite Nat.add_0_r in H. exact H.
Qed.

End Layers.

(** C2, as stated, fails twice.  In relief mode without a border a
    blank first layer is skipped while nothing at all is printed (the
    second layer is written); and when the extrusion raises on the
    first layer the export ends there, the second layer, which exports
    well on its own, is never written. *)
Lemma skipped_layer_is_silent_and_failure_ends_batch :
  let quiet :=
    snd (export_3d_thread (sh := plain) (ct := contours) (sk := sinks)
           relief_cfg 5 5 [(0, 0, 255); (255, 0, 0)]
           [blank_mask; square_mask] empty_world) in
  let run masks centers :=
    snd (export_3d_thread (sh := extrude_raises) (ct := contours) (sk := sinks)
           relief_cfg 5 5 centers masks empty_world) in
  (stdout quiet = [] /\
   map (fun f => fn_index (fst f)) (written quiet) = [2%nat]) /\
  (written (run [ring_mask; square_mask] [(0, 0, 255); (255, 0, 0)]) = [] /\
   map (fun f => fn_index (fst f))
       (written (run [square_mask] [(255, 0, 0)])) = [1%nat]).
Proof. vm_compute. repeat split; reflexivity. Qed.

(** C2, amended.  When the mesh of every layer is computed without an
    exception escaping (and the writer accepts the files), every layer
    is processed in order: a layer whose mesh is empty is skipped
    without any diagnostic of its own, each other layer is written, and
    the export ends with the success message. *)
Theorem export_3d_skips_empty_layers_and_goes_on
        {F : Type} {fl : Float64 F}
        {sh : Shapely F} {ct : Contours F} {sk : Sinks F}
        (cfg : export_config (F := F)) (orig_w orig_h : Z)
        (centers : list color) (masks : list mask)
        (runs : list (Trimesh F * list string))
        (st : world (artifact (F := F))) :
  (forall m name, mesh_export m name = Ok tt) ->
  length runs = length centers ->
  (forall i r, nth_error runs i = Some r ->
               forall st', layer_mesh cfg orig_w orig_h masks i st'
                           = (Returns (fst r), add_log (snd r) st')) ->
  export_3d_thread cfg orig_w orig_h centers masks st
  = (Returns tt,
     mk_world _ (stdout st ++ concat (map snd runs))
              (written st ++ files_of (is_stencil cfg) 0 centers runs)
              (dialogs st ++ [("Success", "Exported 3D models")%string])).
Proof.
  intros Hsink Hlen H.
  unfold export_3d_thread, try_except, bind at 1, enumerate.
  rewrite (for_each_layers_return cfg orig_w orig_h masks Hsink centers runs 0 st Hlen H).
  reflexivity.
Qed.

(** C9.  In stencil mode a layer whose polygon set is empty gives the
    plain bordered plate: the extrusion, to the configured height, of
    the rectangle from [(-border, -border)] to
    [(target_w + border, target_h + border)], nothing subtracted. *)
Theorem stencil_empty_layer_is_plain_plate
        {F : Type} {fl : Float64 F}
        {sh : Shapely F} {ct : Contours F}
        (cfg : export_config (F := F)) (orig_w orig_h : Z)
        (masks : list mask) (i : nat) (m : mask) (solid : Trimesh F)
        (st st' : world (artifact (F := F))) :
  let target_h := fmul (of_int orig_h) (fdiv (target_w cfg) (of_int orig_w)) in
  let plate :=
    Polygon (mk_polygon
               (rectangle (fneg (border_w cfg)) (fneg (border_w cfg))
                          (fadd (target_w cfg) (border_w cfg))
                          (fadd target_h (border_w cfg)))
               []) in
  is_stencil cfg = true ->
  py_index masks (Z.of_nat i) = Ok m ->
  layer_polygons cfg orig_w orig_h m st = (Returns [], st') ->
  is_valid plate = true ->
  is_empty plate = false ->
  extrude_polygon plate (extrusion cfg) = Ok solid ->
  layer_mesh cfg orig_w orig_h masks i st = (Returns solid, st').
Proof.
  intros target_h plate Hs Hm Hp Hv He Hx.
  unfold layer_mesh. unfold bind at 1. unfold lift at 1. rewrite Hm.
  unfold bind at 1. rewrite Hp.
  unfold build_scene_mesh. rewrite Hs.
  unfold bind at 1. cbn [stencil_shape]. unfold ret at 1.
  fold target_h. unfold plate_poly. unfold plate in Hv, He, Hx.
  cbn [pieces extrude_all]. rewrite Hv.
  unfold bind at 1. unfold ret at 1. rewrite He.
  unfold bind at 1. unfold lift at 1. rewrite Hx.
  cbn [extrude_all]. rewrite mesh_add_new. reflexivity.
Qed.

End ExportFacts.

Module ExportWitness.
Import Kernels Solids ExportFacts.

Lemma plain_relief_runs (i : nat) (r : Trimesh Q * list string) :
  nth_error [(Trimesh_new, []); (square_solid, [])] i = Some r ->
  forall st', layer_mesh (sh := plain) (ct := contours) relief_cfg 5 5
                         [blank_mask; square_mask] i st'
              = (Returns (fst r), add_log (snd r) st').
Proof.
  intros Hi st'. destruct st' as [so wr dl].
  destruct i as [|[|i]]; cbn in Hi.
  - injection Hi as <-. unfold add_log. cbn [stdout written dialogs fst snd].
    rewrite app_nil_r. vm_compute. reflexivity.
  - injection Hi as <-. unfold add_log. cbn [stdout written dialogs fst snd].
    rewrite app_nil_r. vm_compute. reflexivity.
  - destruct i; discriminate.
Qed.

Lemma export_3d_skips_empty_layers_and_goes_on_witness :
  export_3d_thread (sh := plain) (ct := contours) (sk := sinks)
                   relief_cfg 5 5 [(0, 0, 255); (255, 0, 0)]
                   [blank_mask; square_mask] empty_world
  = (Returns tt,
     mk_world _ []
              [(mk_file_name 2 (255, 0, 0) false, StlMesh square_solid)]
              [("Success", "Exported 3D models")%string]).
Proof.
  apply (export_3d_skips_empty_layers_and_goes_on
           (sh := plain) (ct := contours) (sk := sinks)
           relief_cfg 5 5 [(0, 0, 255); (255, 0, 0)]
           [blank_mask; square_mask]
           [(Trimesh_new, []); (square_solid, [])] empty_world).
  - reflexivity.
  - reflexivity.
  - exact plain_relief_runs.
Defined.

Lemma stencil_empty_layer_is_plain_plate_witness :
  layer_mesh (sh := plain) (ct := contours) stencil_cfg 5 5 [blank_mask] 0
             empty_world
  = (Returns plate_solid, empty_world).
Proof.
  apply (stencil_empty_layer_is_plain_plate
           (sh := plain) (ct := contours) stencil_cfg 5 5 [blank_mask] 0
           blank_mask plate_solid empty_world empty_world);
    reflexivity.
Defined.

(** C6: the code on a layer whose mask has a hole.  The 2D export
    writes the outer ring alone, filled with the layer colour; the hole
    ring is not in the drawing, although the 3D export traces the same
    mask to a polygon with that hole. *)
Theorem export_2d_drops_hole_ring :
  written (snd (export_2d_thread (ct := contours) (sk := sinks)
                  (1 # 10000)%Q 5 5 [(0, 0, 255)] [ring_mask] empty_world))
  = [(mk_file_name 1 (0, 0, 255) false,
      SvgDrawing 5 5 [mk_path outer_square "#ff0000"])] /\
  (exists p,
      fst (polygons_of_mask (sh := plain) (ct := contours) ring_mask
             (1 # 10000)%Q (10 / 5)%Q (5 * (10 / 5))%Q
             (empty_world (artifact := artifact)))
      = Returns [Polygon p] /\
      interiors p = [scale_flip (10 / 5)%Q (5 * (10 / 5))%Q inner_hole]).
Proof.
  split; [vm_compute; reflexivity |].
  eexists. split; vm_compute; reflexivity.
Qed.

End ExportWitness.

Module BridgeEdgeFacts.
Import Kernels SplitKernel.

Section Loop.
Context {F : Type} {fl : Float64 F} {sh : Shapely F}.
Variable bridge_width : F.

Local Abbreviation st_t := (world (artifact (F := F))).

Local Abbreviation hole_free :=
  (fun g : geometry F => is_valid g = true /\ get_interiors g = Ok []).

Lemma bridge_polygon_hole_free (g : geometry F) (st : st_t) :
  hole_free g -> bridge_polygon bridge_width g st = (Returns [g], st).
Proof.
  intros [Hv Hi]. unfold bridge_polygon. rewrite Hv.
  unfold bind, ret, lift. rewrite Hi. reflexivity.
Qed.

Lemma bridge_loop_hole_free (st : st_t) :
  forall (polys acc : list (geometry F)),
    Forall hole_free polys ->
    bridge_loop bridge_width polys acc st = (Returns (acc ++ polys), st).
Proof.
  induction polys as [|g polys IH]; intros acc H; cbn [bridge_loop].
  - rewrite app_nil_r. reflexivity.
  - inversion H as [|? ? Hg Hrest]; subst.
    unfold bind at 1. rewrite (bridge_polygon_hole_free g st Hg).
    rewrite (IH (acc ++ [g]) Hrest), <- app_assoc. reflexivity.
Qed.

Lemma bridge_loop_app (st : st_t) :
  forall (pre rest acc : list (geometry F)),
    Forall hole_free pre ->
    bridge_loop bridge_width (pre ++ rest) acc st
    = bridge_loop bridge_width rest (acc ++ pre) st.
Proof.
  induction pre as [|g pre IH]; intros rest acc H; cbn [app bridge_loop].
  - rewrite app_nil_r. reflexivity.
  - inversion H as [|? ? Hg Hrest]; subst.
    unfold bind at 1. rewrite (bridge_polygon_hole_free g st Hg).
    rewrite (IH rest (acc ++ [g]) Hrest), <- app_assoc. reflexivity.
Qed.

End Loop.

(** X1.  Valid polygons without holes pass through the bridger
    unchanged and in order; nothing is printed. *)
Theorem bridger_keeps_hole_free_polygons
        {F : Type} {fl : Float64 F} {sh : Shapely F}
        (polys : list (geometry F)) (bridge_width : F)
        (st : world (artifact (F := F))) :
  Forall (fun g => is_valid g = true /\ get_interiors g = Ok []) polys ->
  apply_stencil_bridges polys bridge_width st = (Returns polys, st).
Proof.
  intros H. unfold apply_stencil_bridges.
  exact (bridge_loop_hole_free bridge_width st polys [] H).
Qed.

Lemma bridger_keeps_hole_free_polygons_witness :
  apply_stencil_bridges (sh := plain)
    [Polygon (mk_polygon [(0, 0); (1, 0); (1, 1)]%Q []);
     Polygon (mk_polygon [(2, 2); (3, 2); (3, 3)]%Q [])] 2%Q empty_world
  = (Returns [Polygon (mk_polygon [(0, 0); (1, 0); (1, 1)]%Q []);
              Polygon (mk_polygon [(2, 2); (3, 2); (3, 3)]%Q [])],
     empty_world).
Proof.
  apply (bridger_keeps_hole_free_polygons (sh := plain)).
  repeat constructor.
Defined.

(** X2.  A multi-part geometry among the input polygons (what
    [buffer(0)] gives for a self-crossing outline) makes the bridger
    raise [AttributeError] at [poly.interiors]: the polygons after it are
    not bridged and nothing is returned. *)
Theorem bridger_raises_on_multipolygon
        {F : Type} {fl : Float64 F} {sh : Shapely F}
        (pre rest : list (geometry F)) (geoms : list (polygon F))
        (bridge_width : F) (st : world (artifact (F := F))) :
  Forall (fun g => is_valid g = true /\ get_interiors g = Ok []) pre ->
  is_valid (MultiPolygon geoms) = true ->
  apply_stencil_bridges (pre ++ MultiPolygon geoms :: rest) bridge_width st
  = (Raises (AttributeError "MultiPolygon object has no attribute interiors"),
     st).
Proof.
  intros Hpre Hv. unfold apply_stencil_bridges.
  rewrite (bridge_loop_app bridge_width st pre _ [] Hpre).
  cbn [bridge_loop]. unfold bind at 1. unfold bridge_polygon. rewrite Hv.
  reflexivity.
Qed.

Lemma bridger_raises_on_multipolygon_witness :
  apply_stencil_bridges (sh := plain)
    ([Polygon (mk_polygon [(0, 0); (1, 0); (1, 1)]%Q [])]
       ++ MultiPolygon [ring_polygon] :: [Polygon ring_polygon])
    2%Q empty_world
  = (Raises (AttributeError "MultiPolygon object has no attribute interiors"),
     empty_world).
Proof.
  apply (bridger_raises_on_multipolygon (sh := plain)).
  - repeat constructor.
  - reflexivity.
Defined.

(** X3.  When cutting the connector of a hole splits the polygon into
    several pieces and another hole is still to come, the next round
    reads [temp_poly.exterior] of a multi-part geometry: the bridger
    raises [AttributeError] and the pieces are lost. *)
Theorem bridger_raises_after_split
        {F : Type} {fl : Float64 F} {sh : Shapely F}
        (p : polygon F) (h1 h2 : ring F) (more : list (ring F))
        (pq : point F * point F) (shape : geometry F)
        (geoms : list (polygon F)) (rest : list (geometry F))
        (bridge_width : F) (st : world (artifact (F := F))) :
  is_valid (Polygon p) = true ->
  interiors p = h1 :: h2 :: more ->
  nearest_points (exterior p) h1 = Ok pq ->
  buffer (LineString [fst pq; snd pq]) (fdiv bridge_width (of_int 2)) = Ok shape ->
  difference (Polygon p) shape = Ok (MultiPolygon geoms) ->
  is_valid (MultiPolygon geoms) = true ->
  apply_stencil_bridges (Polygon p :: rest) bridge_width st
  = (Raises (AttributeError "MultiPolygon object has no attribute exterior"),
     st).
Proof.
  intros Hv Hi Hn Hb Hd Hv2. unfold apply_stencil_bridges.
  cbn [bridge_loop]. unfold bind at 1. unfold bridge_polygon. rewrite Hv.
  unfold bind at 1. unfold ret at 1.
  unfold bind at 1. unfold lift at 1. cbn [get_interiors]. rewrite Hi.
  unfold bind at 1. cbn [bridge_holes].
  unfold bind at 1. unfold bridge_hole.
  unfold bind at 1. unfold lift at 1. cbn [get_exterior].
  unfold bind at 1. unfold lift at 1. rewrite Hn.
  unfold bind at 1. unfold lift at 1. rewrite Hb, Hd, Hv2.
  reflexivity.
Qed.

Lemma bridger_raises_after_split_witness :
  apply_stencil_bridges (sh := splitting)
    [Polygon two_hole_polygon; Polygon ring_polygon] 2%Q empty_world
  = (Raises (AttributeError "MultiPolygon object has no attribute exterior"),
     empty_world).
Proof.
  apply (bridger_raises_after_split (sh := splitting) two_hole_polygon
           [(1, 1); (2, 1); (2, 2)]%Q [(5, 5); (6, 5); (6, 6)]%Q []
           ((0, 0)%Q, (1, 1)%Q)
           (Polygon (mk_polygon [(0, 0); (1, 1)]%Q []))
           [mk_polygon (exterior two_hole_polygon) [];
            mk_polygon (concat (interiors two_hole_polygon)) []]);
    reflexivity.
Defined.

End BridgeEdgeFacts.

Module ExportEdgeFacts.
Import Kernels Solids ExportFacts.

Lemma py_index_nat {A : Type} (l : list A) (k : nat) (a : A) :
  nth_error l k = Some a -> py_index l (Z.of_nat k) = Ok a.
Proof.
  intros H. unfold py_index.
  assert (Hk : (k < length l)%nat) by (apply nth_error_Some; congruence).
  destruct (Z.ltb_spec (Z.of_nat k) 0) as [Hn | _]; [lia |].
  destruct (Z.ltb_spec (Z.of_nat k) 0) as [Hn | _]; [lia |].
  destruct (Z.leb_spec (Z.of_nat (length l)) (Z.of_nat k)) as [Hn | _]; [lia |].
  cbn [orb]. rewrite Nat2Z.id, H. reflexivity.
Qed.

Section Layers3D.
Context {F : Type} {fl : Float64 F}.
Context {sh : Shapely F} {ct : Contours F} {sk : Sinks F}.
Variables (cfg : export_config (F := F)) (orig_w orig_h : Z).
Variable masks : list mask.
Hypothesis Hsink : forall m name, mesh_export m name = Ok tt.

Local Abbreviation st_t := (world (artifact (F := F))).
Local Abbreviation body :=
  (fun ic : nat * color =>
     export_3d_layer cfg orig_w orig_h masks (fst ic) (snd ic)).

Lemma for_each_layers_fail (e : exn) (log : list string) :
  forall (runs : list (Trimesh F * list string)) (centers : list color)
         (k : nat) (st : st_t),
    (length runs < length centers)%nat ->
    (forall j r, nth_error runs j = Some r ->
                 forall st', layer_mesh cfg orig_w orig_h masks (k + j) st'
                             = (Returns (fst r), add_log (snd r) st')) ->
    (forall st', layer_mesh cfg orig_w orig_h masks (k + length runs) st'
                 = (Raises e, add_log log st')) ->
    for_each body (combine (seq k (length centers)) centers) st
    = (Raises e,
       mk_world _ (stdout st ++ concat (map snd runs) ++ log)
                (written st ++ files_of (is_stencil cfg) k centers runs)
                (dialogs st)).
Proof.
  induction runs as [|r runs IH]; intros centers k st Hlen H He.
  - destruct centers as [|bgr centers]; [cbn in Hlen; lia |].
    cbn [length seq combine for_each]. unfold bind at 1.
    unfold export_3d_layer. cbn [fst snd]. unfold bind at 1.
    cbn [length] in He. rewrite Nat.add_0_r in He. rewrite He.
    unfold add_log. cbn. rewrite app_nil_r. reflexivity.
  - destruct centers as [|bgr centers]; [cbn in Hlen; lia |].
    cbn [length seq combine for_each]. unfold bind at 1. cbn [fst snd].
    rewrite (export_3d_layer_returns cfg orig_w orig_h masks Hsink k bgr r st).
    + rewrite (IH centers (S k)).
      * cbn [stdout written dialogs files_of map concat].
        rewrite <- !app_assoc. reflexivity.
      * cbn in Hlen. lia.
      * intros j r' Hj st'. replace (S k + j)%nat with (k + S j)%nat by lia.
        apply H. exact Hj.
      * intros st'. replace (S k + length runs)%nat
          with (k + length (r :: runs))%nat by (cbn; lia). apply He.
    + specialize (H O r eq_refl st). rewrite Nat.add_0_r in H. exact H.
Qed.

End Layers3D.

(** X4.  When the mesh of a layer raises, the 3D export stops there:
    the files of the earlier layers stay written, no later layer is
    written, the exception text is printed and shown in one "Export
    Error" box, and no success message is shown. *)
Theorem export_3d_stops_at_first_failure
        {F : Type} {fl : Float64 F}
        {sh : Shapely F} {ct : Contours F} {sk : Sinks F}
        (cfg : export_config (F := F)) (orig_w orig_h : Z)
        (centers : list color) (masks : list mask)
        (runs : list (Trimesh F * list string))
        (e : exn) (log : list string)
        (st : world (artifact (F := F))) :
  (forall m name, mesh_export m name = Ok tt) ->
  (length runs < length centers)%nat ->
  (forall i r, nth_error runs i = Some r ->
               forall st', layer_mesh cfg orig_w orig_h masks i st'
                           = (Returns (fst r), add_log (snd r) st')) ->
  (forall st', layer_mesh cfg orig_w orig_h masks (length runs) st'
               = (Raises e, add_log log st')) ->
  export_3d_thread cfg orig_w orig_h centers masks st
  = (Returns tt,
     mk_world _ (stdout st ++ concat (map snd runs) ++ log ++ [exn_message e])
              (written st ++ files_of (is_stencil cfg) 0 centers runs)
              (dialogs st ++ [("Export Error"%string, exn_message e)])).
Proof.
  intros Hsink Hlen H He.
  unfold export_3d_thread, try_except, bind at 1, enumerate.
  rewrite (for_each_layers_fail cfg orig_w orig_h masks Hsink e log
             runs centers 0 st Hlen H He).
  unfold bind, print, messagebox. cbn. rewrite <- !app_assoc. reflexivity.
Qed.

Lemma extrude_raises_runs (i : nat) (r : Trimesh Q * list string) :
  nth_error [(square_solid, [])] i = Some r ->
  forall st', layer_mesh (sh := extrude_raises) (ct := contours) relief_cfg 5 5
                         [square_mask; ring_mask; square_mask] i st'
              = (Returns (fst r), add_log (snd r) st').
Proof.
  intros Hi st'. destruct st' as [so wr dl].
  destruct i as [|i]; cbn in Hi.
  - injection Hi as <-. unfold add_log. cbn [stdout written dialogs fst snd].
    rewrite app_nil_r. vm_compute. reflexivity.
  - destruct i; discriminate.
Qed.

Lemma export_3d_stops_at_first_failure_witness :
  export_3d_thread (sh := extrude_raises) (ct := contours) (sk := sinks)
                   relief_cfg 5 5 [(0, 0, 255); (0, 255, 0); (255, 0, 0)]
                   [square_mask; ring_mask; square_mask] empty_world
  = (Returns tt,
     mk_world _ ["triangulation failed"%string]
              [(mk_file_name 1 (0, 0, 255) false, StlMesh square_solid)]
              [("Export Error", "triangulation failed")%string]).
Proof.
  apply (export_3d_stops_at_first_failure
           (sh := extrude_raises) (ct := contours) (sk := sinks)
           relief_cfg 5 5 [(0, 0, 255); (0, 255, 0); (255, 0, 0)]
           [square_mask; ring_mask; square_mask]
           [(square_solid, [])] (ValueError "triangulation failed") []
           empty_world).
  - reflexivity.
  - cbn. lia.
  - exact extrude_raises_runs.
  - intros [so wr dl]. unfold add_log. cbn [stdout written dialogs].
    rewrite app_nil_r. vm_compute. reflexivity.
Defined.

Section Layers2D.
Context {F : Type} {fl : Float64 F} {ct : Contours F} {sk : Sinks F}.
Variables (smooth : F) (width height : Z) (masks : list mask).
Hypothesis Hsave : forall name, svg_save name = Ok tt.

Local Abbreviation st_t := (world (artifact (F := F))).

Lemma drawing_of_at (k : nat) (bgr : color) (m : mask) :
  nth_error masks k = Some m ->
  drawing_of smooth width height masks (k, bgr)
  = (mk_file_name (S k) bgr false,
     SvgDrawing width height
       (paths_of_contours smooth (bgr_to_hex bgr)
          (fst (findContours m RETR_EXTERNAL)))).
Proof.
  intros Em. unfold drawing_of. cbn [fst snd].
  rewrite (nth_error_nth masks k [] Em). reflexivity.
Qed.

Lemma for_each_drawings :
  forall (centers : list color) (k : nat) (st : st_t),
    (k + length centers <= length masks)%nat ->
    for_each (fun ic => export_2d_layer smooth width height masks (fst ic) (snd ic))
             (combine (seq k (length centers)) centers) st
    = (Returns tt,
       mk_world _ (stdout st)
                (written st ++ map (drawing_of smooth width height masks)
                                   (combine (seq k (length centers)) centers))
                (dialogs st)).
Proof.
  induction centers as [|bgr centers IH]; intros k st Hlen.
  - cbn. rewrite app_nil_r. destruct st; reflexivity.
  - cbn [length seq combine for_each map]. unfold bind at 1.
    unfold export_2d_layer. cbn [fst snd].
    destruct (nth_error masks k) as [m|] eqn:Em.
    + unfold bind at 1. unfold lift at 1. rewrite (py_index_nat masks k m Em).
      unfold bind at 1. unfold lift at 1. rewrite Hsave.
      unfold write_file at 1.
      rewrite (IH (S k)) by (cbn in Hlen; lia).
      cbn [stdout written dialogs]. rewrite <- app_assoc. cbn [app].
      rewrite (drawing_of_at k bgr m Em). reflexivity.
    + apply nth_error_None in Em. cbn in Hlen. lia.
Qed.

End Layers2D.

(** X5.  With a mask for every colour, the 2D export writes exactly one
    drawing per layer, in layer order and numbered from 1, each filled
    with the layer colour and holding the simplified external contours of
    its mask; a blank mask still gets its (empty) drawing; nothing is
    printed and the export ends with the success message. *)
Theorem export_2d_writes_one_drawing_per_layer
        {F : Type} {fl : Float64 F} {ct : Contours F} {sk : Sinks F}
        (smooth : F) (width height : Z)
        (centers : list color) (masks : list mask)
        (st : world (artifact (F := F))) :
  (forall name, svg_save name = Ok tt) ->
  (length centers <= length masks)%nat ->
  export_2d_thread smooth width height centers masks st
  = (Returns tt,
     mk_world _ (stdout st)
              (written st ++ map (drawing_of smooth width height masks)
                                 (enumerate centers))
              (dialogs st ++ [("Success", "2D Export Complete")%string])).
Proof.
  intros Hsave Hlen.
  unfold export_2d_thread, try_except, bind at 1, enumerate.
  rewrite (for_each_drawings smooth width height masks Hsave centers 0 st)
    by (cbn; lia).
  reflexivity.
Qed.

Lemma export_2d_writes_one_drawing_per_layer_witness :
  export_2d_thread (ct := contours) (sk := sinks) (1 # 10000)%Q 5 5
                   [(0, 0, 255); (255, 0, 0)] [blank_mask; square_mask]
                   empty_world
  = (Returns tt,
     mk_world _ []
              [(mk_file_name 1 (0, 0, 255) false, SvgDrawing 5 5 []);
               (mk_file_name 2 (255, 0, 0) false,
                SvgDrawing 5 5 [mk_path outer_square "#0000ff"])]
              [("Success", "2D Export Complete")%string]).
Proof.
  apply (export_2d_writes_one_drawing_per_layer
           (ct := contours) (sk := sinks) (1 # 10000)%Q 5 5
           [(0, 0, 255); (255, 0, 0)] [blank_mask; square_mask] empty_world).
  - reflexivity.
  - cbn. lia.
Defined.

End ExportEdgeFacts.

Module OrphanEdgeFacts.
Import OrphanColor.

Lemma u8_sqr_bound (a : Z) : 0 <= u8_sqr a <= 255.
Proof. unfold u8_sqr. pose proof (Z.mod_pos_bound (a * a) 256). lia. Qed.

Lemma dist_u8_bound (c k : color) : 0 <= dist_u8 c k <= 765.
Proof.
  destruct c as [[c0 c1] c2], k as [[k0 k1] k2]. unfold dist_u8.
  pose proof (u8_sqr_bound (u8_sub c0 k0)).
  pose proof (u8_sqr_bound (u8_sub c1 k1)).
  pose proof (u8_sqr_bound (u8_sub c2 k2)). lia.
Qed.

Lemma crowded_rejects (cs : list color) (k : color) :
  cs <> [] -> (length cs < 10)%nat -> accepts cs k = false.
Proof.
  intros Hne Hlen. unfold accepts, threshold.
  destruct (Nat.ltb_spec (length cs) 10) as [_ | H]; [| lia].
  destruct cs as [|c cs]; [congruence |]. cbn [map].
  apply Z.ltb_ge.
  destruct (OrphanColorFacts.list_min_le
              (map (fun c0 => dist_u8 c0 k) cs) (dist_u8 c k)) as [H1 _].
  pose proof (dist_u8_bound c k). lia.
Qed.

Lemma search_all_rejected (rng : nat -> color) (cs : list color) (d : color) :
  (forall k, accepts cs k = false) ->
  forall left attempts, search rng cs left attempts d = d.
Proof.
  intros H. induction left as [|left IH]; intros attempts; cbn [search].
  - reflexivity.
  - rewrite H. apply IH.
Qed.

(** X6.  With one to nine existing layers the colour search never
    accepts a draw: the distances are computed in 8-bit arithmetic and
    cannot exceed 765, below the threshold of 2000, so the orphan layer
    always gets the default green. *)
Theorem orphan_color_is_green_below_ten_layers
        (rng : nat -> color) (final_centers : list color) :
  final_centers <> [] ->
  (length final_centers < 10)%nat ->
  pick rng final_centers = default_green.
Proof.
  intros Hne Hlen. unfold pick.
  apply search_all_rejected. intros k. apply crowded_rejects; assumption.
Qed.

Lemma orphan_color_is_green_below_ten_layers_witness :
  pick (fun _ => (255, 255, 255)) [(0, 0, 0); (10, 20, 30)] = default_green.
Proof.
  apply orphan_color_is_green_below_ten_layers; [discriminate | cbn; lia].
Defined.

(** In auto mode [final_centers] is the numpy array of the clustering,
    which has no [append]: step 4 raises [AttributeError] when the
    orphan mask is not blank. *)
Lemma orphan_step_auto_mode_raises
        {cv : OpenCV} (rng : nat -> color) (kernel : option mask)
        (min_blob : Z) (coverage : mask) (final_masks : list mask)
        (rows : list color) :
  orphan_step rng true kernel min_blob coverage final_masks (NdArray rows)
  = if (0 <? cv_countNonZero (clean_orphan_mask kernel min_blob coverage))%nat
    then Raise (AttributeError "numpy.ndarray object has no attribute append")
    else Ok (final_masks, NdArray rows).
Proof.
  unfold orphan_step.
  destruct (0 <? cv_countNonZero _)%nat; reflexivity.
Qed.

End OrphanEdgeFacts.

Module BlobEdgeFacts.
Import RasterFacts BlobFacts.

Lemma in_pixels_labelled (labels : list (list nat)) (l : nat) (p : pixel) :
  In p (pixels_labelled labels l) <-> at2 labels (fst p) (snd p) = Some l.
Proof.
  unfold pixels_labelled. rewrite filter_In, in_all_pixels. unfold has_label.
  destruct (at2 labels (fst p) (snd p)) as [l'|].
  - split.
    + intros [_ H]. apply Nat.eqb_eq in H. congruence.
    + intros H. injection H as ->. split; [discriminate | apply Nat.eqb_refl].
  - split; [intros [_ H]; discriminate | discriminate].
Qed.

Section Keep.
Context {cv : OpenCV}.
Variables (m : mask) (min_size : Z).
Hypothesis Hpos : 0 < min_size.
Hypothesis Hcc : cc_correct m (connectedComponentsWithStats m).

Local Abbreviation r := (connectedComponentsWithStats m).

(** A label other than the background whose area reaches the threshold
    is kept. *)
Lemma lut_keeps (l : nat) :
  l <> O -> (l < cc_n r)%nat -> min_size <= nth l (cc_area r) 0 ->
  nth l (make_lut (cc_n r)
           (clear_first (map (fun a => min_size <=? a) (cc_area r)))) 0 = 255.
Proof.
  intros Hnz Hn Ha. rewrite nth_make_lut, nth_clear_first.
  destruct (Nat.ltb_spec l (cc_n r)); [| lia].
  destruct (Nat.eqb_spec l 0); [contradiction |]. cbn [andb].
  assert (Hl : (l < length (cc_area r))%nat)
    by (rewrite (cc_area_len _ _ Hcc); exact Hn).
  rewrite (nth_indep _ false ((fun a => min_size <=? a) 0))
    by (rewrite length_map; exact Hl).
  rewrite map_nth.
  destruct (Z.leb_spec min_size (nth l (cc_area r) 0)); [reflexivity | lia].
Qed.

(** The area of the label of [p] is at least the size of any set of
    distinct pixels chained to [p]. *)
Lemma area_bounds_component (p : pixel) (l : nat) (a : Z) :
  at2 (cc_labels r) (fst p) (snd p) = Some l ->
  foreground m p ->
  component_area_at_least m p a ->
  a <= nth l (cc_area r) 0.
Proof.
  intros Hl Fp (ps & Hnd & Hall & Ha).
  assert (Hn : (l < cc_n r)%nat) by exact (cc_range _ _ Hcc p l Hl).
  rewrite (cc_area_count _ _ Hcc l Hn).
  assert (Hincl : incl ps (pixels_labelled (cc_labels r) l)).
  { intros q Hq. apply in_pixels_labelled.
    rewrite Forall_forall in Hall. specialize (Hall q Hq).
    destruct (connected8_foreground _ _ _ Hall) as [_ Fq].
    destruct (foreground_labelled m Hcc q Fq) as (lq & Elq).
    rewrite Elq. f_equal. symmetry.
    apply (cc_same _ _ Hcc p q l lq Fp Fq Hl Elq). exact Hall. }
  pose proof (NoDup_incl_length Hnd Hincl). lia.
Qed.

End Keep.

(** X7.  Filtering twice with the same threshold changes nothing more:
    every pixel of the filtered mask keeps its value when the filter is
    applied again. *)
Theorem filter_small_blobs_idempotent
        {cv : OpenCV} (m : mask) (min_size : Z) (p : pixel) :
  cc_correct m (connectedComponentsWithStats m) ->
  cc_correct (filter_small_blobs m min_size)
             (connectedComponentsWithStats (filter_small_blobs m min_size)) ->
  value_at (filter_small_blobs (filter_small_blobs m min_size) min_size) p
  = value_at (filter_small_blobs m min_size) p.
Proof.
  intros Hcc Hcc'.
  destruct (Z.leb_spec min_size 0) as [Hle | Hgt].
  - assert (E : forall x, filter_small_blobs x min_size = x).
    { intros x. unfold filter_small_blobs.
      destruct (Z.leb_spec min_size 0); [reflexivity | lia]. }
    rewrite !E. reflexivity.
  - set (out := filter_small_blobs m min_size) in *.
    rewrite (filter_value out min_size Hgt p).
    destruct (value_at out p) as [v|] eqn:Ev.
    + assert (Hl : exists l, at2 (cc_labels (connectedComponentsWithStats out))
                                 (fst p) (snd p) = Some l).
      { destruct (at2 (cc_labels (connectedComponentsWithStats out))
                      (fst p) (snd p)) as [l|] eqn:El; [eauto |].
        apply (same_shape_at2 _ _ (fst p) (snd p) (cc_shape _ _ Hcc')) in El.
        unfold value_at in Ev. congruence. }
      destruct Hl as (l & El). rewrite El. cbn [option_map]. f_equal.
      destruct (Z.eq_dec v 0) as [-> | Hnz].
      * assert (l = O) by (apply (cc_background _ _ Hcc' p l 0 El Ev); reflexivity).
        subst l.
        destruct (lut_cases out min_size O) as [(_ & H & _) | H];
          [congruence | exact H].
      * assert (Fp : foreground out p) by (exists v; auto).
        destruct (out_foreground_label m min_size Hgt p Fp)
          as (_ & _ & _ & _ & _ & Hv).
        assert (v = 255) by (unfold out in Ev; congruence). subst v.
        apply lut_keeps; auto.
        -- intros ->. apply Hnz.
           apply (cc_background _ _ Hcc' p O 255 El Ev). reflexivity.
        -- exact (cc_range _ _ Hcc' p l El).
        -- apply (area_bounds_component out Hcc' p l min_size El Fp).
           exact (kept_component m min_size Hgt Hcc p Fp).
    + destruct (at2 (cc_labels (connectedComponentsWithStats out))
                    (fst p) (snd p)) as [l|] eqn:El; [| reflexivity].
      assert (at2 out (fst p) (snd p) = None) by exact Ev.
      apply (same_shape_at2 _ _ (fst p) (snd p) (cc_shape _ _ Hcc')) in H.
      congruence.
Qed.

(** X8.  Raising the threshold only removes pixels: whatever survives
    the larger threshold survives the smaller one. *)
Theorem filter_small_blobs_monotone
        {cv : OpenCV} (m : mask) (small large : Z) (p : pixel) :
  cc_correct m (connectedComponentsWithStats m) ->
  small <= large ->
  foreground (filter_small_blobs m large) p ->
  foreground (filter_small_blobs m small) p.
Proof.
  intros Hcc Hle Fp.
  destruct (Z.leb_spec large 0) as [Hl0 | Hl1].
  - assert (E : forall k, k <= 0 -> filter_small_blobs m k = m).
    { intros k Hk. unfold filter_small_blobs.
      destruct (Z.leb_spec k 0); [reflexivity | lia]. }
    rewrite E in Fp by lia. rewrite E by lia. exact Fp.
  - destruct (out_foreground_label m large Hl1 p Fp)
      as (l & Hl & Hnz & Hn & Ha & _).
    destruct (Z.leb_spec small 0) as [Hs0 | Hs1].
    + assert (E : filter_small_blobs m small = m).
      { unfold filter_small_blobs.
        destruct (Z.leb_spec small 0); [reflexivity | lia]. }
      rewrite E. exact (labelled_foreground m Hcc p l Hl Hnz).
    + exists 255. split; [| lia].
      rewrite (filter_value m small Hs1 p), Hl. cbn [option_map]. f_equal.
      apply lut_keeps; auto. lia.
Qed.

End BlobEdgeFacts.

Module BlobEdgeWitness.
Import Samples BlobEdgeFacts.

Lemma filter_small_blobs_idempotent_witness :
  value_at (filter_small_blobs (cv := Reference.cv)
              (filter_small_blobs (cv := Reference.cv) two_blobs 1) 1)
           (0, 2)%nat
  = value_at (filter_small_blobs (cv := Reference.cv) two_blobs 1) (0, 2)%nat.
Proof.
  apply (filter_small_blobs_idempotent (cv := Reference.cv) two_blobs 1
                                       (0, 2)%nat).
  - exact BlobWitness.two_blobs_labelling.
  - exact BlobWitness.two_blobs_labelling.
Defined.

Lemma filter_small_blobs_monotone_witness :
  foreground (filter_small_blobs (cv := Reference.cv) two_blobs 1) (0, 2)%nat.
Proof.
  apply (filter_small_blobs_monotone (cv := Reference.cv) two_blobs 1 2
                                     (0, 2)%nat).
  - exact BlobWitness.two_blobs_labelling.
  - lia.
  - exists 255. split; [reflexivity | lia].
Defined.

End BlobEdgeWitness.

Module PaletteFacts.
Import Palette.

(** *** The sorted set of the layer values *)

Lemma insert_new_in (x : Z) (l : list Z) (y : Z) :
  In y (insert_new x l) <-> y = x \/ In y l.
Proof.
  induction l as [|a t IH]; cbn.
  - split; [intros [H | []]; auto | intros [H | []]; auto].
  - destruct (Z.ltb_spec x a).
    + cbn. intuition.
    + destruct (Z.eqb_spec x a).
      * subst. cbn. intuition.
      * cbn. rewrite IH. intuition.
Qed.

Lemma insert_new_sorted (x : Z) (l : list Z) :
  StronglySorted Z.lt l -> StronglySorted Z.lt (insert_new x l).
Proof.
  induction 1 as [|a t Hs IH Ha]; cbn.
  - repeat constructor.
  - destruct (Z.ltb_spec x a).
    + constructor; [constructor; assumption |].
      constructor; [assumption |].
      eapply Forall_impl; [| exact Ha]. cbn; intros; lia.
    + destruct (Z.eqb_spec x a).
      * constructor; assumption.
      * constructor; [exact IH |].
        apply Forall_forall. intros y Hy.
        apply insert_new_in in Hy. destruct Hy as [-> | Hy]; [lia |].
        rewrite Forall_forall in Ha. apply Ha. exact Hy.
Qed.

Lemma sorted_set_in (l : list Z) (y : Z) : In y (sorted_set l) <-> In y l.
Proof.
  induction l as [|a t IH]; cbn; [tauto |].
  rewrite insert_new_in, IH. intuition.
Qed.

Lemma sorted_set_sorted (l : list Z) : StronglySorted Z.lt (sorted_set l).
Proof.
  induction l as [|a t IH]; cbn; [constructor | apply insert_new_sorted, IH].
Qed.

Lemma sorted_nth_lt (ids : list Z) :
  StronglySorted Z.lt ids ->
  forall i j a b, (i < j)%nat ->
                  nth_error ids i = Some a -> nth_error ids j = Some b -> a < b.
Proof.
  induction 1 as [|x t Hs IH Hx]; intros i j a b Hlt Hi Hj.
  - destruct i; discriminate.
  - destruct j as [|j]; [lia |]. cbn in Hj.
    destruct i as [|i]; cbn in Hi.
    + injection Hi as <-. rewrite Forall_forall in Hx. apply Hx.
      eapply nth_error_In. exact Hj.
    + apply (IH i j); auto. lia.
Qed.

Lemma sorted_nth_iff (ids : list Z) (i j : nat) (a b : Z) :
  StronglySorted Z.lt ids ->
  nth_error ids i = Some a -> nth_error ids j = Some b ->
  (a < b <-> (i < j)%nat).
Proof.
  intros Hs Hi Hj. split; intros H.
  - destruct (Nat.lt_trichotomy i j) as [L | [E | G]]; [exact L | |].
    + subst. rewrite Hi in Hj. injection Hj as ->. lia.
    + pose proof (sorted_nth_lt ids Hs j i b a G Hj Hi). lia.
  - exact (sorted_nth_lt ids Hs i j a b H Hi Hj).
Qed.

Lemma sorted_unique (a : list Z) :
  StronglySorted Z.lt a ->
  forall b, StronglySorted Z.lt b -> (forall x, In x a <-> In x b) -> a = b.
Proof.
  induction 1 as [|x t Hs IH Hx]; intros b Hb Hin.
  - destruct b as [|y b']; [reflexivity |].
    exfalso. apply (Hin y). left; reflexivity.
  - destruct b as [|y b'].
    + exfalso. apply (Hin x). left; reflexivity.
    + inversion Hb as [|? ? Hs' Hy]; subst.
      rewrite Forall_forall in Hx, Hy.
      assert (x = y).
      { assert (Ix : In x (y :: b')) by (apply Hin; left; reflexivity).
        assert (Iy : In y (x :: t)) by (apply Hin; left; reflexivity).
        destruct Ix as [E | Ix]; [auto |].
        destruct Iy as [E | Iy]; [auto |].
        specialize (Hx _ Iy). specialize (Hy _ Ix). lia. }
      subst y. f_equal. apply IH; [exact Hs' |].
      intros z. split; intros Hz.
      * assert (I : In z (x :: b')) by (apply Hin; right; exact Hz).
        destruct I as [E | I]; [| exact I].
        subst z. specialize (Hx _ Hz). lia.
      * assert (I : In z (x :: t)) by (apply Hin; right; exact Hz).
        destruct I as [E | I]; [| exact I].
        subst z. specialize (Hy _ Hz). lia.
Qed.

(** *** The id map *)

(** [r] is the new number of the old value [v]: its place in the sorted
    ids, counted from 1. *)
Local Abbreviation ranked :=
  (fun (ids : list Z) (v r : Z) =>
     exists i, nth_error ids i = Some v /\ r = Z.of_nat i + 1).

Lemma dict_get_enumerated (ids : list Z) :
  StronglySorted Z.lt ids ->
  forall s i v,
    nth_error ids i = Some v ->
    dict_get (map (fun no => (snd no, Z.of_nat (fst no) + 1))
                  (combine (seq s (length ids)) ids)) v
    = Some (Z.of_nat (s + i) + 1).
Proof.
  induction 1 as [|x t Hs IH Hx]; intros s i v Hi.
  - destruct i; discriminate.
  - cbn [length seq combine map dict_get fst snd].
    destruct i as [|i]; cbn in Hi.
    + injection Hi as ->. rewrite Z.eqb_refl, Nat.add_0_r. reflexivity.
    + destruct (Z.eqb_spec x v) as [E | _].
      * subst. rewrite Forall_forall in Hx.
        pose proof (Hx v (nth_error_In _ _ Hi)). lia.
      * rewrite (IH (S s) i v Hi). do 3 f_equal. lia.
Qed.

Lemma set_all_ranked (ids : list Z) :
  StronglySorted Z.lt ids ->
  forall l, (forall v, In v l -> In v ids) ->
            exists out, set_all (id_map_of ids) l = Some out /\
                        Forall2 (ranked ids) l out.
Proof.
  intros Hs. induction l as [|v t IH]; intros Hin.
  - exists []. split; [reflexivity | constructor].
  - destruct (In_nth_error ids v (Hin v (or_introl eq_refl))) as (i & Hi).
    destruct (IH (fun w Hw => Hin w (or_intror Hw))) as (out & Ho & Hf).
    exists ((Z.of_nat i + 1) :: out). split.
    + cbn [set_all]. unfold id_map_of, enumerate at 1.
      rewrite (dict_get_enumerated ids Hs 0 i v Hi).
      fold (enumerate ids). fold (id_map_of ids). rewrite Ho. reflexivity.
    + constructor; [exists i; auto | exact Hf].
Qed.

Lemma compact_ranked (l : list Z) :
  exists out, compact_layer_ids l = Some out /\
              Forall2 (ranked (sorted_set l)) l out.
Proof.
  unfold compact_layer_ids.
  apply set_all_ranked; [apply sorted_set_sorted |].
  intros v Hv. apply sorted_set_in. exact Hv.
Qed.

Lemma Forall2_nth {A B : Type} (R : A -> B -> Prop) (l : list A) (l' : list B) :
  Forall2 R l l' ->
  forall i a b, nth_error l i = Some a -> nth_error l' i = Some b -> R a b.
Proof.
  induction 1 as [|x y t t' Hxy _ IH]; intros i a b Ha Hb.
  - destruct i; discriminate.
  - destruct i as [|i]; cbn in Ha, Hb.
    + congruence.
    + exact (IH i a b Ha Hb).
Qed.

Lemma Forall2_in_l {A B : Type} (R : A -> B -> Prop) (l : list A) (l' : list B) :
  Forall2 R l l' -> forall a, In a l -> exists b, In b l' /\ R a b.
Proof.
  induction 1 as [|x y t t' Hxy _ IH]; intros a Ha; [contradiction |].
  destruct Ha as [<- | Ha].
  - exists y. split; [left; reflexivity | exact Hxy].
  - destruct (IH a Ha) as (b & Hb & Hr). exists b. split; [right | ]; auto.
Qed.

Lemma Forall2_in_r {A B : Type} (R : A -> B -> Prop) (l : list A) (l' : list B) :
  Forall2 R l l' -> forall b, In b l' -> exists a, In a l /\ R a b.
Proof.
  induction 1 as [|x y t t' Hxy _ IH]; intros b Hb; [contradiction |].
  destruct Hb as [<- | Hb].
  - exists x. split; [left; reflexivity | exact Hxy].
  - destruct (IH b Hb) as (a & Ha & Hr). exists a. split; [right | ]; auto.
Qed.

Lemma compact_range (l out : list Z) :
  compact_layer_ids l = Some out ->
  forall r, In r out <-> 1 <= r <= Z.of_nat (length (sorted_set l)).
Proof.
  intros Hc r.
  destruct (compact_ranked l) as (out' & Ho & Hf).
  assert (out' = out) by congruence. subst out'.
  split.
  - intros Hr. destruct (Forall2_in_r _ _ _ Hf r Hr) as (v & _ & i & Hi & ->).
    assert ((i < length (sorted_set l))%nat)
      by (apply nth_error_Some; congruence).
    lia.
  - intros [H1 H2].
    destruct (nth_error (sorted_set l) (Z.to_nat (r - 1))) as [v|] eqn:Ev.
    + assert (Hv : In v l)
        by (apply sorted_set_in; eapply nth_error_In; exact Ev).
      destruct (Forall2_in_l _ _ _ Hf v Hv) as (r' & Hr' & i & Hi & ->).
      assert (i = Z.to_nat (r - 1)).
      { pose proof (sorted_set_sorted l) as Hs.
        destruct (Nat.lt_trichotomy i (Z.to_nat (r - 1))) as [L | [E | G]];
          [| exact E |].
        - pose proof (sorted_nth_lt _ Hs _ _ _ _ L Hi Ev). lia.
        - pose proof (sorted_nth_lt _ Hs _ _ _ _ G Ev Hi). lia. }
      subst i. replace r with (Z.of_nat (Z.to_nat (r - 1)) + 1) by lia.
      exact Hr'.
    + apply nth_error_None in Ev. lia.
Qed.

Lemma compact_contiguous (layers : list Z) :
  exists out,
    compact_layer_ids layers = Some out /\
    length out = length layers /\
    forall r, In r out <-> 1 <= r <= Z.of_nat (length (sorted_set layers)).
Proof.
  destruct (compact_ranked layers) as (out & Ho & Hf).
  exists out. split; [exact Ho | split].
  - symmetry. eapply Forall2_length. exact Hf.
  - apply compact_range. exact Ho.
Qed.

(** X9.  [compact_layer_ids] never raises and renumbers the layers
    without gaps: the list keeps its length and its values are exactly
    the numbers [1..k], [k] being the number of distinct layer values
    before. *)
Theorem compact_layer_ids_contiguous (layers : list Z) :
  exists out,
    compact_layer_ids layers = Some out /\
    length out = length layers /\
    forall r, In r out <-> 1 <= r <= Z.of_nat (length (sorted_set layers)).
Proof.
  exact (compact_contiguous layers).
Qed.

Lemma compact_keeps_order
        (layers out : list Z) (i j : nat) (a b a' b' : Z) :
  compact_layer_ids layers = Some out ->
  nth_error layers i = Some a -> nth_error layers j = Some b ->
  nth_error out i = Some a' -> nth_error out j = Some b' ->
  (a < b <-> a' < b') /\ (a = b <-> a' = b').
Proof.
  intros Hc Ha Hb Ha' Hb'.
  destruct (compact_ranked layers) as (out' & Ho & Hf).
  assert (out' = out) by congruence. subst out'.
  destruct (Forall2_nth _ _ _ Hf i a a' Ha Ha') as (ia & Hia & ->).
  destruct (Forall2_nth _ _ _ Hf j b b' Hb Hb') as (ib & Hib & ->).
  pose proof (sorted_set_sorted layers) as Hs.
  pose proof (sorted_nth_iff _ ia ib a b Hs Hia Hib) as H1.
  pose proof (sorted_nth_iff _ ib ia b a Hs Hib Hia) as H2.
  split; split; intros H; lia.
Qed.

(** X10.  [compact_layer_ids] keeps the layers apart and in order: two
    positions compare after it as they did before (in particular they
    share a layer after it exactly when they did before). *)
Theorem compact_layer_ids_keeps_order
        (layers out : list Z) (i j : nat) (a b a' b' : Z) :
  compact_layer_ids layers = Some out ->
  nth_error layers i = Some a -> nth_error layers j = Some b ->
  nth_error out i = Some a' -> nth_error out j = Some b' ->
  (a < b <-> a' < b') /\ (a = b <-> a' = b').
Proof.
  exact (compact_keeps_order layers out i j a b a' b').
Qed.

Lemma compact_layer_ids_keeps_order_witness :
  (7 < 40 <-> 2 < 3) /\ (7 = 40 <-> 2 = 3).
Proof.
  apply (compact_layer_ids_keeps_order [7; 40; 7; 3] [2; 3; 2; 1] 0 1 7 40 2 3);
    reflexivity.
Defined.

Lemma first_ids_nth (k i : nat) (v : Z) :
  nth_error (first_ids k) i = Some v -> v = Z.of_nat i + 1.
Proof.
  unfold first_ids. rewrite nth_error_map. intros H.
  destruct (nth_error (seq 0 k) i) as [n|] eqn:E; [| discriminate].
  cbn in H. injection H as <-.
  assert (Hi : (i < k)%nat).
  { assert (HS : nth_error (seq 0 k) i <> None) by congruence.
    apply nth_error_Some in HS. rewrite length_seq in HS. exact HS. }
  rewrite nth_error_seq in E.
  destruct (Nat.ltb_spec i k); [| lia]. injection E as <-. reflexivity.
Qed.

Lemma first_ids_sorted (k : nat) : StronglySorted Z.lt (first_ids k).
Proof.
  unfold first_ids. generalize 0%nat as s.
  induction k as [|k IH]; intros s; cbn; constructor.
  - apply IH.
  - apply Forall_forall. intros y Hy. apply in_map_iff in Hy.
    destruct Hy as (n & <- & Hn). apply in_seq in Hn. lia.
Qed.

Lemma first_ids_in (k : nat) (r : Z) :
  In r (first_ids k) <-> 1 <= r <= Z.of_nat k.
Proof.
  unfold first_ids. rewrite in_map_iff. split.
  - intros (n & <- & Hn). apply in_seq in Hn. lia.
  - intros H. exists (Z.to_nat (r - 1)). split; [lia |].
    apply in_seq. lia.
Qed.

(** X11.  Compacting is idempotent: layer numbers that came out of
    [compact_layer_ids] are left as they are by another call. *)
Theorem compact_layer_ids_idempotent (layers out : list Z) :
  compact_layer_ids layers = Some out ->
  compact_layer_ids out = Some out.
Proof.
  intros Hc.
  pose proof (compact_range layers out Hc) as Hr.
  assert (E : sorted_set out = first_ids (length (sorted_set layers))).
  { apply sorted_unique; [apply sorted_set_sorted | apply first_ids_sorted |].
    intros x. rewrite sorted_set_in, Hr, first_ids_in. tauto. }
  destruct (compact_ranked out) as (out' & Ho & Hf). rewrite Ho. f_equal.
  rewrite E in Hf. clear - Hf.
  induction Hf as [|v r t t' (i & Hi & ->) _ IH]; [reflexivity |].
  apply first_ids_nth in Hi. subst. congruence.
Qed.

Lemma compact_layer_ids_idempotent_witness :
  compact_layer_ids [2; 3; 2; 1] = Some [2; 3; 2; 1].
Proof.
  apply (compact_layer_ids_idempotent [7; 40; 7; 3] [2; 3; 2; 1]).
  reflexivity.
Defined.

End PaletteFacts.

Module PaletteOpsFacts.
Import Palette PaletteFacts.

Lemma del_at_length {A : Type} (l l' : list A) (i : nat) :
  del_at l i = Some l' -> S (length l') = length l.
Proof.
  unfold del_at. destruct (Nat.ltb_spec i (length l)) as [H | H]; [| discriminate].
  intros E. injection E as E. subst l'.
  change (S (length (firstn i l ++ skipn (S i) l)) = length l).
  rewrite length_app, length_firstn, length_skipn. lia.
Qed.

Lemma del_at_some {A : Type} (l : list A) (i : nat) :
  (i < length l)%nat -> del_at l i = Some (firstn i l ++ skipn (S i) l).
Proof.
  intros H. unfold del_at. destruct (Nat.ltb_spec i (length l)); [reflexivity | lia].
Qed.

Lemma compact_length (l out : list Z) :
  compact_layer_ids l = Some out -> length out = length l.
Proof.
  intros H. destruct (compact_contiguous l) as (out' & Ho & Hl & _).
  congruence.
Qed.

(** X12.  On a palette whose three lists have the same length
    [remove_color] never raises and keeps them the same length.  An index
    outside [0 <= index < len] changes nothing; an index inside removes
    that position from the colours and the selections, and the layer
    numbers are those of the remaining positions, compacted. *)
Theorem remove_color_keeps_palette_aligned (p : palette) (index : Z) :
  aligned p ->
  exists p',
    remove_color p index = Done p' /\ aligned p' /\
    (index < 0 \/ Z.of_nat (length (picked_colors p)) <= index -> p' = p) /\
    (0 <= index < Z.of_nat (length (picked_colors p)) ->
     let i := Z.to_nat index in
     picked_colors p' = firstn i (picked_colors p) ++ skipn (S i) (picked_colors p) /\
     select_vars p' = firstn i (select_vars p) ++ skipn (S i) (select_vars p) /\
     compact_layer_ids (firstn i (layer_vars p) ++ skipn (S i) (layer_vars p))
     = Some (layer_vars p') /\
     last_select_index p' = last_select_index p).
Proof.
  intros [Hl Hs]. unfold remove_color.
  destruct (Z.leb_spec 0 index) as [H0 | H0];
    [destruct (Z.ltb_spec index (Z.of_nat (length (picked_colors p)))) as [H1 | H1] |];
    cbn [andb].
  - set (i := Z.to_nat index).
    assert (Hi : (i < length (picked_colors p))%nat) by (unfold i; lia).
    rewrite (del_at_some (layer_vars p) i) by lia.
    rewrite (del_at_some (select_vars p) i) by lia.
    destruct (compact_contiguous
                (firstn i (layer_vars p) ++ skipn (S i) (layer_vars p)))
      as (out & Ho & Hlen & _).
    rewrite Ho. eexists. split; [reflexivity |]. split; [| split].
    + unfold aligned. cbn [layer_vars picked_colors select_vars].
      rewrite Hlen, !length_app, !length_firstn, !length_skipn. lia.
    + intros [Hx | Hx]; lia.
    + intros _. cbn. auto.
  - exists p. split; [reflexivity |]. split; [split; assumption |].
    split; [intros _; reflexivity | intros Hx; lia].
  - exists p. split; [reflexivity |]. split; [split; assumption |].
    split; [intros _; reflexivity | intros Hx; lia].
Qed.

Lemma remove_color_keeps_palette_aligned_witness :
  exists p',
    remove_color (mk_palette [(0, 0, 0); (9, 9, 9); (5, 5, 5)] [1; 2; 3]
                             [false; true; false] (-1)) 1 = Done p' /\
    aligned p'.
Proof.
  destruct (remove_color_keeps_palette_aligned
              (mk_palette [(0, 0, 0); (9, 9, 9); (5, 5, 5)] [1; 2; 3]
                          [false; true; false] (-1)) 1)
    as (p' & H & Ha & _).
  - split; reflexivity.
  - exists p'. split; assumption.
Defined.

(** *** [apply_bulk_layer] *)

Lemma bulk_loop_spec (target : Z) :
  forall (selects : list bool) (layers : list Z),
    length layers = length selects ->
    bulk_loop target layers selects
    = (map (fun ls : Z * bool => if snd ls then target else fst ls) (combine layers selects),
       repeat false (length selects),
       existsb (fun s => s) selects,
       true).
Proof.
  induction selects as [|s selects IH]; intros layers Hlen.
  - destruct layers; [reflexivity | discriminate].
  - destruct layers as [|l layers]; [discriminate |].
    cbn in Hlen. injection Hlen as Hlen.
    cbn [bulk_loop combine map length repeat existsb fst snd tl].
    rewrite (IH layers Hlen). destruct s; reflexivity.
Qed.

Lemma existsb_false_all (selects : list bool) :
  existsb (fun s => s) selects = false ->
  selects = repeat false (length selects).
Proof.
  induction selects as [|s t IH]; cbn; [reflexivity |].
  destruct s; cbn; [discriminate |]. intros H. f_equal. exact (IH H).
Qed.

Lemma unselected_layers_kept (target : Z) :
  forall (selects : list bool) (layers : list Z),
    length layers = length selects ->
    existsb (fun s => s) selects = false ->
    map (fun ls : Z * bool => if snd ls then target else fst ls) (combine layers selects)
    = layers.
Proof.
  induction selects as [|s t IH]; intros layers Hlen He.
  - destruct layers; [reflexivity | discriminate].
  - destruct layers as [|l layers]; [discriminate |].
    cbn in Hlen, He. destruct s; [discriminate |]. cbn.
    f_equal. apply IH; [lia | exact He].
Qed.

Lemma selected_gets_target (target : Z) :
  forall (selects : list bool) (layers : list Z) (i : nat),
    length layers = length selects ->
    nth_error selects i = Some true ->
    nth_error (map (fun ls : Z * bool => if snd ls then target else fst ls)
                   (combine layers selects)) i = Some target.
Proof.
  induction selects as [|s t IH]; intros layers i Hlen Hi.
  - destruct i; discriminate.
  - destruct layers as [|l layers]; [discriminate |].
    destruct i as [|i]; cbn in Hi |- *.
    + injection Hi as ->. reflexivity.
    + apply IH; [cbn in Hlen; lia | exact Hi].
Qed.

Lemma bulk_layer_groups (target : Z) (p : palette) :
  aligned p ->
  exists p',
    apply_bulk_layer target p = Done p' /\ aligned p' /\
    picked_colors p' = picked_colors p /\
    Forall (fun s => s = false) (select_vars p') /\
    (forall i j,
        nth_error (select_vars p) i = Some true ->
        nth_error (select_vars p) j = Some true ->
        nth_error (layer_vars p') i = nth_error (layer_vars p') j) /\
    (Forall (fun s => s = false) (select_vars p) -> p' = p).
Proof.
  intros [Hl Hs].
  assert (Hlen : length (layer_vars p) = length (select_vars p)) by lia.
  unfold apply_bulk_layer. rewrite (bulk_loop_spec target _ _ Hlen).
  set (layers := map (fun ls : Z * bool => if snd ls then target else fst ls)
                     (combine (layer_vars p) (select_vars p))).
  assert (Hll : length layers = length (layer_vars p)).
  { unfold layers. rewrite length_map, length_combine. lia. }
  assert (Hclear : Forall (fun s => s = false)
                          (repeat false (length (select_vars p)))).
  { apply Forall_forall. intros s Hin. exact (repeat_spec _ _ _ Hin). }
  destruct (existsb (fun s => s) (select_vars p)) eqn:Ex.
  - destruct (compact_contiguous layers) as (out & Ho & Hlo & _).
    rewrite Ho. eexists. split; [reflexivity |].
    cbn [picked_colors layer_vars select_vars].
    split; [| split; [reflexivity | split; [exact Hclear | split]]].
    + unfold aligned. cbn. rewrite repeat_length. lia.
    + intros i j Hi Hj.
      pose proof (selected_gets_target target _ _ i Hlen Hi) as Ti.
      pose proof (selected_gets_target target _ _ j Hlen Hj) as Tj.
      fold layers in Ti, Tj.
      destruct (nth_error out i) as [a'|] eqn:Ea.
      * destruct (nth_error out j) as [b'|] eqn:Eb.
        -- f_equal.
           apply (compact_keeps_order layers out i j target target
                                                a' b' Ho Ti Tj Ea Eb).
           reflexivity.
        -- apply nth_error_None in Eb.
           assert (nth_error layers j <> None) by congruence.
           apply nth_error_Some in H. lia.
      * apply nth_error_None in Ea.
        assert (nth_error layers i <> None) by congruence.
        apply nth_error_Some in H. lia.
    + intros Hall. exfalso.
      apply existsb_exists in Ex. destruct Ex as (s & Hin & Hs').
      rewrite Forall_forall in Hall. specialize (Hall s Hin). congruence.
  - eexists. split; [reflexivity |].
    cbn [picked_colors layer_vars select_vars].
    split; [| split; [reflexivity | split; [exact Hclear | split]]].
    + unfold aligned. cbn. rewrite repeat_length. lia.
    + intros i j Hi _. exfalso.
      assert (existsb (fun s => s) (select_vars p) = true).
      { apply existsb_exists. exists true. split; [| reflexivity].
        eapply nth_error_In. exact Hi. }
      congruence.
    + intros _. unfold layers.
      rewrite (unselected_layers_kept target _ _ Hlen Ex).
      rewrite <- (existsb_false_all _ Ex). destruct p; reflexivity.
Qed.

(** X13.  On an aligned palette [apply_bulk_layer] never raises and
    keeps the colours and the alignment.  Afterwards no colour is
    selected, and all the colours that were selected share one layer
    number.  When nothing was selected the palette is unchanged. *)
Theorem apply_bulk_layer_groups_selection (target : Z) (p : palette) :
  aligned p ->
  exists p',
    apply_bulk_layer target p = Done p' /\ aligned p' /\
    picked_colors p' = picked_colors p /\
    Forall (fun s => s = false) (select_vars p') /\
    (forall i j,
        nth_error (select_vars p) i = Some true ->
        nth_error (select_vars p) j = Some true ->
        nth_error (layer_vars p') i = nth_error (layer_vars p') j) /\
    (Forall (fun s => s = false) (select_vars p) -> p' = p).
Proof.
  exact (bulk_layer_groups target p).
Qed.

Lemma apply_bulk_layer_groups_selection_witness :
  exists p',
    apply_bulk_layer 9 (mk_palette [(0, 0, 0); (9, 9, 9); (5, 5, 5)] [1; 2; 3]
                                   [true; false; true] (-1)) = Done p' /\
    nth_error (layer_vars p') 0 = nth_error (layer_vars p') 2.
Proof.
  destruct (apply_bulk_layer_groups_selection 9
              (mk_palette [(0, 0, 0); (9, 9, 9); (5, 5, 5)] [1; 2; 3]
                          [true; false; true] (-1)))
    as (p' & H & _ & _ & _ & Hsame & _).
  - split; reflexivity.
  - exists p'. split; [exact H | apply Hsame; reflexivity].
Defined.

End PaletteOpsFacts.

Module PaletteOrderFacts.
Import Palette PaletteOrder.

Lemma insert_desc_perm {A : Type} (below : A -> A -> bool) (x : A) (l : list A) :
  Permutation (insert_desc below x l) (x :: l).
Proof.
  induction l as [|y t IH]; cbn; [apply Permutation_refl |].
  destruct (below x y); [| apply Permutation_refl].
  eapply perm_trans; [apply perm_skip, IH | apply perm_swap].
Qed.

Lemma sort_desc_perm {A : Type} (below : A -> A -> bool) (l : list A) :
  Permutation (sort_desc below l) l.
Proof.
  induction l as [|x t IH]; cbn; [constructor |].
  eapply perm_trans; [apply insert_desc_perm | apply perm_skip, IH].
Qed.

Lemma group_add_perm (lid : Z) (it : item) (groups : list (Z * list item)) :
  Permutation (flat_map snd (group_add lid it groups))
              (it :: flat_map snd groups).
Proof.
  induction groups as [|[k items] t IH]; cbn [group_add flat_map snd].
  - cbn. apply Permutation_refl.
  - destruct (k =? lid); cbn [flat_map snd].
    + rewrite <- app_assoc. cbn [app].
      apply Permutation_sym, Permutation_middle.
    + eapply perm_trans; [apply Permutation_app_head, IH |].
      apply Permutation_sym, Permutation_middle.
Qed.

Lemma group_add_nonempty (lid : Z) (it : item) (groups : list (Z * list item)) :
  Forall (fun g => snd g <> []) groups ->
  Forall (fun g => snd g <> []) (group_add lid it groups).
Proof.
  induction 1 as [|[k items] t Hk Ht IH]; cbn [group_add].
  - constructor; [cbn; discriminate | constructor].
  - destruct (k =? lid); constructor.
    + cbn. destruct items; discriminate.
    + exact Ht.
    + exact Hk.
    + exact IH.
Qed.

Lemma group_add_some (lid : Z) (it : item) (groups : list (Z * list item)) :
  group_add lid it groups <> [].
Proof. destruct groups as [|[k items] t]; cbn; [| destruct (k =? lid)]; discriminate. Qed.

Lemma fold_groups_perm (rows : list (color * (Z * bool))) :
  forall groups,
    Permutation (flat_map snd (fold_left group_step rows groups))
                (flat_map snd groups
                   ++ map (fun cls => (fst cls, snd (snd cls))) rows).
Proof.
  induction rows as [|r rows IH]; intros groups; cbn [fold_left map].
  - rewrite app_nil_r. apply Permutation_refl.
  - eapply perm_trans; [apply IH |]. unfold group_step.
    eapply perm_trans; [apply Permutation_app_tail, group_add_perm |].
    cbn [app fst snd]. apply Permutation_middle.
Qed.

Lemma fold_groups_nonempty (rows : list (color * (Z * bool))) :
  forall groups,
    Forall (fun g => snd g <> []) groups ->
    Forall (fun g => snd g <> []) (fold_left group_step rows groups).
Proof.
  induction rows as [|r rows IH]; intros groups H; cbn [fold_left]; auto.
  apply IH. apply group_add_nonempty. exact H.
Qed.

Lemma fold_groups_some (rows : list (color * (Z * bool))) :
  forall groups, groups <> [] -> fold_left group_step rows groups <> [].
Proof.
  induction rows as [|r rows IH]; intros groups H; cbn [fold_left]; auto.
  apply IH. apply group_add_some.
Qed.

Lemma grow_layers_length (n : nat) :
  forall l, length (grow_layers n l) = (length l + n)%nat.
Proof.
  induction n as [|n IH]; intros l; cbn [grow_layers]; [lia |].
  rewrite IH, length_app. cbn. lia.
Qed.

Lemma map_fst_combine {A B : Type} (a : list A) :
  forall (b : list B), (length a <= length b)%nat -> map fst (combine a b) = a.
Proof.
  induction a as [|x a IH]; intros b H; [reflexivity |].
  destruct b as [|y b]; [cbn in H; lia |]. cbn. f_equal. apply IH. cbn in H. lia.
Qed.

(** The three lists built by [assemble]: colours, layer numbers and
    selections of the sorted items of the groups, in group order. *)
Lemma assemble_spec (gms : list group_metric) :
  forall n,
    let '(cs, ls, ss) := assemble n gms in
    Permutation cs (map fst (flat_map (fun g => snd (snd g)) gms)) /\
    length ls = length cs /\ length ss = length cs /\
    StronglySorted Z.le ls /\
    (Forall (fun g => snd (snd g) <> []) gms ->
     forall r, In r ls <-> n <= r < n + Z.of_nat (length gms)) /\
    Forall (fun r => n <= r) ls.
Proof.
  induction gms as [|g gms IH]; intros n.
  - cbn. split; [constructor |]. split; [reflexivity |].
    split; [reflexivity |]. split; [constructor |]. split; [| constructor].
    intros _ r. split; [intros [] | intros H; lia].
  - cbn [assemble]. specialize (IH (n + 1)).
    destruct (assemble (n + 1) gms) as [[cs ls] ss].
    destruct IH as (Hp & Hl & Hs & Hsort & Hin & Hge).
    set (items := sort_desc dimmer (snd (snd g))).
    assert (Hpi : Permutation items (snd (snd g))) by apply sort_desc_perm.
    split; [| split; [| split; [| split; [| split]]]].
    + cbn [flat_map]. rewrite map_app.
      apply Permutation_app; [apply Permutation_map, Hpi | exact Hp].
    + rewrite !length_app, !length_map, Hl. reflexivity.
    + rewrite !length_app, !length_map, Hs. reflexivity.
    + clear Hpi. clearbody items.
      induction items as [|it items IHi]; cbn; [exact Hsort |].
      constructor; [exact IHi |].
      apply Forall_app. split.
      * apply Forall_forall. intros r Hr. apply in_map_iff in Hr.
        destruct Hr as (_ & <- & _). lia.
      * eapply Forall_impl; [| exact Hge]. cbn; intros; lia.
    + intros Hne r. inversion Hne as [|? ? Hg Hrest]; subst.
      specialize (Hin Hrest r). rewrite in_app_iff, Hin.
      cbn [length]. split.
      * intros [Hr | Hr]; [| lia].
        apply in_map_iff in Hr. destruct Hr as (_ & <- & _). lia.
      * intros Hr. destruct (Z.eq_dec r n) as [-> | Hne']; [| right; lia].
        left. destruct items as [|it rest_items] eqn:Ei.
        -- exfalso. apply Hg. apply Permutation_nil. exact Hpi.
        -- cbn. left. reflexivity.
    + apply Forall_app. split.
      * apply Forall_forall. intros r Hr. apply in_map_iff in Hr.
        destruct Hr as (_ & <- & _). lia.
      * eapply Forall_impl; [| exact Hge]. cbn; intros; lia.
Qed.

Section Reorder.
Variable p : palette.
Hypothesis Hne : picked_colors p <> [].

Local Abbreviation n := (length (picked_colors p)).
Local Abbreviation layers :=
  (grow_layers (n - length (layer_vars p)) (layer_vars p)).
Local Abbreviation selects :=
  (select_vars p ++ repeat false (n - length (select_vars p))).
Local Abbreviation groups := (build_groups (picked_colors p) layers selects).
Local Abbreviation gms :=
  (sort_desc darker (map (fun g => (fst g, (brightness (snd g), snd g))) groups)).

Lemma reorder_unfold :
  reorder_palette_by_similarity p
  = let '(cs, ls, ss) := assemble 1 gms in
    mk_palette cs ls ss (last_select_index p).
Proof.
  unfold reorder_palette_by_similarity.
  destruct (picked_colors p) eqn:E; [congruence | reflexivity].
Qed.

Lemma groups_items :
  Permutation (map fst (flat_map snd groups)) (picked_colors p).
Proof.
  unfold build_groups.
  pose proof (fold_groups_perm
                (combine (picked_colors p) (combine layers selects)) []) as H.
  cbn [flat_map app] in H. apply (Permutation_map fst) in H.
  eapply perm_trans; [exact H |].
  rewrite map_map. cbn [fst].
  change (fun x : color * (Z * bool) => fst x) with (@fst color (Z * bool)).
  rewrite map_fst_combine; [apply Permutation_refl |].
  rewrite length_combine, grow_layers_length, length_app, repeat_length. lia.
Qed.

Lemma gms_items :
  Permutation (flat_map (fun g : group_metric => snd (snd g)) gms)
              (flat_map snd groups).
Proof.
  eapply perm_trans.
  - apply Permutation_flat_map. apply sort_desc_perm.
  - rewrite flat_map_concat_map, map_map. cbn [snd].
    rewrite <- flat_map_concat_map. apply Permutation_refl.
Qed.

Lemma groups_nonempty : Forall (fun g => snd g <> []) groups.
Proof. unfold build_groups. apply fold_groups_nonempty. constructor. Qed.

Lemma gms_nonempty : Forall (fun g : group_metric => snd (snd g) <> []) gms.
Proof.
  apply Forall_forall. intros g Hg.
  apply (Permutation_in _ (sort_desc_perm darker _)) in Hg.
  apply in_map_iff in Hg. destruct Hg as (g0 & <- & Hg0). cbn.
  pose proof groups_nonempty as H. rewrite Forall_forall in H. exact (H g0 Hg0).
Qed.

Lemma gms_count : (1 <= length gms)%nat.
Proof.
  rewrite (Permutation_length (sort_desc_perm darker _)), length_map.
  assert (Hn : (1 <= n)%nat)
    by (destruct (picked_colors p); [congruence | cbn [length]; lia]).
  assert (Hl : (1 <= length layers)%nat)
    by (rewrite grow_layers_length; lia).
  assert (Hs : (1 <= length selects)%nat)
    by (rewrite length_app, repeat_length; lia).
  assert (Hg : groups <> []).
  { unfold build_groups.
    remember layers as L eqn:EL. remember selects as S' eqn:ES.
    clear EL ES.
    destruct (picked_colors p) as [|c cs]; [congruence |].
    destruct L as [|l ls]; [cbn in Hl; lia |].
    destruct S' as [|s ss]; [cbn in Hs; lia |].
    cbn [combine fold_left]. apply fold_groups_some. apply group_add_some. }
  destruct groups; [congruence | cbn [length]; lia].
Qed.

End Reorder.

Lemma reorder_permutes (p : palette) :
  Permutation (picked_colors (reorder_palette_by_similarity p))
              (picked_colors p) /\
  (picked_colors p <> [] -> aligned (reorder_palette_by_similarity p)).
Proof.
  destruct (picked_colors p) as [|c cs] eqn:E.
  - unfold reorder_palette_by_similarity. rewrite E.
    split; [rewrite E; constructor | congruence].
  - assert (Hne : picked_colors p <> []) by congruence.
    rewrite <- E. rewrite (reorder_unfold p Hne).
    pose proof (assemble_spec
                  (sort_desc darker
                     (map (fun g => (fst g, (brightness (snd g), snd g)))
                          (build_groups (picked_colors p)
                             (grow_layers (length (picked_colors p)
                                           - length (layer_vars p)) (layer_vars p))
                             (select_vars p
                                ++ repeat false (length (picked_colors p)
                                                 - length (select_vars p))))))
                  1) as H.
    destruct (assemble 1 _) as [[cs' ls'] ss'].
    destruct H as (Hp & Hl & Hs & _).
    cbn [picked_colors]. split.
    + eapply perm_trans; [exact Hp |].
      eapply perm_trans; [apply Permutation_map, gms_items |].
      apply groups_items.
    + intros _. unfold aligned. cbn. split; assumption.
Qed.

(** X14.  [reorder_palette_by_similarity] keeps every colour of the
    palette, each as often as before (the new colour list is a
    permutation of the old one), and leaves colours, layer numbers and
    selections with the same length. *)
Theorem reorder_palette_permutes_colors (p : palette) :
  Permutation (picked_colors (reorder_palette_by_similarity p))
              (picked_colors p) /\
  (picked_colors p <> [] -> aligned (reorder_palette_by_similarity p)).
Proof.
  exact (reorder_permutes p).
Qed.

Lemma reorder_palette_permutes_colors_witness :
  aligned (reorder_palette_by_similarity
             (mk_palette [(0, 0, 0); (200, 200, 200); (10, 10, 10)]
                         [5; 2] [] (-1))).
Proof.
  apply (reorder_palette_permutes_colors
           (mk_palette [(0, 0, 0); (200, 200, 200); (10, 10, 10)]
                       [5; 2] [] (-1))).
  discriminate.
Defined.

(** X15.  After [reorder_palette_by_similarity] on a non-empty palette
    the layer numbers run 1, ..., k along the list without gaps and never
    decrease: colours of one layer are adjacent. *)
Theorem reorder_palette_numbers_layers_in_order (p : palette) :
  picked_colors p <> [] ->
  StronglySorted Z.le (layer_vars (reorder_palette_by_similarity p)) /\
  exists k, (1 <= k)%nat /\
            forall r, In r (layer_vars (reorder_palette_by_similarity p))
                      <-> 1 <= r <= Z.of_nat k.
Proof.
  intros Hne. rewrite (reorder_unfold p Hne).
  pose proof (gms_nonempty p) as Hg. pose proof (gms_count p Hne) as Hc.
  pose proof (assemble_spec
                (sort_desc darker
                   (map (fun g => (fst g, (brightness (snd g), snd g)))
                        (build_groups (picked_colors p)
                           (grow_layers (length (picked_colors p)
                                         - length (layer_vars p)) (layer_vars p))
                           (select_vars p
                              ++ repeat false (length (picked_colors p)
                                               - length (select_vars p))))))
                1) as H.
  destruct (assemble 1 _) as [[cs' ls'] ss'].
  destruct H as (_ & _ & _ & Hsort & Hin & _).
  cbn [layer_vars]. split; [exact Hsort |].
  eexists. split; [exact Hc |].
  intros r. rewrite (Hin Hg r). lia.
Qed.

Lemma reorder_palette_numbers_layers_in_order_witness :
  StronglySorted Z.le
    (layer_vars (reorder_palette_by_similarity
                   (mk_palette [(0, 0, 0); (200, 200, 200); (10, 10, 10)]
                               [5; 2; 5] [false; false; false] (-1)))).
Proof.
  apply (reorder_palette_numbers_layers_in_order
           (mk_palette [(0, 0, 0); (200, 200, 200); (10, 10, 10)]
                       [5; 2; 5] [false; false; false] (-1))).
  discriminate.
Defined.

Lemma color_eqb_eq (a b : color) : color_eqb a b = true <-> a = b.
Proof.
  destruct a as [[a0 a1] a2], b as [[b0 b1] b2]. unfold color_eqb.
  rewrite !andb_true_iff, !Z.eqb_eq. split.
  - intros [[-> ->] ->]. reflexivity.
  - intros E. injection E as -> -> ->. auto.
Qed.

(** X16.  Picking colours never duplicates one: if the palette has no
    repeated colour, it has none after [on_canvas_click] either, and its
    colours are then the old ones together with the clicked colour. *)
Theorem add_color_keeps_colors_distinct (p : palette) (bgr : color) :
  NoDup (picked_colors p) ->
  NoDup (picked_colors (add_color p bgr)) /\
  forall c, In c (picked_colors (add_color p bgr))
            <-> c = bgr \/ In c (picked_colors p).
Proof.
  intros Hnd. unfold add_color.
  destruct (existsb (color_eqb bgr) (picked_colors p)) eqn:Ex.
  - split; [exact Hnd |]. intros c. split; [auto |].
    intros [-> | H]; [| exact H].
    apply existsb_exists in Ex. destruct Ex as (x & Hx & E).
    apply color_eqb_eq in E. subst x. exact Hx.
  - set (q := mk_palette (picked_colors p ++ [bgr]) (layer_vars p)
                         (select_vars p) (last_select_index p)).
    destruct (reorder_permutes q) as [Hp _].
    cbn [picked_colors] in Hp.
    assert (Hnot : ~ In bgr (picked_colors p)).
    { intros Hin.
      assert (existsb (color_eqb bgr) (picked_colors p) = true).
      { apply existsb_exists. exists bgr. split; [exact Hin |].
        apply color_eqb_eq. reflexivity. }
      congruence. }
    split.
    + apply (Permutation_NoDup (Permutation_sym Hp)).
      apply NoDup_app; [exact Hnd | repeat constructor; intros [] |].
      intros a Ha [<- | []]. contradiction.
    + intros c. split.
      * intros Hc. apply (Permutation_in _ Hp) in Hc.
        apply in_app_iff in Hc. destruct Hc as [Hc | [<- | []]]; auto.
      * intros Hc. apply (Permutation_in _ (Permutation_sym Hp)).
        apply in_app_iff. destruct Hc as [-> | Hc]; [right; left | left]; auto.
Qed.

Lemma add_color_keeps_colors_distinct_witness :
  NoDup (picked_colors
           (add_color (mk_palette [(0, 0, 0); (200, 200, 200)] [1; 2]
                                  [false; false] (-1)) (10, 10, 10))).
Proof.
  apply (add_color_keeps_colors_distinct
           (mk_palette [(0, 0, 0); (200, 200, 200)] [1; 2]
                       [false; false] (-1)) (10, 10, 10)).
  repeat constructor; cbn; intuition discriminate.
Defined.

End PaletteOrderFacts.

Module LayerMergeFacts.
Import RasterFacts Palette PaletteFacts LayerMerge.

(** *** Pixels of the masks *)

Lemma nth_error_combine {A B : Type} (a : list A) :
  forall (b : list B) i x y,
    nth_error a i = Some x -> nth_error b i = Some y ->
    nth_error (combine a b) i = Some (x, y).
Proof.
  induction a as [|a0 a IH]; intros b i x y Ha Hb.
  - destruct i; discriminate.
  - destruct b as [|b0 b]; [destruct i; discriminate |].
    destruct i as [|i]; cbn in *.
    + congruence.
    + apply IH; assumption.
Qed.

Lemma at2_or (a b : mask) (y x : nat) (va vb : Z) :
  at2 a y x = Some va -> at2 b y x = Some vb ->
  at2 (cv_bitwise_or a b) y x = Some (Z.lor va vb).
Proof.
  unfold at2, cv_bitwise_or, map2. intros Ha Hb.
  destruct (nth_error a y) as [ra|] eqn:Ea; [| discriminate].
  destruct (nth_error b y) as [rb|] eqn:Eb; [| discriminate].
  rewrite nth_error_map, (nth_error_combine a b y ra rb Ea Eb). cbn.
  rewrite nth_error_map, (nth_error_combine ra rb x va vb Ha Hb). reflexivity.
Qed.

Lemma at2_zeros (h w y x : nat) :
  (y < h)%nat -> (x < w)%nat -> at2 (np_zeros h w) y x = Some 0.
Proof.
  intros Hy Hx. unfold at2, np_zeros.
  rewrite (nth_error_repeat _ Hy). apply nth_error_repeat. exact Hx.
Qed.

Lemma at2_inRange (labels : list (list nat)) (i y x l : nat) :
  at2 labels y x = Some l ->
  at2 (cv_inRange labels i i) y x = Some (if Nat.eqb l i then 255 else 0).
Proof.
  intros H. unfold cv_inRange. rewrite at2_map, H. cbn. f_equal.
  destruct (Nat.eqb_spec l i) as [-> | Hne].
  - rewrite Nat.leb_refl. reflexivity.
  - destruct (Nat.leb_spec i l), (Nat.leb_spec l i); cbn; try reflexivity. lia.
Qed.

Lemma at2_in_shape {A : Type} (g : list (list A)) (h w y x : nat) (a : A) :
  grid_shape g h w -> at2 g y x = Some a -> (y < h)%nat /\ (x < w)%nat.
Proof.
  intros [Hh Hw] H. unfold at2 in H.
  destruct (nth_error g y) as [row|] eqn:E; [| discriminate].
  split.
  - rewrite <- Hh. apply nth_error_Some. congruence.
  - rewrite Forall_forall in Hw. rewrite <- (Hw row (nth_error_In _ _ E)).
    apply nth_error_Some. congruence.
Qed.

(** *** The layer map *)

Lemma map_get_add_same (lid : Z) (idx : nat) (m : list (Z * list nat)) :
  map_get (map_add lid idx m) lid
  = Some (match map_get m lid with
          | Some l => l ++ [idx]
          | None => [idx]
          end).
Proof.
  induction m as [|[k l] t IH]; cbn.
  - rewrite Z.eqb_refl. reflexivity.
  - destruct (Z.eqb_spec k lid) as [-> | Hne]; cbn.
    + rewrite Z.eqb_refl. reflexivity.
    + destruct (Z.eqb_spec k lid); [contradiction | exact IH].
Qed.

Lemma map_get_add_other (lid lid' : Z) (idx : nat) (m : list (Z * list nat)) :
  lid' <> lid -> map_get (map_add lid idx m) lid' = map_get m lid'.
Proof.
  intros Hne. induction m as [|[k l] t IH]; cbn.
  - destruct (Z.eqb_spec lid lid'); [congruence | reflexivity].
  - destruct (Z.eqb_spec k lid) as [-> | Hk]; cbn.
    + destruct (Z.eqb_spec lid lid'); [congruence | reflexivity].
    + destruct (Z.eqb_spec k lid'); [reflexivity | exact IH].
Qed.

Lemma map_get_key (m : list (Z * list nat)) (lid : Z) :
  In lid (map fst m) <-> map_get m lid <> None.
Proof.
  induction m as [|[k l] t IH]; cbn.
  - split; [intros [] | congruence].
  - destruct (Z.eqb_spec k lid) as [-> | Hne].
    + split; [discriminate | auto].
    + rewrite <- IH. split; [intros [E | H]; [contradiction | exact H] | auto].
Qed.

(** What the map holds once the pairs [done] have been entered. *)
Local Abbreviation holds :=
  (fun (m : list (Z * list nat)) (done : list (nat * Z)) =>
     forall lid,
       match map_get m lid with
       | Some indices =>
           indices <> [] /\ forall i, In i indices <-> In (i, lid) done
       | None => forall i, ~ In (i, lid) done
       end).

Lemma map_step_holds (m : list (Z * list nat)) (done : list (nat * Z))
      (il : nat * Z) :
  holds m done -> holds (map_step m il) (done ++ [il]).
Proof.
  intros H lid. destruct il as [idx l]. unfold map_step. cbn [fst snd].
  destruct (Z.eq_dec lid l) as [-> | Hne].
  - rewrite map_get_add_same. specialize (H l).
    destruct (map_get m l) as [indices|].
    + destruct H as [_ H]. split; [destruct indices; discriminate |].
      intros i. rewrite !in_app_iff, (H i). cbn. split.
      * intros [Hi | [<- | []]]; auto.
      * intros [Hi | [E | []]]; [auto | injection E as <-; auto].
    + split; [discriminate |]. intros i. rewrite in_app_iff. cbn. split.
      * intros [<- | []]. auto.
      * intros [Hi | [E | []]]; [destruct (H i Hi) | injection E as <-; auto].
  - rewrite (map_get_add_other l lid idx m Hne). specialize (H lid).
    destruct (map_get m lid) as [indices|].
    + destruct H as [Hn H]. split; [exact Hn |].
      intros i. rewrite in_app_iff, (H i). cbn. split; [auto |].
      intros [Hi | [E | []]]; [auto | congruence].
    + intros i. rewrite in_app_iff. cbn.
      intros [Hi | [E | []]]; [exact (H i Hi) | congruence].
Qed.

Lemma fold_holds (rows : list (nat * Z)) :
  forall m done, holds m done -> holds (fold_left map_step rows m) (done ++ rows).
Proof.
  induction rows as [|r rows IH]; intros m done H; cbn [fold_left].
  - rewrite app_nil_r. exact H.
  - replace (done ++ r :: rows) with ((done ++ [r]) ++ rows)
      by (rewrite <- app_assoc; reflexivity).
    apply IH. apply map_step_holds. exact H.
Qed.

Lemma in_enumerate {A : Type} (l : list A) (i : nat) (a : A) :
  In (i, a) (enumerate l) <-> nth_error l i = Some a.
Proof.
  unfold enumerate.
  assert (G : forall s, In (i, a) (combine (seq s (length l)) l)
                        <-> (s <= i)%nat /\ nth_error l (i - s) = Some a).
  { induction l as [|x t IH]; intros s; cbn [length seq combine].
    - cbn. split; [intros [] | intros [_ H]]. destruct (i - s)%nat; discriminate.
    - cbn [In]. rewrite (IH (S s)). split.
      + intros [E | [Hs Hn]].
        * injection E as <- <-. split; [lia |]. rewrite Nat.sub_diag. reflexivity.
        * split; [lia |]. replace (i - s)%nat with (S (i - S s)) by lia. exact Hn.
      + intros [Hs Hn]. destruct (Nat.eq_dec i s) as [-> | Hne].
        * left. rewrite Nat.sub_diag in Hn. cbn in Hn. congruence.
        * right. split; [lia |].
          replace (i - s)%nat with (S (i - S s)) in Hn by lia. exact Hn. }
  rewrite (G O), Nat.sub_0_r. intuition lia.
Qed.

Lemma layer_map_holds (layer_ids : list Z) :
  holds (build_layer_map layer_ids) (enumerate layer_ids).
Proof.
  unfold build_layer_map.
  apply (fold_holds (enumerate layer_ids) [] []). intros lid i H. exact H.
Qed.

Lemma layer_map_get (layer_ids : list Z) (lid : Z) :
  In lid layer_ids ->
  exists indices,
    map_get (build_layer_map layer_ids) lid = Some indices /\
    forall i, In i indices <-> nth_error layer_ids i = Some lid.
Proof.
  intros Hin. pose proof (layer_map_holds layer_ids lid) as H.
  destruct (map_get (build_layer_map layer_ids) lid) as [indices|].
  - exists indices. split; [reflexivity |].
    intros i. destruct H as [_ H]. rewrite (H i). apply in_enumerate.
  - destruct (In_nth_error _ _ Hin) as (i & Hi).
    exfalso. apply (H i). apply in_enumerate. exact Hi.
Qed.

Lemma layer_map_keys (layer_ids : list Z) (lid : Z) :
  In lid (map fst (build_layer_map layer_ids)) <-> In lid layer_ids.
Proof.
  rewrite map_get_key. pose proof (layer_map_holds layer_ids lid) as H.
  destruct (map_get (build_layer_map layer_ids) lid) as [indices|].
  - split; [intros _ | discriminate].
    destruct H as [Hn H]. destruct indices as [|i t]; [congruence |].
    eapply nth_error_In. apply in_enumerate. apply (H i). left. reflexivity.
  - split; [congruence |]. intros Hin.
    destruct (In_nth_error _ _ Hin) as (i & Hi).
    exfalso. apply (H i). apply in_enumerate. exact Hi.
Qed.

Lemma sorted_keys (layer_ids : list Z) :
  sorted_set (map fst (build_layer_map layer_ids)) = sorted_set layer_ids.
Proof.
  apply sorted_unique; try apply sorted_set_sorted.
  intros x. rewrite !sorted_set_in. apply layer_map_keys.
Qed.

(** *** The merge *)

Lemma raw_masks_nth (labels : list (list nat)) (n i : nat) :
  (i < n)%nat ->
  nth_error (raw_masks_of labels n) i = Some (cv_inRange labels i i).
Proof.
  intros Hi. unfold raw_masks_of. rewrite nth_error_map, nth_error_seq.
  destruct (Nat.ltb_spec i n); [reflexivity | lia].
Qed.

Local Abbreviation lit := (fun b : bool => if b then 255 else 0).

Lemma lor_lit (a b : bool) : Z.lor (lit a) (lit b) = lit (a || b).
Proof. destruct a, b; reflexivity. Qed.

Lemma combine_indices_spec (labels : list (list nat)) (centers : list color) :
  forall indices acc c0,
    Forall (fun i => i < length centers)%nat indices ->
    exists m c,
      combine_indices (raw_masks_of labels (length centers)) centers
                      indices acc c0 = inl (m, c) /\
      forall y x l b,
        at2 labels y x = Some l ->
        at2 acc y x = Some (lit b) ->
        at2 m y x = Some (lit (b || existsb (Nat.eqb l) indices)).
Proof.
  induction indices as [|idx rest IH]; intros acc c0 HF; cbn [combine_indices].
  - exists acc, c0. split; [reflexivity |].
    intros y x l b _ H. cbn. rewrite orb_false_r. exact H.
  - inversion HF as [|? ? Hidx HF']; subst.
    rewrite (raw_masks_nth labels (length centers) idx Hidx).
    destruct (nth_error centers idx) as [c|] eqn:Ec.
    2:{ apply nth_error_None in Ec. lia. }
    destruct (IH (cv_bitwise_or acc (cv_inRange labels idx idx))
                 (color_add c0 c) HF') as (m & c' & Hm & Hpix).
    exists m, c'. split; [exact Hm |].
    intros y x l b Hl Hacc. cbn [existsb]. rewrite orb_assoc.
    apply (Hpix y x l (b || Nat.eqb l idx)%bool Hl).
    rewrite (at2_or acc (cv_inRange labels idx idx) y x _ _ Hacc
                    (at2_inRange labels idx y x l Hl)).
    f_equal. apply (lor_lit b (Nat.eqb l idx)).
Qed.

Local Abbreviation uint8 :=
  (fun c : color =>
     let '(b, g, r) := c in
     0 <= b <= 255 /\ 0 <= g <= 255 /\ 0 <= r <= 255).

Local Abbreviation within :=
  (fun (c0 c : color) (n : Z) =>
     let '(a0, a1, a2) := c0 in
     let '(b0, b1, b2) := c in
     (a0 <= b0 <= a0 + 255 * n) /\ (a1 <= b1 <= a1 + 255 * n) /\
     (a2 <= b2 <= a2 + 255 * n)).

Lemma combine_indices_color (raw_masks : list mask) (centers : list color) :
  Forall uint8 centers ->
  forall indices acc c0 m c,
    combine_indices raw_masks centers indices acc c0 = inl (m, c) ->
    within c0 c (Z.of_nat (length indices)).
Proof.
  intros H8. induction indices as [|idx rest IH]; intros acc c0 m c H;
    cbn [combine_indices] in H.
  - injection H as _ <-. destruct c0 as [[a0 a1] a2]. cbn. lia.
  - destruct (nth_error raw_masks idx) as [mi|]; [| discriminate].
    destruct (nth_error centers idx) as [ci|] eqn:Ec; [| discriminate].
    apply IH in H. rewrite Forall_forall in H8.
    pose proof (H8 ci (nth_error_In _ _ Ec)) as Hci.
    destruct c0 as [[a0 a1] a2], c as [[b0 b1] b2], ci as [[d0 d1] d2].
    cbn [length]. rewrite Nat2Z.inj_succ.
    pose proof (Nat2Z.is_nonneg (length rest)) as Hn.
    set (n := Z.of_nat (length rest)) in *. clearbody n.
    unfold color_add in H. cbv beta iota in H, Hci |- *. lia.
Qed.

Lemma color_div_uint8 (c : color) (n : Z) :
  0 < n -> within (0, 0, 0) c n -> uint8 (color_div c n).
Proof.
  intros Hn. destruct c as [[b0 b1] b2]. cbn. intros (H0 & H1 & H2).
  assert (G : forall v, 0 <= v <= 0 + 255 * n -> 0 <= v / n <= 255).
  { intros v Hv. split.
    - apply Z.div_pos; lia.
    - apply Z.div_le_upper_bound; lia. }
  auto.
Qed.

Local Abbreviation owns :=
  (fun (layer_ids : list Z) (l : nat) (lid : Z) =>
     match nth_error layer_ids l with
     | Some k => k =? lid
     | None => false
     end).

Lemma owns_indices (layer_ids : list Z) (lid : Z) (indices : list nat) (l : nat) :
  (forall i, In i indices <-> nth_error layer_ids i = Some lid) ->
  existsb (Nat.eqb l) indices = owns layer_ids l lid.
Proof.
  intros H. apply eq_true_iff_eq. rewrite existsb_exists. split.
  - intros (i & Hi & E). apply Nat.eqb_eq in E. subst i.
    apply H in Hi. rewrite Hi. apply Z.eqb_refl.
  - intros Ho. exists l. split; [| apply Nat.eqb_refl].
    apply H. destruct (nth_error layer_ids l) as [k|]; [| discriminate].
    apply Z.eqb_eq in Ho. congruence.
Qed.

Section MergeLoop.
Context {cv : OpenCV}.
Variables (labels : list (list nat)) (h w : nat).
Variables (centers : list color) (layer_ids : list Z) (min_blob : Z).
Hypothesis Hshape : grid_shape labels h w.
Hypothesis Hlen : (length layer_ids <= length centers)%nat.
Hypothesis Hmin : min_blob <= 0.

Lemma merge_loop_spec :
  forall lids final_masks final_centers total,
    Forall (fun lid => In lid layer_ids) lids ->
    exists new_masks new_centers total',
      merge_loop lids (build_layer_map layer_ids)
                 (raw_masks_of labels (length centers)) centers h w
                 None min_blob final_masks final_centers total
      = inl (final_masks ++ new_masks, final_centers ++ new_centers, total') /\
      length new_masks = length lids /\
      length new_centers = length lids /\
      (Forall uint8 centers -> Forall uint8 new_centers) /\
      forall y x l,
        at2 labels y x = Some l ->
        (forall k lid,
            nth_error lids k = Some lid ->
            exists m, nth_error new_masks k = Some m /\
                      at2 m y x = Some (lit (owns layer_ids l lid))) /\
        (forall b,
            at2 total y x = Some (lit b) ->
            at2 total' y x
            = Some (lit (b || existsb (owns layer_ids l) lids))).
Proof.
  induction lids as [|lid rest IH]; intros fm fc total HF; cbn [merge_loop].
  - exists [], [], total. rewrite !app_nil_r.
    split; [reflexivity |]. split; [reflexivity |]. split; [reflexivity |].
    split; [intros _; constructor |].
    intros y x l Hl. split.
    + intros k lid Hk. destruct k; discriminate.
    + intros b Hb. cbn. rewrite orb_false_r. exact Hb.
  - inversion HF as [|? ? Hin HF']; subst.
    destruct (layer_map_get layer_ids lid Hin) as (indices & Hget & Hidx).
    rewrite Hget.
    assert (HFi : Forall (fun i => i < length centers)%nat indices).
    { apply Forall_forall. intros i Hi. apply Hidx in Hi.
      assert (i < length layer_ids)%nat; [| lia].
      apply nth_error_Some. congruence. }
    destruct (combine_indices_spec labels centers indices (np_zeros h w)
                                   (0, 0, 0) HFi) as (m & c & Hm & Hpix).
    rewrite Hm.
    assert (Hclean : clean_layer_mask None min_blob m = m).
    { unfold clean_layer_mask, filter_small_blobs.
      destruct (Z.leb_spec min_blob 0); [reflexivity | lia]. }
    rewrite Hclean.
    destruct (IH (fm ++ [m])
                 (fc ++ [color_div c (Z.of_nat (length indices))])
                 (cv_bitwise_or total m) HF')
      as (nm & nc & total' & Hrun & Hnm & Hnc & Hcol & Hrest).
    exists (m :: nm), (color_div c (Z.of_nat (length indices)) :: nc), total'.
    split; [rewrite Hrun, <- !app_assoc; reflexivity |].
    split; [cbn; congruence |]. split; [cbn; congruence |].
    split.
    { intros H8. constructor; [| exact (Hcol H8)].
      apply color_div_uint8.
      - destruct (In_nth_error _ _ Hin) as (i & Hi). apply Hidx in Hi.
        destruct indices; [destruct Hi | cbn; lia].
      - exact (combine_indices_color _ centers H8 indices _ _ m c Hm). }
    intros y x l Hl.
    assert (Hmv : at2 m y x = Some (lit (owns layer_ids l lid))).
    { destruct (at2_in_shape labels h w y x l Hshape Hl) as [Hy Hx].
      rewrite (Hpix y x l false Hl (at2_zeros h w y x Hy Hx)).
      cbn [orb]. rewrite (owns_indices layer_ids lid indices l Hidx).
      reflexivity. }
    destruct (Hrest y x l Hl) as [Hmasks Htotal]. split.
    + intros k lid' Hk. destruct k as [|k]; cbn in Hk |- *.
      * injection Hk as <-. exists m. split; [reflexivity | exact Hmv].
      * apply (Hmasks k lid' Hk).
    + intros b Hb. cbn [existsb]. rewrite orb_assoc.
      apply (Htotal (b || owns layer_ids l lid)%bool).
      rewrite (at2_or total m y x _ _ Hb Hmv). f_equal.
      apply (lor_lit b (owns layer_ids l lid)).
Qed.

End MergeLoop.

Lemma covered_iff (layer_ids : list Z) (l : nat) :
  existsb (owns layer_ids l) (sorted_set layer_ids)
  = (l <? length layer_ids)%nat.
Proof.
  apply eq_true_iff_eq. rewrite existsb_exists, Nat.ltb_lt. split.
  - intros (lid & _ & Ho). apply nth_error_Some.
    destruct (nth_error layer_ids l); [discriminate | discriminate].
  - intros Hl. apply nth_error_Some in Hl.
    destruct (nth_error layer_ids l) as [k|] eqn:E; [| congruence].
    exists k. split; [| apply Z.eqb_refl].
    apply sorted_set_in. apply (nth_error_In _ _ E).
Qed.

(** X17.  A manual run without clean-up (denoise strength 0, minimum
    blob size at most 0) on a palette that has a colour for every layer
    id never raises, builds one mask and one colour per distinct layer
    id, in increasing order of the ids, and puts every pixel in exactly
    the mask of the layer its colour is assigned to; the coverage mask
    holds the pixels whose colour has a layer id. *)
Theorem merge_layers_partitions_pixels
        {cv : OpenCV} (labels : list (list nat)) (h w : nat)
        (picked_colors : list color) (layer_ids : list Z) (min_blob : Z) :
  grid_shape labels h w ->
  (length layer_ids <= length picked_colors)%nat ->
  min_blob <= 0 ->
  exists final_masks final_centers total_coverage_mask,
    merge_layers labels h w picked_colors layer_ids None min_blob
    = inl (final_masks, final_centers, total_coverage_mask) /\
    length final_masks = length (sorted_set layer_ids) /\
    length final_centers = length (sorted_set layer_ids) /\
    forall y x l,
      at2 labels y x = Some l ->
      (forall k lid,
          nth_error (sorted_set layer_ids) k = Some lid ->
          exists m,
            nth_error final_masks k = Some m /\
            (nth_error layer_ids l = Some lid -> at2 m y x = Some 255) /\
            (nth_error layer_ids l <> Some lid -> at2 m y x = Some 0)) /\
      ((l < length layer_ids)%nat ->
       at2 total_coverage_mask y x = Some 255) /\
      ((length layer_ids <= l)%nat ->
       at2 total_coverage_mask y x = Some 0).
Proof.
  intros Hshape Hlen Hmin. unfold merge_layers. rewrite sorted_keys.
  assert (HF : Forall (fun lid => In lid layer_ids) (sorted_set layer_ids)).
  { apply Forall_forall. intros lid. apply sorted_set_in. }
  destruct (merge_loop_spec labels h w picked_colors layer_ids min_blob
                            Hshape Hlen Hmin (sorted_set layer_ids)
                            [] [] (np_zeros h w) HF)
    as (nm & nc & total & Hrun & Hnm & Hnc & _ & Hpix).
  exists nm, nc, total. split; [exact Hrun |].
  split; [exact Hnm |]. split; [exact Hnc |].
  intros y x l Hl. destruct (Hpix y x l Hl) as [Hmasks Htotal]. split.
  - intros k lid Hk. destruct (Hmasks k lid Hk) as (m & Hm & Hv).
    exists m. split; [exact Hm |]. split.
    + intros E. rewrite Hv, E, Z.eqb_refl. reflexivity.
    + intros E. rewrite Hv. destruct (nth_error layer_ids l) as [k'|].
      * destruct (Z.eqb_spec k' lid); [congruence | reflexivity].
      * reflexivity.
  - destruct (at2_in_shape labels h w y x l Hshape Hl) as [Hy Hx].
    pose proof (Htotal false (at2_zeros h w y x Hy Hx)) as Ht.
    cbn [orb] in Ht. rewrite covered_iff in Ht. split; intros Hc; rewrite Ht.
    + destruct (Nat.ltb_spec l (length layer_ids)); [reflexivity | lia].
    + destruct (Nat.ltb_spec l (length layer_ids)); [lia | reflexivity].
Qed.

Lemma merge_layers_partitions_pixels_witness :
  exists final_masks final_centers total_coverage_mask,
    merge_layers (cv := Reference.cv) [[0; 1; 2]; [2; 2; 0]]%nat 2 3
                 [(0, 0, 255); (255, 0, 0); (0, 0, 101)] [5; 2; 5] None 0
    = inl (final_masks, final_centers, total_coverage_mask) /\
    length final_masks = length (sorted_set [5; 2; 5]) /\
    length final_centers = length (sorted_set [5; 2; 5]) /\
    forall y x l,
      at2 [[0; 1; 2]; [2; 2; 0]]%nat y x = Some l ->
      (forall k lid,
          nth_error (sorted_set [5; 2; 5]) k = Some lid ->
          exists m,
            nth_error final_masks k = Some m /\
            (nth_error [5; 2; 5] l = Some lid -> at2 m y x = Some 255) /\
            (nth_error [5; 2; 5] l <> Some lid -> at2 m y x = Some 0)) /\
      ((l < length [5; 2; 5])%nat ->
       at2 total_coverage_mask y x = Some 255) /\
      ((length [5; 2; 5] <= l)%nat ->
       at2 total_coverage_mask y x = Some 0).
Proof.
  apply (merge_layers_partitions_pixels
           (cv := Reference.cv) [[0; 1; 2]; [2; 2; 0]]%nat 2 3
           [(0, 0, 255); (255, 0, 0); (0, 0, 101)] [5; 2; 5] 0).
  - split; [reflexivity | repeat constructor].
  - cbn. lia.
  - lia.
Defined.

(** X18.  In the same setting the colour of every layer is an 8-bit
    colour when the picked colours are: the mean of the colours of a
    layer never leaves the range of [uint8]. *)
Theorem merge_layers_colors_are_uint8
        {cv : OpenCV} (labels : list (list nat)) (h w : nat)
        (picked_colors : list color) (layer_ids : list Z) (min_blob : Z)
        (final_masks : list mask) (final_centers : list color)
        (total_coverage_mask : mask) :
  grid_shape labels h w ->
  (length layer_ids <= length picked_colors)%nat ->
  min_blob <= 0 ->
  (forall b g r, In (b, g, r) picked_colors ->
                 0 <= b <= 255 /\ 0 <= g <= 255 /\ 0 <= r <= 255) ->
  merge_layers labels h w picked_colors layer_ids None min_blob
  = inl (final_masks, final_centers, total_coverage_mask) ->
  forall b g r, In (b, g, r) final_centers ->
                0 <= b <= 255 /\ 0 <= g <= 255 /\ 0 <= r <= 255.
Proof.
  intros Hshape Hlen Hmin H8 Hrun. unfold merge_layers in Hrun.
  rewrite sorted_keys in Hrun.
  assert (HF : Forall (fun lid => In lid layer_ids) (sorted_set layer_ids)).
  { apply Forall_forall. intros lid. apply sorted_set_in. }
  destruct (merge_loop_spec labels h w picked_colors layer_ids min_blob
                            Hshape Hlen Hmin (sorted_set layer_ids)
                            [] [] (np_zeros h w) HF)
    as (nm & nc & total & Hrun' & _ & _ & Hcol & _).
  rewrite Hrun' in Hrun. cbn [app] in Hrun. injection Hrun as _ <- _.
  assert (H8' : Forall uint8 picked_colors).
  { apply Forall_forall. intros [[b g] r]. apply H8. }
  specialize (Hcol H8'). rewrite Forall_forall in Hcol.
  intros b g r Hin. exact (Hcol (b, g, r) Hin).
Qed.

Lemma merge_layers_colors_are_uint8_witness :
  0 <= 127 <= 255 /\ 0 <= 0 <= 255 /\ 0 <= 178 <= 255.
Proof.
  apply (merge_layers_colors_are_uint8
           (cv := Reference.cv) [[0; 1; 2]; [2; 2; 0]]%nat 2 3
           [(0, 0, 255); (255, 0, 0); (255, 0, 101)] [5; 2; 5] 0
           [[[0; 255; 0]; [0; 0; 0]]; [[255; 0; 255]; [255; 255; 255]]]
           [(255, 0, 0); (127, 0, 178)]
           [[255; 255; 255]; [255; 255; 255]]).
  - split; [reflexivity | repeat constructor].
  - cbn. lia.
  - lia.
  - intros b g r [E | [E | [E | []]]]; injection E as <- <- <-; lia.
  - reflexivity.
  - right. left. reflexivity.
Defined.

(** *** A palette shorter than the list of layer ids *)

Lemma combine_indices_raises (raw_masks : list mask) (centers : list color) :
  length raw_masks = length centers ->
  forall indices acc c0,
    Exists (fun i => length centers <= i)%nat indices ->
    combine_indices raw_masks centers indices acc c0 = inr RaisedIndexError.
Proof.
  intros Hlen. induction indices as [|idx rest IH]; intros acc c0 HE;
    [inversion HE |]. cbn [combine_indices].
  destruct (nth_error raw_masks idx) as [mi|] eqn:Em; [| reflexivity].
  destruct (nth_error centers idx) as [ci|] eqn:Ec; [| reflexivity].
  apply IH. inversion HE as [? ? Hbad | ? ? Hrest]; subst; [| exact Hrest].
  assert (idx < length centers)%nat; [| lia].
  apply nth_error_Some. congruence.
Qed.

Lemma combine_indices_raised (raw_masks : list mask) (centers : list color) :
  forall indices acc c0 e,
    combine_indices raw_masks centers indices acc c0 = inr e ->
    e = RaisedIndexError.
Proof.
  induction indices as [|idx rest IH]; intros acc c0 e H;
    cbn [combine_indices] in H; [discriminate |].
  destruct (nth_error raw_masks idx) as [mi|]; [| congruence].
  destruct (nth_error centers idx) as [ci|]; [| congruence].
  exact (IH _ _ e H).
Qed.

Section ShortPalette.
Context {cv : OpenCV}.
Variables (raw_masks : list mask) (centers : list color) (h w : nat).
Variables (layer_ids : list Z) (kernel : option mask) (min_blob : Z).
Hypothesis Hraw : length raw_masks = length centers.

Lemma merge_loop_raises :
  forall lids final_masks final_centers total,
    Forall (fun lid => In lid layer_ids) lids ->
    Exists (fun lid => exists i, nth_error layer_ids i = Some lid /\
                                 (length centers <= i)%nat) lids ->
    merge_loop lids (build_layer_map layer_ids) raw_masks centers h w
               kernel min_blob final_masks final_centers total
    = inr RaisedIndexError.
Proof.
  induction lids as [|lid rest IH]; intros fm fc total HF HE;
    [inversion HE |]. cbn [merge_loop].
  inversion HF as [|? ? Hin HF']; subst.
  destruct (layer_map_get layer_ids lid Hin) as (indices & Hget & Hidx).
  rewrite Hget.
  destruct (combine_indices raw_masks centers indices (np_zeros h w) (0, 0, 0))
    as [[m c] | e] eqn:Ecomb.
  - apply IH; [exact HF' |].
    inversion HE as [? ? (i & Hi & Hbig) | ? ? Hrest]; subst; [| exact Hrest].
    exfalso.
    rewrite (combine_indices_raises raw_masks centers Hraw indices) in Ecomb;
      [discriminate |].
    apply Exists_exists. exists i. split; [apply Hidx; exact Hi | exact Hbig].
  - f_equal. exact (combine_indices_raised _ _ _ _ _ e Ecomb).
Qed.

End ShortPalette.

(** X19.  When there are more layer ids than picked colours the merge
    raises [IndexError], whatever the clean-up settings, and returns no
    layer at all. *)
Theorem merge_layers_raises_on_short_palette
        {cv : OpenCV} (labels : list (list nat)) (h w : nat)
        (picked_colors : list color) (layer_ids : list Z)
        (kernel : option mask) (min_blob : Z) :
  (length picked_colors < length layer_ids)%nat ->
  merge_layers labels h w picked_colors layer_ids kernel min_blob
  = inr RaisedIndexError.
Proof.
  intros Hlen. unfold merge_layers. rewrite sorted_keys.
  apply merge_loop_raises.
  - unfold raw_masks_of. rewrite length_map, length_seq. reflexivity.
  - apply Forall_forall. intros lid. apply sorted_set_in.
  - destruct (nth_error layer_ids (length picked_colors)) as [lid|] eqn:E.
    2:{ apply nth_error_None in E. lia. }
    apply Exists_exists. exists lid. split.
    + apply sorted_set_in. exact (nth_error_In _ _ E).
    + exists (length picked_colors). split; [exact E | lia].
Qed.

Lemma merge_layers_raises_on_short_palette_witness :
  merge_layers (cv := Reference.cv) [[0; 0]]%nat 1 2 [(0, 0, 255)] [1; 2]
               None 0
  = inr RaisedIndexError.
Proof.
  apply (merge_layers_raises_on_short_palette
           (cv := Reference.cv) [[0; 0]]%nat 1 2 [(0, 0, 255)] [1; 2] None 0).
  cbn. lia.
Defined.

(** *** A full palette leaves no orphans *)

Lemma grid_shape_or (a b : mask) (h w : nat) :
  grid_shape a h w -> grid_shape b h w ->
  grid_shape (cv_bitwise_or a b) h w.
Proof.
  intros [Ha Wa] [Hb Wb]. unfold cv_bitwise_or, map2. split.
  - rewrite length_map, length_combine. lia.
  - apply Forall_forall. intros row Hrow. apply in_map_iff in Hrow.
    destruct Hrow as ([ra rb] & <- & Hin). cbn [fst snd].
    rewrite Forall_forall in Wa, Wb.
    rewrite length_map, length_combine.
    rewrite (Wa ra (in_combine_l _ _ _ _ Hin)).
    rewrite (Wb rb (in_combine_r _ _ _ _ Hin)). lia.
Qed.

Lemma grid_shape_zeros (h w : nat) : grid_shape (np_zeros h w) h w.
Proof.
  unfold np_zeros. split; [apply repeat_length |].
  apply Forall_forall. intros row Hrow. apply repeat_spec in Hrow. subst row.
  apply repeat_length.
Qed.

Lemma grid_shape_map {A B : Type} (f : A -> B) (g : list (list A)) (h w : nat) :
  grid_shape g h w -> grid_shape (map (map f) g) h w.
Proof.
  intros [Hh Hw]. split; [rewrite length_map; exact Hh |].
  apply Forall_forall. intros row Hrow. apply in_map_iff in Hrow.
  destruct Hrow as (r & <- & Hin). rewrite length_map.
  rewrite Forall_forall in Hw. exact (Hw r Hin).
Qed.

Lemma at2_defined {A : Type} (g : list (list A)) (h w y x : nat) :
  grid_shape g h w -> (y < h)%nat -> (x < w)%nat ->
  exists a, at2 g y x = Some a.
Proof.
  intros [Hh Hw] Hy Hx. unfold at2.
  destruct (nth_error g y) as [row|] eqn:E.
  2:{ apply nth_error_None in E. lia. }
  rewrite Forall_forall in Hw. pose proof (Hw row (nth_error_In _ _ E)) as Hr.
  destruct (nth_error row x) as [a|] eqn:Ea; [exists a; reflexivity |].
  apply nth_error_None in Ea. lia.
Qed.

Lemma in_at2 {A : Type} (g : list (list A)) (a : A) :
  In a (concat g) -> exists y x, at2 g y x = Some a.
Proof.
  intros H. apply in_concat in H. destruct H as (row & Hrow & Ha).
  destruct (In_nth_error _ _ Hrow) as (y & Hy).
  destruct (In_nth_error _ _ Ha) as (x & Hx).
  exists y, x. unfold at2. rewrite Hy. exact Hx.
Qed.

Lemma no_orphans_of_full_coverage (total : mask) :
  (forall v, In v (concat total) -> v = 255) ->
  cv_countNonZero (cv_bitwise_not total) = 0%nat.
Proof.
  intros H. unfold cv_countNonZero, cv_bitwise_not.
  assert (G : forall l, (forall v, In v l -> v = 255) ->
                        filter (fun v => negb (v =? 0))
                               (map (fun v => Z.lxor v 255) l) = []).
  { induction l as [|v l IH]; intros Hl; [reflexivity |].
    cbn [map filter]. rewrite (Hl v (or_introl eq_refl)). cbn.
    apply IH. intros v' Hv'. apply Hl. right. exact Hv'. }
  induction total as [|row rest IH]; [reflexivity |].
  cbn [map concat]. rewrite filter_app, length_app.
  rewrite G.
  - cbn [length Nat.add]. apply IH. intros v Hv. apply H.
    cbn [concat]. apply in_or_app. right. exact Hv.
  - intros v Hv. apply H. cbn [concat]. apply in_or_app. left. exact Hv.
Qed.

Section MergeShape.
Context {cv : OpenCV}.
Variables (labels : list (list nat)) (h w : nat).
Variables (centers : list color) (layer_ids : list Z) (min_blob : Z).
Hypothesis Hshape : grid_shape labels h w.
Hypothesis Hmin : min_blob <= 0.

Lemma combine_indices_shape (n : nat) :
  forall indices acc c0 m c,
    grid_shape acc h w ->
    combine_indices (raw_masks_of labels n) centers indices acc c0
    = inl (m, c) ->
    grid_shape m h w.
Proof.
  induction indices as [|idx rest IH]; intros acc c0 m c Hacc H;
    cbn [combine_indices] in H.
  - injection H as <- _. exact Hacc.
  - destruct (nth_error (raw_masks_of labels n) idx) as [mi|] eqn:Em;
      [| discriminate].
    destruct (nth_error centers idx) as [ci|]; [| discriminate].
    apply (IH _ _ m c) in H; [exact H |].
    apply grid_shape_or; [exact Hacc |].
    unfold raw_masks_of in Em. rewrite nth_error_map in Em.
    destruct (nth_error (seq 0 n) idx) as [j|]; [| discriminate].
    injection Em as <-. unfold cv_inRange. apply grid_shape_map. exact Hshape.
Qed.

Lemma merge_loop_shape (n : nat) :
  forall lids final_masks final_centers total fm fc total',
    grid_shape total h w ->
    merge_loop lids (build_layer_map layer_ids) (raw_masks_of labels n)
               centers h w None min_blob final_masks final_centers total
    = inl (fm, fc, total') ->
    grid_shape total' h w.
Proof.
  induction lids as [|lid rest IH]; intros fm0 fc0 total fm fc total' Ht H;
    cbn [merge_loop] in H.
  - injection H as _ _ <-. exact Ht.
  - destruct (map_get (build_layer_map layer_ids) lid) as [indices|];
      [| discriminate].
    destruct (combine_indices (raw_masks_of labels n) centers indices
                              (np_zeros h w) (0, 0, 0))
      as [[m c] | e] eqn:Ec; [| discriminate].
    apply (IH _ _ _ fm fc total') in H; [exact H |].
    apply grid_shape_or; [exact Ht |].
    unfold clean_layer_mask, filter_small_blobs.
    destruct (Z.leb_spec min_blob 0); [| lia].
    exact (combine_indices_shape n indices _ _ m c (grid_shape_zeros h w) Ec).
Qed.

End MergeShape.

Lemma merge_layers_total
      {cv : OpenCV} (labels : list (list nat)) (h w : nat)
      (picked_colors : list color) (layer_ids : list Z) (min_blob : Z) :
  grid_shape labels h w ->
  (length layer_ids <= length picked_colors)%nat ->
  min_blob <= 0 ->
  exists final_masks final_centers total,
    merge_layers labels h w picked_colors layer_ids None min_blob
    = inl (final_masks, final_centers, total) /\
    grid_shape total h w /\
    forall y x l,
      at2 labels y x = Some l ->
      at2 total y x = Some (lit (l <? length layer_ids)%nat).
Proof.
  intros Hshape Hlen Hmin. unfold merge_layers. rewrite sorted_keys.
  assert (HF : Forall (fun lid => In lid layer_ids) (sorted_set layer_ids)).
  { apply Forall_forall. intros lid. apply sorted_set_in. }
  destruct (merge_loop_spec labels h w picked_colors layer_ids min_blob
                            Hshape Hlen Hmin (sorted_set layer_ids)
                            [] [] (np_zeros h w) HF)
    as (nm & nc & total & Hrun & _ & _ & _ & Hpix).
  exists nm, nc, total. split; [exact Hrun |]. split.
  - exact (merge_loop_shape labels h w picked_colors layer_ids min_blob
                            Hshape Hmin (length picked_colors)
                            (sorted_set layer_ids) [] [] (np_zeros h w)
                            _ _ total (grid_shape_zeros h w) Hrun).
  - intros y x l Hl. destruct (Hpix y x l Hl) as [_ Htotal].
    destruct (at2_in_shape labels h w y x l Hshape Hl) as [Hy Hx].
    pose proof (Htotal false (at2_zeros h w y x Hy Hx)) as Ht.
    cbn [orb] in Ht. rewrite covered_iff in Ht. exact Ht.
Qed.

Lemma labels_manual_in_range (img : list (list color)) (w : nat)
      (picked_colors : list color) (y x l : nat) :
  picked_colors <> [] ->
  Forall (fun row => length row = w) img ->
  at2 (ColorAssigner.labels_manual img (length img) w picked_colors) y x
  = Some l ->
  (l < length picked_colors)%nat.
Proof.
  intros Hne Hrect. unfold ColorAssigner.labels_manual.
  rewrite (ColorAssignerFacts.reshape_map_concat _ _ _ Hrect), at2_map.
  destruct (at2 img y x) as [p|]; [| discriminate]. cbn. intros E.
  injection E as <-.
  destruct (ColorAssignerFacts.nearest_lowest_argmin picked_colors p Hne)
    as (ci & Hci & _).
  apply nth_error_Some. congruence.
Qed.

Lemma labels_manual_shape (img : list (list color)) (w : nat)
      (picked_colors : list color) :
  Forall (fun row => length row = w) img ->
  grid_shape (ColorAssigner.labels_manual img (length img) w picked_colors)
             (length img) w.
Proof.
  intros Hrect. unfold ColorAssigner.labels_manual.
  rewrite (ColorAssignerFacts.reshape_map_concat _ _ _ Hrect).
  apply grid_shape_map. split; [reflexivity | exact Hrect].
Qed.

(** X20.  Steps 1 to 4 of a manual run with clean-up off (denoise
    strength 0, minimum blob size at most 0) and one layer id per picked
    colour: the merge succeeds and leaves no pixel uncovered, so the
    orphan detection adds no layer and no colour. *)
Theorem full_palette_leaves_no_orphans
        {cv : OpenCV} (rng : nat -> color) (img : list (list color))
        (w : nat) (picked_colors : list color) (layer_ids : list Z)
        (min_blob : Z) :
  picked_colors <> [] ->
  Forall (fun row => length row = w) img ->
  length layer_ids = length picked_colors ->
  min_blob <= 0 ->
  exists final_masks final_centers total_coverage_mask,
    merge_layers (ColorAssigner.labels_manual img (length img) w picked_colors)
                 (length img) w picked_colors layer_ids None min_blob
    = inl (final_masks, final_centers, total_coverage_mask) /\
    orphan_step rng true None min_blob total_coverage_mask
                final_masks (PyList final_centers)
    = Ok (final_masks, PyList final_centers).
Proof.
  intros Hne Hrect Hlen Hmin.
  set (labels := ColorAssigner.labels_manual img (length img) w picked_colors).
  pose proof (labels_manual_shape img w picked_colors Hrect) as Hshape.
  fold labels in Hshape.
  assert (Hle : (length layer_ids <= length picked_colors)%nat) by lia.
  destruct (merge_layers_total labels (length img) w picked_colors layer_ids
                               min_blob Hshape Hle Hmin)
    as (fm & fc & total & Hrun & Htshape & Hcov).
  exists fm, fc, total. split; [exact Hrun |].
  unfold orphan_step, clean_orphan_mask, filter_small_blobs.
  destruct (Z.leb_spec min_blob 0); [| lia].
  rewrite no_orphans_of_full_coverage; [reflexivity |].
  intros v Hv. destruct (in_at2 total v Hv) as (y & x & Hyx).
  destruct (at2_in_shape total (length img) w y x v Htshape Hyx) as [Hy Hx].
  destruct (at2_defined labels (length img) w y x Hshape Hy Hx) as (l & Hl).
  pose proof (labels_manual_in_range img w picked_colors y x l Hne Hrect Hl)
    as Hrange.
  rewrite (Hcov y x l Hl) in Hyx.
  destruct (Nat.ltb_spec l (length layer_ids)); [congruence | lia].
Qed.

Lemma full_palette_leaves_no_orphans_witness :
  exists final_masks final_centers total_coverage_mask,
    merge_layers (cv := Reference.cv)
                 (ColorAssigner.labels_manual
                    [[(0, 0, 255); (250, 5, 0)]; [(9, 9, 9); (0, 0, 200)]]
                    (length [[(0, 0, 255); (250, 5, 0)];
                             [(9, 9, 9); (0, 0, 200)]]) 2
                    [(0, 0, 250); (255, 0, 0)])
                 (length [[(0, 0, 255); (250, 5, 0)];
                          [(9, 9, 9); (0, 0, 200)]]) 2
                 [(0, 0, 250); (255, 0, 0)] [1; 2] None 0
    = inl (final_masks, final_centers, total_coverage_mask) /\
    orphan_step (cv := Reference.cv) (fun _ => (1, 2, 3)) true None 0
                total_coverage_mask final_masks (PyList final_centers)
    = Ok (final_masks, PyList final_centers).
Proof.
  apply (full_palette_leaves_no_orphans
           (cv := Reference.cv) (fun _ => (1, 2, 3))
           [[(0, 0, 255); (250, 5, 0)]; [(9, 9, 9); (0, 0, 200)]] 2
           [(0, 0, 250); (255, 0, 0)] [1; 2] 0).
  - discriminate.
  - repeat constructor.
  - reflexivity.
  - lia.
Defined.

End LayerMergeFacts.

Module HexFacts.

Lemma string_app_inj (s1 : string) :
  forall s2 t1 t2,
    String.length s1 = String.length s2 ->
    (s1 ++ t1)%string = (s2 ++ t2)%string -> s1 = s2 /\ t1 = t2.
Proof.
  induction s1 as [|c s1 IH]; intros [|c2 s2] t1 t2 Hl H; cbn in Hl;
    try discriminate.
  - split; [reflexivity | exact H].
  - cbn in H. injection H as -> H. injection Hl as Hl.
    destruct (IH s2 t1 t2 Hl H) as [-> ->]. split; reflexivity.
Qed.

Lemma length_string_app (s t : string) :
  String.length (s ++ t)%string = (String.length s + String.length t)%nat.
Proof. induction s as [|c s IH]; cbn; [reflexivity | rewrite IH; reflexivity]. Qed.

Lemma channel_cases (v : Z) :
  0 <= v <= 255 -> In (Z.to_nat v) (seq 0 256).
Proof. intros H. apply in_seq. lia. Qed.

Lemma hex2_length (v : Z) : 0 <= v <= 255 -> String.length (hex2 v) = 2%nat.
Proof.
  intros H.
  assert (G : forallb (fun n => Nat.eqb (String.length (hex2 (Z.of_nat n))) 2)
                      (seq 0 256) = true) by (vm_compute; reflexivity).
  rewrite forallb_forall in G. specialize (G _ (channel_cases v H)).
  rewrite Z2Nat.id in G by lia. apply Nat.eqb_eq. exact G.
Qed.

Lemma hex2_inj (a b : Z) :
  0 <= a <= 255 -> 0 <= b <= 255 -> hex2 a = hex2 b -> a = b.
Proof.
  intros Ha Hb E.
  assert (G : forallb
                (fun n =>
                   forallb (fun m =>
                              implb (String.eqb (hex2 (Z.of_nat n))
                                                (hex2 (Z.of_nat m)))
                                    (Nat.eqb n m))
                           (seq 0 256))
                (seq 0 256) = true) by (vm_compute; reflexivity).
  rewrite forallb_forall in G. specialize (G _ (channel_cases a Ha)).
  rewrite forallb_forall in G. specialize (G _ (channel_cases b Hb)).
  rewrite !Z2Nat.id in G by lia.
  apply String.eqb_eq in E. rewrite E in G. cbn in G.
  apply Nat.eqb_eq in G. lia.
Qed.

(** X21.  On 8-bit colours [bgr_to_hex] gives a string of seven
    characters that identifies the colour: two colours with the same
    string are the same colour. *)
Theorem bgr_to_hex_identifies_color (a b : color) :
  (let '(a0, a1, a2) := a in
   0 <= a0 <= 255 /\ 0 <= a1 <= 255 /\ 0 <= a2 <= 255) ->
  (let '(b0, b1, b2) := b in
   0 <= b0 <= 255 /\ 0 <= b1 <= 255 /\ 0 <= b2 <= 255) ->
  String.length (bgr_to_hex a) = 7%nat /\
  (bgr_to_hex a = bgr_to_hex b -> a = b).
Proof.
  destruct a as [[a0 a1] a2], b as [[b0 b1] b2].
  intros (Ha0 & Ha1 & Ha2) (Hb0 & Hb1 & Hb2). unfold bgr_to_hex. split.
  - cbn [String.append String.length].
    rewrite !length_string_app, !hex2_length by assumption. reflexivity.
  - intros E. cbn [String.append] in E. injection E as E.
    apply string_app_inj in E; [| rewrite !hex2_length by assumption; reflexivity].
    destruct E as [E2 E].
    apply string_app_inj in E; [| rewrite !hex2_length by assumption; reflexivity].
    destruct E as [E1 E0].
    apply hex2_inj in E0, E1, E2; try assumption. congruence.
Qed.

Lemma bgr_to_hex_identifies_color_witness :
  String.length (bgr_to_hex (0, 128, 255)) = 7%nat /\
  (bgr_to_hex (0, 128, 255) = bgr_to_hex (0, 128, 255) ->
   (0, 128, 255) = (0, 128, 255)).
Proof.
  apply (bgr_to_hex_identifies_color (0, 128, 255) (0, 128, 255)); lia.
Defined.

End HexFacts.

Module SelectionFacts.
Import Palette Selection.

Lemma nth_error_set (l : list bool) (k j : nat) :
  (k < length l)%nat ->
  nth_error (firstn k l ++ true :: skipn (S k) l) j
  = if (j =? k)%nat then Some true else nth_error l j.
Proof.
  intros Hk.
  assert (Hf : length (firstn k l) = k) by (rewrite length_firstn; lia).
  destruct (Nat.eqb_spec j k) as [-> | Hne].
  - rewrite nth_error_app2 by lia. rewrite Hf, Nat.sub_diag. reflexivity.
  - destruct (Nat.lt_ge_cases j k) as [Hlt | Hge].
    + rewrite nth_error_app1 by lia. rewrite nth_error_firstn.
      destruct (Nat.ltb_spec j k); [reflexivity | lia].
    + rewrite nth_error_app2 by lia. rewrite Hf.
      replace (j - k)%nat with (S (j - S k)) by lia. cbn [nth_error].
      rewrite nth_error_skipn. f_equal. lia.
Qed.

Lemma set_true_ok (l : list bool) (k : nat) :
  (k < length l)%nat ->
  set_true l (Z.of_nat k) = Some (firstn k l ++ true :: skipn (S k) l).
Proof.
  intros Hk. unfold set_true.
  destruct (Z.ltb_spec (Z.of_nat k) 0); [lia |].
  destruct (Z.ltb_spec (Z.of_nat k) 0); [lia |].
  destruct (Z.leb_spec (Z.of_nat (length l)) (Z.of_nat k)); [lia |].
  cbn [orb]. rewrite Nat2Z.id. reflexivity.
Qed.

Lemma select_from_spec :
  forall count l i,
    (i + count <= length l)%nat ->
    exists l',
      select_from l (Z.of_nat i) count = (l', true) /\
      length l' = length l /\
      forall j, nth_error l' j
                = if ((i <=? j) && (j <? i + count))%nat then Some true
                  else nth_error l j.
Proof.
  induction count as [|count IH]; intros l i Hle; cbn [select_from].
  - exists l. split; [reflexivity |]. split; [reflexivity |].
    intros j. destruct (Nat.leb_spec i j), (Nat.ltb_spec j (i + 0));
      cbn; try reflexivity. lia.
  - rewrite (set_true_ok l i) by lia.
    set (l1 := firstn i l ++ true :: skipn (S i) l).
    assert (Hl1 : length l1 = length l).
    { unfold l1. rewrite length_app, length_firstn. cbn [length].
      rewrite length_skipn. lia. }
    replace (Z.of_nat i + 1) with (Z.of_nat (S i)) by lia.
    destruct (IH l1 (S i)) as (l' & Hrun & Hlen & Hnth); [lia |].
    exists l'. split; [exact Hrun |]. split; [lia |].
    intros j. rewrite (Hnth j). unfold l1. rewrite (nth_error_set l i j) by lia.
    destruct (Nat.leb_spec (S i) j), (Nat.ltb_spec j (S i + count)),
      (Nat.leb_spec i j), (Nat.ltb_spec j (i + S count)),
      (Nat.eqb_spec j i); cbn; try reflexivity; lia.
Qed.

Lemma shift_click_spec (p : palette) (index : Z) (event : option Z) :
  shift_held event = true ->
  0 <= last_select_index p < Z.of_nat (length (select_vars p)) ->
  0 <= index < Z.of_nat (length (select_vars p)) ->
  exists selects,
    handle_click_selection p index event
    = Done (mk_palette (picked_colors p) (layer_vars p) selects
                       (last_select_index p)) /\
    length selects = length (select_vars p) /\
    forall k,
      (Z.min (last_select_index p) index <= Z.of_nat k
       <= Z.max (last_select_index p) index ->
       nth_error selects k = Some true) /\
      (~ (Z.min (last_select_index p) index <= Z.of_nat k
          <= Z.max (last_select_index p) index) ->
       nth_error selects k = nth_error (select_vars p) k).
Proof.
  intros Hshift Hlast Hindex. unfold handle_click_selection. rewrite Hshift.
  destruct (Z.eqb_spec (last_select_index p) (-1)) as [E | _]; [lia |].
  cbn [negb].
  cbv zeta.
  pose (lo := Z.to_nat (Z.min (last_select_index p) index)).
  pose (count := Z.to_nat (Z.max (last_select_index p) index + 1
                           - Z.min (last_select_index p) index)).
  destruct (select_from_spec count (select_vars p) lo)
    as (l' & Hrun & Hlen & Hnth); [unfold lo, count; lia |].
  replace (Z.of_nat lo) with (Z.min (last_select_index p) index) in Hrun
    by (unfold lo; lia).
  fold count. rewrite Hrun.
  exists l'. split; [reflexivity |]. split; [exact Hlen |].
  intros k. rewrite (Hnth k). split; intros Hk.
  - destruct (Nat.leb_spec lo k), (Nat.ltb_spec k (lo + count));
      cbn; try reflexivity; unfold lo, count in *; lia.
  - destruct (Nat.leb_spec lo k), (Nat.ltb_spec k (lo + count));
      cbn; try reflexivity. exfalso. apply Hk. unfold lo, count in *. lia.
Qed.

(** X22.  A click with the shift key held, with an anchor row set by an
    earlier plain click, selects every row from the anchor to the
    clicked row inclusive, in either direction; the rows outside keep
    their selection, and the anchor, the colours and the layer numbers
    stay as they are. *)
Theorem shift_click_selects_range
        (p : palette) (index : Z) (event : option Z) :
  shift_held event = true ->
  0 <= last_select_index p < Z.of_nat (length (select_vars p)) ->
  0 <= index < Z.of_nat (length (select_vars p)) ->
  exists selects,
    handle_click_selection p index event
    = Done (mk_palette (picked_colors p) (layer_vars p) selects
                       (last_select_index p)) /\
    length selects = length (select_vars p) /\
    forall k,
      (Z.min (last_select_index p) index <= Z.of_nat k
       <= Z.max (last_select_index p) index ->
       nth_error selects k = Some true) /\
      (~ (Z.min (last_select_index p) index <= Z.of_nat k
          <= Z.max (last_select_index p) index) ->
       nth_error selects k = nth_error (select_vars p) k).
Proof.
  exact (shift_click_spec p index event).
Qed.

Lemma shift_click_selects_range_witness :
  exists selects,
    handle_click_selection
      (mk_palette [(1, 1, 1); (2, 2, 2); (3, 3, 3); (4, 4, 4)] [1; 2; 3; 4]
                  [false; false; false; false] 2)
      0 (Some 1)
    = Done (mk_palette [(1, 1, 1); (2, 2, 2); (3, 3, 3); (4, 4, 4)]
                       [1; 2; 3; 4] selects 2) /\
    length selects = 4%nat /\
    forall k,
      (Z.min 2 0 <= Z.of_nat k <= Z.max 2 0 ->
       nth_error selects k = Some true) /\
      (~ (Z.min 2 0 <= Z.of_nat k <= Z.max 2 0) ->
       nth_error selects k
       = nth_error [false; false; false; false] k).
Proof.
  apply (shift_click_selects_range
           (mk_palette [(1, 1, 1); (2, 2, 2); (3, 3, 3); (4, 4, 4)]
                       [1; 2; 3; 4] [false; false; false; false] 2)
           0 (Some 1)).
  - reflexivity.
  - cbn. lia.
  - cbn. lia.
Defined.

(** X23.  Selecting a range and assigning it: after a plain click on
    row [a], a shift click on row [b] and [apply_bulk_layer], all rows
    from [a] to [b] share one layer number, no row is selected any more,
    and the colours are unchanged. *)
Theorem range_then_bulk_layer_groups_rows
        (p : palette) (a b target : Z) (state : Z) :
  aligned p ->
  shift_held (Some state) = true ->
  0 <= a < Z.of_nat (length (picked_colors p)) ->
  0 <= b < Z.of_nat (length (picked_colors p)) ->
  exists p1 p2 p3,
    handle_click_selection p a None = Done p1 /\
    handle_click_selection p1 b (Some state) = Done p2 /\
    apply_bulk_layer target p2 = Done p3 /\
    picked_colors p3 = picked_colors p /\
    aligned p3 /\
    Forall (fun s => s = false) (select_vars p3) /\
    forall i j,
      Z.min a b <= Z.of_nat i <= Z.max a b ->
      Z.min a b <= Z.of_nat j <= Z.max a b ->
      nth_error (layer_vars p3) i = nth_error (layer_vars p3) j.
Proof.
  intros [Hl Hs] Hshift Ha Hb.
  set (p1 := mk_palette (picked_colors p) (layer_vars p) (select_vars p) a).
  destruct (shift_click_spec p1 b (Some state) Hshift)
    as (selects & Hrun & Hlen & Hsel); cbn [p1 select_vars last_select_index];
    try lia.
  cbn [p1 picked_colors layer_vars select_vars last_select_index]
    in Hrun, Hlen, Hsel.
  set (p2 := mk_palette (picked_colors p) (layer_vars p) selects a) in *.
  assert (Hal : aligned p2).
  { unfold aligned, p2. cbn. lia. }
  destruct (PaletteOpsFacts.bulk_layer_groups target p2 Hal)
    as (p3 & Hbulk & Hal3 & Hcol & Hclear & Hsame & _).
  exists p1, p2, p3. split; [reflexivity |]. split; [exact Hrun |].
  split; [exact Hbulk |]. split; [exact Hcol |]. split; [exact Hal3 |].
  split; [exact Hclear |].
  intros i j Hi Hj. apply Hsame; cbn [p2 select_vars]; apply Hsel; assumption.
Qed.

Lemma range_then_bulk_layer_groups_rows_witness :
  exists p1 p2 p3,
    handle_click_selection
      (mk_palette [(1, 1, 1); (2, 2, 2); (3, 3, 3)] [1; 2; 3]
                  [false; false; false] (-1)) 2 None = Done p1 /\
    handle_click_selection p1 1 (Some 1) = Done p2 /\
    apply_bulk_layer 9 p2 = Done p3 /\
    picked_colors p3
    = picked_colors (mk_palette [(1, 1, 1); (2, 2, 2); (3, 3, 3)] [1; 2; 3]
                                [false; false; false] (-1)) /\
    aligned p3 /\
    Forall (fun s => s = false) (select_vars p3) /\
    forall i j,
      Z.min 2 1 <= Z.of_nat i <= Z.max 2 1 ->
      Z.min 2 1 <= Z.of_nat j <= Z.max 2 1 ->
      nth_error (layer_vars p3) i = nth_error (layer_vars p3) j.
Proof.
  apply (range_then_bulk_layer_groups_rows
           (mk_palette [(1, 1, 1); (2, 2, 2); (3, 3, 3)] [1; 2; 3]
                       [false; false; false] (-1)) 2 1 9 1).
  - split; reflexivity.
  - reflexivity.
  - cbn. lia.
  - cbn. lia.
Defined.

End SelectionFacts.

Module ProjectFacts.
Import Palette Project.

Lemma restore_loop_spec (saved : list Z) :
  forall indices lv sv,
    restore_loop indices saved lv sv
    = (lv ++ map (fun i => if (i <? length saved)%nat then nth i saved 1
                           else 1) indices,
       sv ++ repeat false (length indices)).
Proof.
  induction indices as [|i rest IH]; intros lv sv; cbn [restore_loop].
  - cbn. rewrite !app_nil_r. reflexivity.
  - rewrite IH, <- !app_assoc. reflexivity.
Qed.

Lemma firstn_S_nth {A : Type} (d : A) (l : list A) :
  forall n, (n < length l)%nat -> firstn (S n) l = firstn n l ++ [nth n l d].
Proof.
  induction l as [|a t IH]; intros n Hn; [cbn in Hn; lia |].
  destruct n as [|n]; [reflexivity |].
  cbn [length] in Hn. cbn [firstn nth app].
  change (a :: firstn (S n) t = a :: (firstn n t ++ [nth n t d])).
  f_equal. apply IH. lia.
Qed.

Lemma restored_layers (saved : list Z) (n : nat) :
  map (fun i => if (i <? length saved)%nat then nth i saved 1 else 1)
      (seq 0 n)
  = firstn n saved ++ repeat 1 (n - length saved).
Proof.
  induction n as [|n IH]; [reflexivity |].
  rewrite seq_S, map_app, IH. cbn [Nat.add map].
  destruct (Nat.ltb_spec n (length saved)) as [Hlt | Hge].
  - rewrite (firstn_S_nth 1 saved n Hlt).
    replace (n - length saved)%nat with 0%nat by lia.
    replace (S n - length saved)%nat with 0%nat by lia.
    cbn [repeat]. rewrite !app_nil_r. reflexivity.
  - rewrite (firstn_all2 (n := S n)) by lia.
    rewrite (firstn_all2 (n := n)) by lia.
    replace (S n - length saved)%nat with (S (n - length saved)) by lia.
    rewrite <- app_assoc. f_equal.
    rewrite <- repeat_cons. reflexivity.
Qed.

Lemma restore_palette_spec (colors : list color) (saved : list Z)
      (q : palette) :
  restore_palette colors saved q
  = mk_palette colors
               (firstn (length colors) saved
                ++ repeat 1 (length colors - length saved))
               (repeat false (length colors))
               (last_select_index q).
Proof.
  unfold restore_palette. rewrite restore_loop_spec, length_seq.
  cbn [app]. rewrite restored_layers. reflexivity.
Qed.

(** X24.  Loading the palette of a project always gives three lists of
    the same length: every colour of the file is kept, colour [i] gets
    the [i]-th saved layer number, colours beyond the saved layer
    numbers get layer 1, surplus layer numbers are dropped, and no row
    is selected. *)
Theorem restore_palette_is_aligned
        (colors : list color) (saved : list Z) (q : palette) :
  aligned (restore_palette colors saved q) /\
  picked_colors (restore_palette colors saved q) = colors /\
  layer_vars (restore_palette colors saved q)
  = firstn (length colors) saved ++ repeat 1 (length colors - length saved) /\
  select_vars (restore_palette colors saved q)
  = repeat false (length colors).
Proof.
  rewrite restore_palette_spec. cbn. split; [| auto].
  unfold aligned. cbn.
  rewrite length_app, length_firstn, !repeat_length. lia.
Qed.

(** X25.  Round trip of the palette through a project file: a palette
    with one layer number per colour comes back from save and load with
    the same colours and the same layer numbers, nothing selected. *)
Theorem project_palette_round_trip (p q : palette) :
  length (layer_vars p) = length (picked_colors p) ->
  restore_palette (saved_colors p) (saved_layers p) q
  = mk_palette (picked_colors p) (layer_vars p)
               (repeat false (length (picked_colors p)))
               (last_select_index q).
Proof.
  intros Hl. rewrite restore_palette_spec. unfold saved_colors, saved_layers.
  rewrite <- Hl, firstn_all, Nat.sub_diag. cbn [repeat].
  rewrite app_nil_r. reflexivity.
Qed.

Lemma project_palette_round_trip_witness :
  restore_palette
    (saved_colors (mk_palette [(1, 2, 3); (4, 5, 6)] [7; 3] [true; false] 0))
    (saved_layers (mk_palette [(1, 2, 3); (4, 5, 6)] [7; 3] [true; false] 0))
    (mk_palette [] [] [] (-1))
  = mk_palette [(1, 2, 3); (4, 5, 6)] [7; 3] [false; false] (-1).
Proof.
  apply (project_palette_round_trip
           (mk_palette [(1, 2, 3); (4, 5, 6)] [7; 3] [true; false] 0)
           (mk_palette [] [] [] (-1))).
  reflexivity.
Defined.

End ProjectFacts.

Module PreviewFacts.
Import RasterFacts LayerMerge LayerMergeFacts Preview.

Lemma at2_map2 {A B C : Type} (f : A -> B -> C)
      (a : list (list A)) (b : list (list B)) (y x : nat) (va : A) (vb : B) :
  at2 a y x = Some va -> at2 b y x = Some vb ->
  at2 (map2 (map2 f) a b) y x = Some (f va vb).
Proof.
  unfold at2, map2. intros Ha Hb.
  destruct (nth_error a y) as [ra|] eqn:Ea; [| discriminate].
  destruct (nth_error b y) as [rb|] eqn:Eb; [| discriminate].
  rewrite nth_error_map, (nth_error_combine a b y ra rb Ea Eb). cbn.
  rewrite nth_error_map, (nth_error_combine ra rb x va vb Ha Hb). reflexivity.
Qed.

Lemma grid_shape_map2 {A B C : Type} (f : A -> B -> C)
      (a : list (list A)) (b : list (list B)) (h w : nat) :
  grid_shape a h w -> grid_shape b h w ->
  grid_shape (map2 (map2 f) a b) h w.
Proof.
  intros [Ha Wa] [Hb Wb]. unfold map2. split.
  - rewrite length_map, length_combine. lia.
  - apply Forall_forall. intros row Hrow. apply in_map_iff in Hrow.
    destruct Hrow as ([ra rb] & <- & Hin). cbn [fst snd].
    rewrite Forall_forall in Wa, Wb.
    rewrite length_map, length_combine.
    rewrite (Wa ra (in_combine_l _ _ _ _ Hin)).
    rewrite (Wb rb (in_combine_r _ _ _ _ Hin)). lia.
Qed.

Lemma has_shape_grid (m : mask) (h w : nat) :
  has_shape m h w = true <-> grid_shape m h w.
Proof.
  unfold has_shape, grid_shape.
  rewrite andb_true_iff, Nat.eqb_eq, forallb_forall, Forall_forall.
  split; intros [H1 H2]; (split; [exact H1 |]); intros row Hrow;
    apply Nat.eqb_eq; auto.
Qed.

Lemma grid_shape_white (h w : nat) : grid_shape (np_white h w) h w.
Proof.
  unfold np_white. split; [apply repeat_length |].
  apply Forall_forall. intros row Hrow. apply repeat_spec in Hrow. subst row.
  apply repeat_length.
Qed.

Lemma at2_white (h w y x : nat) :
  (y < h)%nat -> (x < w)%nat -> at2 (np_white h w) y x = Some white.
Proof.
  intros Hy Hx. unfold at2, np_white.
  rewrite (nth_error_repeat _ Hy). apply nth_error_repeat. exact Hx.
Qed.

Lemma assign_where_spec (h w : nat) (img : image) (m : mask) (c : color) :
  grid_shape img h w -> grid_shape m h w ->
  exists out,
    assign_where h w img m c = Some out /\ grid_shape out h w /\
    forall y x px v,
      at2 img y x = Some px -> at2 m y x = Some v ->
      at2 out y x = Some (if v =? 255 then c else px).
Proof.
  intros Hi Hm. unfold assign_where.
  rewrite (proj2 (has_shape_grid m h w) Hm).
  eexists. split; [reflexivity |]. split.
  - apply grid_shape_map2; assumption.
  - intros y x px v Hpx Hv.
    exact (at2_map2 (fun (px0 : color) (v0 : Z) => if v0 =? 255 then c else px0)
                    img m y x px v Hpx Hv).
Qed.

Local Abbreviation clear_at :=
  (fun (y x : nat) (im : nat * mask) => at2 (snd im) y x <> Some 255).

Section Paint.
Variables (h w : nat) (centers : list color).

Local Abbreviation fits :=
  (fun im : nat * mask =>
     grid_shape (snd im) h w /\ (fst im < length centers)%nat).

Lemma paint_all_spec :
  forall masks combined,
    Forall fits masks -> grid_shape combined h w ->
    exists out,
      paint_all h w centers masks combined = Some out /\
      grid_shape out h w /\
      forall y x px,
        at2 combined y x = Some px ->
        (forall pre i m post c,
            masks = pre ++ (i, m) :: post ->
            at2 m y x = Some 255 ->
            Forall (clear_at y x) post ->
            nth_error centers i = Some c ->
            at2 out y x = Some c) /\
        (Forall (clear_at y x) masks -> at2 out y x = Some px).
Proof.
  induction masks as [|[i0 m0] rest IH]; intros combined HF Hc;
    cbn [paint_all].
  - exists combined. split; [reflexivity |]. split; [exact Hc |].
    intros y x px Hpx. split; [| intros _; exact Hpx].
    intros pre i m post c E. destruct pre; discriminate.
  - inversion HF as [|? ? [Hm0 Hi0] HF']; subst. cbn [fst snd] in Hm0, Hi0.
    destruct (nth_error centers i0) as [c0|] eqn:Ec0.
    2:{ apply nth_error_None in Ec0. lia. }
    destruct (assign_where_spec h w combined m0 c0 Hc Hm0)
      as (img & Himg & Hshape & Hpix).
    rewrite Himg.
    destruct (IH img HF' Hshape) as (out & Hout & Hso & Hrest).
    exists out. split; [exact Hout |]. split; [exact Hso |].
    intros y x px Hpx.
    destruct (at2_in_shape combined h w y x px Hc Hpx) as [Hy Hx].
    destruct (at2_defined m0 h w y x Hm0 Hy Hx) as (v0 & Hv0).
    pose proof (Hpix y x px v0 Hpx Hv0) as Himgpx.
    destruct (Hrest y x _ Himgpx) as [Hlast Hnone]. split.
    + intros pre i m post c E Hm Hpost Hci.
      destruct pre as [|a pre]; cbn [app] in E.
      * injection E as -> -> ->. rewrite (Hnone Hpost).
        rewrite Hm in Hv0. injection Hv0 as <-. cbn. congruence.
      * injection E as _ E. exact (Hlast pre i m post c E Hm Hpost Hci).
    + intros Hall. inversion Hall as [|? ? H0 Hall']; subst.
      rewrite (Hnone Hall'). cbn [snd] in H0.
      destruct (Z.eqb_spec v0 255) as [-> | _]; [congruence | reflexivity].
Qed.

Lemma paint_each_spec :
  forall masks,
    Forall fits masks ->
    exists previews,
      paint_each h w centers masks = Some previews /\
      length previews = length masks /\
      forall k i m c y x v,
        nth_error masks k = Some (i, m) ->
        nth_error centers i = Some c ->
        at2 m y x = Some v ->
        exists layer,
          nth_error previews k = Some layer /\
          at2 layer y x
          = Some (let '(b, g, r) := if v =? 255 then c else white in
                  (r, g, b)).
Proof.
  induction masks as [|[i0 m0] rest IH]; intros HF; cbn [paint_each].
  - exists []. split; [reflexivity |]. split; [reflexivity |].
    intros k i m c y x v Hk. destruct k; discriminate.
  - inversion HF as [|? ? [Hm0 Hi0] HF']; subst. cbn [fst snd] in Hm0, Hi0.
    destruct (nth_error centers i0) as [c0|] eqn:Ec0.
    2:{ apply nth_error_None in Ec0. lia. }
    destruct (assign_where_spec h w (np_white h w) m0 c0
                                (grid_shape_white h w) Hm0)
      as (img & Himg & Hshape & Hpix).
    rewrite Himg. destruct (IH HF') as (previews & Hrun & Hlen & Hrest).
    rewrite Hrun. eexists. split; [reflexivity |].
    split; [cbn; congruence |].
    intros k i m c y x v Hk Hc Hv. destruct k as [|k]; cbn in Hk |- *.
    + injection Hk as <- <-. eexists. split; [reflexivity |].
      destruct (at2_in_shape m0 h w y x v Hm0 Hv) as [Hy Hx].
      unfold cvtColor_BGR2RGB.
      rewrite at2_map, (Hpix y x white v (at2_white h w y x Hy Hx) Hv).
      assert (Ecc : c0 = c) by congruence. subst c0. reflexivity.
    + exact (Hrest k i m c y x v Hk Hc Hv).
Qed.

End Paint.

Lemma nth_error_enumerate {A : Type} (l : list A) (k : nat) (a : A) :
  nth_error l k = Some a -> nth_error (enumerate l) k = Some (k, a).
Proof.
  intros H. unfold enumerate. apply nth_error_combine; [| exact H].
  rewrite nth_error_seq.
  assert (k < length l)%nat by (apply nth_error_Some; congruence).
  destruct (Nat.ltb_spec k (length l)); [reflexivity | lia].
Qed.

Lemma split_at {A : Type} (l : list A) :
  forall k a, nth_error l k = Some a ->
              l = firstn k l ++ a :: skipn (S k) l.
Proof.
  induction l as [|x t IH]; intros k a H; [destruct k; discriminate |].
  destruct k as [|k]; cbn in H |- *.
  - congruence.
  - f_equal. apply IH. exact H.
Qed.

Lemma enumerate_fits {A : Type} (P : nat * A -> Prop) (l : list A) :
  (forall k a, nth_error l k = Some a -> P (k, a)) ->
  Forall P (enumerate l).
Proof.
  intros H. apply Forall_forall. intros [k a] Hin.
  apply H. apply in_enumerate. exact Hin.
Qed.

Lemma later_rows {A : Type} (l : list A) (i j : nat) (a : A) :
  In (j, a) (skipn (S i) (enumerate l)) ->
  (i < j)%nat /\ nth_error l j = Some a.
Proof.
  intros Hin. destruct (In_nth_error _ _ Hin) as (k & Hk).
  rewrite nth_error_skipn in Hk.
  destruct (nth_error l (S i + k)) as [a'|] eqn:E.
  - rewrite (nth_error_enumerate l _ a' E) in Hk. injection Hk as <- <-.
    split; [lia | exact E].
  - exfalso. apply nth_error_None in E.
    assert (Hn : nth_error (enumerate l) (S i + k) <> None) by congruence.
    apply nth_error_Some in Hn. unfold enumerate in Hn.
    rewrite length_combine, length_seq in Hn. lia.
Qed.

(** X26.  With masks of the image's shape and a colour for every mask
    (and all of the image's shape), the previews are built without an
    exception.  In the combined preview a pixel shows, in RGB order, the
    colour of the last layer whose mask is 255 there, and white where no
    mask is 255; the preview of layer [i] shows that layer's colour on
    its mask and white elsewhere. *)
Theorem previews_show_the_last_covering_layer
        (centers : list color) (masks : list mask) (w h : nat) :
  Forall (fun m => grid_shape m h w) masks ->
  (length masks <= length centers)%nat ->
  exists combined previews,
    generate_previews centers masks w h = Some (combined, previews) /\
    length previews = length masks /\
    forall y x,
      (y < h)%nat -> (x < w)%nat ->
      (forall i m b g r,
          nth_error masks i = Some m ->
          nth_error centers i = Some (b, g, r) ->
          (at2 m y x = Some 255 ->
           (forall j m', (i < j)%nat -> nth_error masks j = Some m' ->
                         at2 m' y x <> Some 255) ->
           at2 combined y x = Some (r, g, b)) /\
          exists layer,
            nth_error previews i = Some layer /\
            (at2 m y x = Some 255 -> at2 layer y x = Some (r, g, b)) /\
            (at2 m y x <> Some 255 -> at2 layer y x = Some white)) /\
      ((forall i m, nth_error masks i = Some m -> at2 m y x <> Some 255) ->
       at2 combined y x = Some white).
Proof.
  intros Hshapes Hlen. unfold generate_previews.
  assert (HF : Forall (fun im : nat * mask =>
                         grid_shape (snd im) h w /\
                         (fst im < length centers)%nat)
                      (enumerate masks)).
  { apply enumerate_fits. intros k m Hk. cbn [fst snd]. split.
    - rewrite Forall_forall in Hshapes. apply Hshapes.
      exact (nth_error_In _ _ Hk).
    - assert (k < length masks)%nat by (apply nth_error_Some; congruence).
      lia. }
  destruct (paint_all_spec h w centers (enumerate masks) (np_white h w)
                           HF (grid_shape_white h w))
    as (out & Hout & Hso & Hall).
  destruct (paint_each_spec h w centers (enumerate masks) HF)
    as (previews & Hprev & Hplen & Heach).
  rewrite Hout, Hprev. eexists. exists previews.
  split; [reflexivity |]. split.
  { rewrite Hplen. unfold enumerate.
    rewrite length_combine, length_seq. lia. }
  intros y x Hy Hx.
  destruct (Hall y x white (at2_white h w y x Hy Hx)) as [Hlast Hnone].
  unfold cvtColor_BGR2RGB. rewrite at2_map. split.
  - intros i m b g r Hm Hc. split.
    + intros H255 Hlater.
      rewrite (Hlast (firstn i (enumerate masks)) i m
                     (skipn (S i) (enumerate masks)) (b, g, r)).
      * reflexivity.
      * apply split_at. apply nth_error_enumerate. exact Hm.
      * exact H255.
      * apply Forall_forall. intros [j m'] Hin. cbn [snd].
        destruct (later_rows masks i j m' Hin) as [Hij Hj].
        exact (Hlater j m' Hij Hj).
      * exact Hc.
    + rewrite Forall_forall in Hshapes.
      destruct (at2_defined m h w y x (Hshapes m (nth_error_In _ _ Hm)) Hy Hx)
        as (v & Hv).
      destruct (Heach i i m (b, g, r) y x v
                      (nth_error_enumerate masks i m Hm) Hc Hv)
        as (layer & Hl & Hpx).
      exists layer. split; [exact Hl |]. rewrite Hpx, Hv. split.
      * intros E. injection E as ->. reflexivity.
      * intros E. destruct (Z.eqb_spec v 255) as [-> | _];
          [congruence | reflexivity].
  - intros Hclear. rewrite Hnone; [reflexivity |].
    apply Forall_forall. intros [j m'] Hin. cbn [snd].
    apply (Hclear j). apply in_enumerate. exact Hin.
Qed.

Lemma previews_show_the_last_covering_layer_witness :
  exists combined previews,
    generate_previews [(1, 2, 3); (4, 5, 6)]
                      [[[255; 255; 0]]; [[0; 255; 0]]] 3 1
    = Some (combined, previews) /\
    length previews = length [[[255; 255; 0]]; [[0; 255; 0]]] /\
    forall y x,
      (y < 1)%nat -> (x < 3)%nat ->
      (forall i m b g r,
          nth_error [[[255; 255; 0]]; [[0; 255; 0]]] i = Some m ->
          nth_error [(1, 2, 3); (4, 5, 6)] i = Some (b, g, r) ->
          (at2 m y x = Some 255 ->
           (forall j m', (i < j)%nat ->
                         nth_error [[[255; 255; 0]]; [[0; 255; 0]]] j = Some m' ->
                         at2 m' y x <> Some 255) ->
           at2 combined y x = Some (r, g, b)) /\
          exists layer,
            nth_error previews i = Some layer /\
            (at2 m y x = Some 255 -> at2 layer y x = Some (r, g, b)) /\
            (at2 m y x <> Some 255 -> at2 layer y x = Some white)) /\
      ((forall i m, nth_error [[[255; 255; 0]]; [[0; 255; 0]]] i = Some m ->
                    at2 m y x <> Some 255) ->
       at2 combined y x = Some white).
Proof.
  apply (previews_show_the_last_covering_layer
           [(1, 2, 3); (4, 5, 6)] [[[255; 255; 0]]; [[0; 255; 0]]] 3 1).
  - repeat constructor.
  - cbn. lia.
Defined.

End PreviewFacts.

Module AutoMergeFacts.
Import RasterFacts LayerMerge LayerMergeFacts AutoMerge.

Local Abbreviation lit := (fun b : bool => if b then 255 else 0).

Section AutoLoop.
Context {cv : OpenCV}.
Variables (labels : list (list nat)) (h w : nat) (min_blob : Z).
Hypothesis Hshape : grid_shape labels h w.
Hypothesis Hmin : min_blob <= 0.

Lemma auto_loop_spec :
  forall n s final_masks total,
    grid_shape total h w ->
    exists total',
      auto_loop (map (fun i => cv_inRange labels i i) (seq s n)) None min_blob
                final_masks total
      = (final_masks ++ map (fun i => cv_inRange labels i i) (seq s n),
         total') /\
      grid_shape total' h w /\
      forall y x l b,
        at2 labels y x = Some l ->
        at2 total y x = Some (lit b) ->
        at2 total' y x
        = Some (lit (b || ((s <=? l) && (l <? s + n))%nat)).
Proof.
  induction n as [|n IH]; intros s fm total Ht; cbn [seq map auto_loop].
  - exists total. rewrite app_nil_r. split; [reflexivity |].
    split; [exact Ht |]. intros y x l b _ Hb.
    destruct (Nat.leb_spec s l), (Nat.ltb_spec l (s + 0)); cbn;
      rewrite ?orb_false_r; try exact Hb. lia.
  - assert (Hclean : clean_layer_mask None min_blob (cv_inRange labels s s)
                     = cv_inRange labels s s).
    { unfold clean_layer_mask, filter_small_blobs.
      destruct (Z.leb_spec min_blob 0); [reflexivity | lia]. }
    rewrite Hclean.
    assert (Hr : grid_shape (cv_inRange labels s s) h w).
    { unfold cv_inRange. apply grid_shape_map. exact Hshape. }
    destruct (IH (S s) (fm ++ [cv_inRange labels s s])
                 (cv_bitwise_or total (cv_inRange labels s s))
                 (grid_shape_or _ _ h w Ht Hr))
      as (total' & Hrun & Hst & Hpix).
    exists total'. split; [rewrite Hrun, <- app_assoc; reflexivity |].
    split; [exact Hst |].
    intros y x l b Hl Hb.
    rewrite (Hpix y x l (b || Nat.eqb l s)%bool Hl).
    + f_equal. f_equal.
      destruct b; cbn [orb]; [reflexivity |].
      destruct (Nat.eqb_spec l s), (Nat.leb_spec (S s) l),
        (Nat.ltb_spec l (S s + n)), (Nat.leb_spec s l),
        (Nat.ltb_spec l (s + S n)); cbn; try reflexivity; lia.
    + rewrite (at2_or total (cv_inRange labels s s) y x _ _ Hb
                      (at2_inRange labels s y x l Hl)).
      f_equal. destruct b, (Nat.eqb l s); reflexivity.
Qed.

End AutoLoop.

Lemma at2_in_concat {A : Type} (g : list (list A)) (y x : nat) (a : A) :
  at2 g y x = Some a -> In a (concat g).
Proof.
  unfold at2. intros H.
  destruct (nth_error g y) as [row|] eqn:E; [| discriminate].
  apply in_concat. exists row.
  split; [exact (nth_error_In _ _ E) | exact (nth_error_In _ _ H)].
Qed.

(** X27.  In auto mode with clean-up off (denoise strength 0, minimum
    blob size at most 0) and labels below the number of clusters, the
    layer masks are the raw masks of the clusters and they cover every
    pixel: the orphan detection finds nothing, so the [append] that
    [final_centers] lacks in this mode is never reached. *)
Theorem auto_run_without_cleanup_has_no_orphans
        {cv : OpenCV} (rng : nat -> color) (labels : list (list nat))
        (h w : nat) (raw_centers : list color) (min_blob : Z) :
  grid_shape labels h w ->
  (forall y x l, at2 labels y x = Some l -> (l < length raw_centers)%nat) ->
  min_blob <= 0 ->
  exists total_coverage_mask,
    merge_auto labels h w raw_centers None min_blob
    = (raw_masks_of labels (length raw_centers), NdArray raw_centers,
       total_coverage_mask) /\
    orphan_step rng true None min_blob total_coverage_mask
                (raw_masks_of labels (length raw_centers))
                (NdArray raw_centers)
    = Ok (raw_masks_of labels (length raw_centers), NdArray raw_centers).
Proof.
  intros Hshape Hrange Hmin. unfold merge_auto, raw_masks_of.
  destruct (auto_loop_spec labels h w min_blob Hshape Hmin
                           (length raw_centers) 0 [] (np_zeros h w)
                           (grid_shape_zeros h w))
    as (total & Hrun & Hst & Hpix).
  rewrite Hrun. cbn [app]. exists total. split; [reflexivity |].
  unfold orphan_step, clean_orphan_mask, filter_small_blobs.
  destruct (Z.leb_spec min_blob 0); [| lia].
  rewrite no_orphans_of_full_coverage; [reflexivity |].
  intros v Hv. destruct (in_at2 total v Hv) as (y & x & Hyx).
  destruct (at2_in_shape total h w y x v Hst Hyx) as [Hy Hx].
  destruct (at2_defined labels h w y x Hshape Hy Hx) as (l & Hl).
  pose proof (Hrange y x l Hl) as Hlt.
  rewrite (Hpix y x l false Hl (at2_zeros h w y x Hy Hx)) in Hyx.
  cbn [orb Nat.add] in Hyx.
  destruct (Nat.leb_spec 0 l); [| lia].
  destruct (Nat.ltb_spec l (length raw_centers)); [| lia].
  cbn in Hyx. congruence.
Qed.

Lemma auto_run_without_cleanup_has_no_orphans_witness :
  exists total_coverage_mask,
    merge_auto (cv := Reference.cv) [[0; 1]; [1; 1]]%nat 2 2
               [(9, 9, 9); (200, 0, 0)] None 0
    = (raw_masks_of [[0; 1]; [1; 1]]%nat (length [(9, 9, 9); (200, 0, 0)]),
       NdArray [(9, 9, 9); (200, 0, 0)], total_coverage_mask) /\
    orphan_step (cv := Reference.cv) (fun _ => (1, 2, 3)) true None 0
                total_coverage_mask
                (raw_masks_of [[0; 1]; [1; 1]]%nat
                              (length [(9, 9, 9); (200, 0, 0)]))
                (NdArray [(9, 9, 9); (200, 0, 0)])
    = Ok (raw_masks_of [[0; 1]; [1; 1]]%nat (length [(9, 9, 9); (200, 0, 0)]),
          NdArray [(9, 9, 9); (200, 0, 0)]).
Proof.
  apply (auto_run_without_cleanup_has_no_orphans
           (cv := Reference.cv) (fun _ => (1, 2, 3)) [[0; 1]; [1; 1]]%nat 2 2
           [(9, 9, 9); (200, 0, 0)] 0).
  - split; [reflexivity | repeat constructor].
  - intros y x l H. apply at2_in_concat in H. cbn in H |- *.
    destruct H as [<- | [<- | [<- | [<- | []]]]]; lia.
  - lia.
Defined.

End AutoMergeFacts.
